(** * BioCore dashboard (script.js): run orchestration and report rendering

    A shallow embedding of [script.js]: field validation, payload assembly,
    the loading animation with its timers, the markdown renderer, the
    asynchronous run with its lock, and the copy / download / clear actions.

    Conventions.
    - A JavaScript string is the list of its UTF-16 code units ([jsstring]).
    - A JavaScript number is [NaN], an infinity, the negative zero, or a
      decimal [Dec m e] (m * 10^e).  What [parseInt] returns is rounded to
      the nearest IEEE double; the numbers of a parsed JSON text are kept as
      they are written.
    - Host functions whose definition belongs to the browser (JSON.parse,
      JSON.stringify, the text [String()] gives, toUpperCase, error texts)
      are the fields of the class [Engine]; [ref_engine] is one concrete
      engine.  Which values [String()] and [toLocaleString()] refuse is
      fixed by the language and defined here.
    - A page may lack elements ([missing]).  The statements that lock the
      page stand before the [try] of [runAnalysis], where nothing catches
      the TypeError a missing element gives; they are modelled with it.
      The other functions are given on a page that has the elements they
      touch. *)

From Stdlib Require Import ZArith NArith List String Ascii Bool Lia.
From stdpp Require Import gmap strings list fin_maps.

Set Warnings "-clear-no-such-hyp".

(* ------------------------------------------------------------------ *)
(** ** Strings as code units *)

Abbreviation jsstring := (list N).

Definition js (s : string) : jsstring :=
  map N_of_ascii (list_ascii_of_string s).

Module Ch.
Definition LF : N := 10.
Definition backtick : N := 96.
Definition star : N := 42.
Definition hash : N := 35.
Definition dash : N := 45.
Definition amp : N := 38.
Definition lt : N := 60.
Definition gt : N := 62.
Definition plus : N := 43.
Definition minus : N := 45.
Definition underscore : N := 95.
Definition bullet : N := 8226.    (* U+2022 *)
Definition ellipsis : N := 8230.  (* U+2026 *)
Definition emdash : N := 8212.    (* U+2014 *)
End Ch.

(** LineTerminator of the regular-expression grammar: what [.] refuses and
    what [^] / [$] look for under the [m] flag. *)
Definition isLineTerminator (c : N) : bool :=
  ((c =? 10) || (c =? 13) || (c =? 8232) || (c =? 8233))%N.

(** WhiteSpace and LineTerminator, as stripped by [trim] and [trimEnd]. *)
Definition isWhiteSpace (c : N) : bool :=
  ((c =? 9) || (c =? 10) || (c =? 11) || (c =? 12) || (c =? 13) || (c =? 32)
   || (c =? 160) || (c =? 5760) || ((8192 <=? c) && (c <=? 8202))
   || (c =? 8232) || (c =? 8233) || (c =? 8239) || (c =? 8287)
   || (c =? 12288) || (c =? 65279))%N.

Definition isDigit (c : N) : bool := ((48 <=? c) && (c <=? 57))%N.
Definition isUpper (c : N) : bool := ((65 <=? c) && (c <=? 90))%N.
Definition isLower (c : N) : bool := ((97 <=? c) && (c <=? 122))%N.

(** [\w] *)
Definition isWordChar (c : N) : bool :=
  isDigit c || isUpper c || isLower c || (c =? Ch.underscore)%N.

Fixpoint take_while (p : N → bool) (s : jsstring) : jsstring :=
  match s with
  | [] => []
  | c :: s' => if p c then c :: take_while p s' else []
  end.

Fixpoint drop_while (p : N → bool) (s : jsstring) : jsstring :=
  match s with
  | [] => []
  | c :: s' => if p c then drop_while p s' else s
  end.

Definition trimStart (s : jsstring) : jsstring := drop_while isWhiteSpace s.
Definition trimEnd (s : jsstring) : jsstring :=
  rev (drop_while isWhiteSpace (rev s)).
Definition trim (s : jsstring) : jsstring := trimEnd (trimStart s).

(** JavaScript truthiness of a string: non-empty. *)
Definition nonempty (s : jsstring) : bool :=
  match s with [] => false | _ :: _ => true end.

Fixpoint starts_with (p s : jsstring) : bool :=
  match p, s with
  | [], _ => true
  | a :: p', b :: s' => (a =? b)%N && starts_with p' s'
  | _ :: _, [] => false
  end.

(** [s.replace(pat, rep)] with a string pattern: the first occurrence only. *)
Fixpoint replace_first (pat rep s : jsstring) : jsstring :=
  if starts_with pat s then rep ++ drop (length pat) s
  else match s with
       | [] => []
       | c :: s' => c :: replace_first pat rep s'
       end.

(** [parts.join(sep)] *)
Fixpoint join (sep : jsstring) (parts : list jsstring) : jsstring :=
  match parts with
  | [] => []
  | [p] => p
  | p :: rest => p ++ sep ++ join sep rest
  end.

(* ------------------------------------------------------------------ *)
(** ** Values *)

Inductive Number :=
| NaN
| Inf (neg : bool)       (* Infinity, -Infinity *)
| NegZero                (* -0 *)
| Dec (m e : Z).

#[warnings="-register-all"]
Inductive JsVal :=
| JUndefined
| JNull
| JBool (b : bool)
| JNum (n : Number)
| JStr (s : jsstring)
| JArr (items : list JsVal)
| JObj (fields : list (jsstring * JsVal)).

Definition JInt (z : Z) : JsVal := JNum (Dec z 0).

Definition truthy (v : JsVal) : bool :=
  match v with
  | JUndefined | JNull => false
  | JBool b => b
  | JNum NaN => false
  | JNum (Inf _) => true
  | JNum NegZero => false
  | JNum (Dec m _) => negb (m =? 0)%Z
  | JStr s => nonempty s
  | JArr _ | JObj _ => true
  end.

(** [a || b] *)
Definition js_or (a b : JsVal) : JsVal := if truthy a then a else b.
Infix "|||" := js_or (at level 50, left associativity).

Definition jseqb (a b : jsstring) : bool := bool_decide (a = b).

(** Own property of a parsed JSON object; a later duplicate key wins. *)
Fixpoint assoc_last (k : jsstring) (fields : list (jsstring * JsVal))
    : option JsVal :=
  match fields with
  | [] => None
  | (k', v) :: rest =>
      match assoc_last k rest with
      | Some v' => Some v'
      | None => if jseqb k k' then Some v else None
      end
  end.

(** [v.k] for a value that is neither null nor undefined and a name [k]
    that no prototype defines: the own property, else undefined. *)
Definition get_prop (v : JsVal) (k : jsstring) : JsVal :=
  match v with
  | JObj fields => default JUndefined (assoc_last k fields)
  | _ => JUndefined
  end.

(** Whether a parsed JSON object has the own property [k]. *)
Definition has_own (k : string) (fields : list (jsstring * JsVal)) : bool :=
  bool_decide (is_Some (assoc_last (js k) fields)).

(** Whether [String(v)] throws.  A parsed JSON object is converted by the
    [toString] it finds: its own property of that name, which is never a
    function, makes the conversion a TypeError; without one the inherited
    method answers.  An array joins the conversions of its elements, null
    and undefined counting as empty. *)
Fixpoint string_throws (v : JsVal) : bool :=
  match v with
  | JObj fields => has_own "toString" fields
  | JArr items =>
      existsb (λ x, match x with
                    | JUndefined | JNull => false
                    | _ => string_throws x
                    end) items
  | _ => false
  end.

(** Whether [v.toLocaleString()] throws, for [v] neither null nor
    undefined.  An object calls its own [toLocaleString] property, never a
    function, or else the inherited method, which calls [toString]; an
    array asks each of its elements in turn. *)
Fixpoint locale_throws (v : JsVal) : bool :=
  match v with
  | JObj fields =>
      has_own "toLocaleString" fields || has_own "toString" fields
  | JArr items =>
      existsb (λ x, match x with
                    | JUndefined | JNull => false
                    | _ => locale_throws x
                    end) items
  | _ => false
  end.

(** Whether a number is an integer value ([Number.isInteger]). *)
Definition is_integer (n : Number) : bool :=
  match n with
  | NaN | Inf _ => false
  | NegZero => true
  | Dec m e => (0 <=? e)%Z || (m mod 10 ^ (- e) =? 0)%Z
  end.

Definition digits_value (ds : jsstring) : Z :=
  fold_left (λ acc d, acc * 10 + (Z.of_N d - 48))%Z ds 0%Z.

(** The Number value for a positive integer [n]: the nearest double, a tie
    going to the even significand, given as the integer it is; [None] when
    the rounded value is beyond the finite doubles (2^1024 or more).  An
    integer of at most 53 bits is a double. *)
Definition to_double (n : Z) : option Z :=
  let e := (Z.log2 n - 52)%Z in
  if (e <=? 0)%Z then Some n
  else
    let q := (n / 2 ^ e)%Z in
    let r := (n mod 2 ^ e)%Z in
    let q' := if (2 * r <? 2 ^ e)%Z then q
              else if (2 ^ e <? 2 * r)%Z then (q + 1)%Z
              else if Z.even q then q else (q + 1)%Z in
    let v := (q' * 2 ^ e)%Z in
    if (v <? 2 ^ 1024)%Z then Some v else None.

(** [parseInt(s, 10)]: leading white space is skipped, then an optional
    sign, then the longest run of decimal digits; no digit gives NaN.  The
    integer read is returned as a Number: zero keeps the sign, anything
    else is rounded to a double.  (All the digits are read as they stand;
    the standard lets an engine read those after the 20th as 0.) *)

Definition parseInt10 (s : jsstring) : Number :=
  let s1 := trimStart s in
  let '(neg, s2) :=
    match s1 with
    | c :: r => if (c =? Ch.minus)%N then (true, r)
                else if (c =? Ch.plus)%N then (false, r)
                else (false, s1)
    | [] => (false, s1)
    end in
  let ds := take_while isDigit s2 in
  if nonempty ds
  then
    let n := digits_value ds in
    if (n =? 0)%Z then (if neg then NegZero else Dec 0 0)
    else match to_double n with
         | Some v => Dec (if neg then - v else v) 0
         | None => Inf neg
         end
  else NaN.

(** Decimal text of a natural number, as in a template literal. *)
Fixpoint uint_digits (u : Decimal.uint) : jsstring :=
  match u with
  | Decimal.Nil => []
  | Decimal.D0 u => 48%N :: uint_digits u
  | Decimal.D1 u => 49%N :: uint_digits u
  | Decimal.D2 u => 50%N :: uint_digits u
  | Decimal.D3 u => 51%N :: uint_digits u
  | Decimal.D4 u => 52%N :: uint_digits u
  | Decimal.D5 u => 53%N :: uint_digits u
  | Decimal.D6 u => 54%N :: uint_digits u
  | Decimal.D7 u => 55%N :: uint_digits u
  | Decimal.D8 u => 56%N :: uint_digits u
  | Decimal.D9 u => 57%N :: uint_digits u
  end.

Definition decimal (n : N) : jsstring := uint_digits (N.to_uint n).

(* ------------------------------------------------------------------ *)
(** ** Exceptions *)

Record JsError := mkError { err_message : jsstring }.

Inductive Result (A : Type) :=
| Ok (a : A)
| Throw (e : JsError).
Arguments Ok {A} a.
Arguments Throw {A} e.

Definition rbind {A B} (r : Result A) (k : A → Result B) : Result B :=
  match r with
  | Ok a => k a
  | Throw e => Throw e
  end.

(* ------------------------------------------------------------------ *)
(** ** The host *)

Class Engine := {
  (** [JSON.parse(s)]; [None] when it throws a SyntaxError. *)
  JSON_parse : jsstring → option JsVal;
  SyntaxError_message : jsstring → jsstring;
  (** [JSON.stringify(v, null, 2)] *)
  JSON_stringify : JsVal → jsstring;
  (** [String(v)], also the conversion applied by [new Error(v)]. *)
  ToString : JsVal → jsstring;
  ToString_str : ∀ s, ToString (JStr s) = s;
  toUpperCase : jsstring → jsstring;
  (** [n.toLocaleString()] *)
  toLocaleString : JsVal → jsstring;
  (** Text of the TypeError for reading property [k] of null. *)
  msg_null_property : jsstring → jsstring;
  (** Text of the TypeError for calling [text.replace] when it is undefined. *)
  msg_not_a_function : jsstring;
  (** Text of the TypeError of [String(v)] for a value it refuses. *)
  msg_not_primitive : jsstring;
  (** Text of the TypeError of [v.toLocaleString()] when the call throws. *)
  msg_locale : JsVal → jsstring;
  (** Text of the TypeError for setting property [k] of null. *)
  msg_null_assign : jsstring → jsstring;
}.

(** [String(v)] as it is evaluated. *)
Definition String_ `{Engine} (v : JsVal) : Result jsstring :=
  if string_throws v then Throw (mkError msg_not_primitive)
  else Ok (ToString v).

(** [v.toLocaleString()] as it is evaluated. *)
Definition toLocaleString_ `{Engine} (v : JsVal) : Result jsstring :=
  if locale_throws v then Throw (mkError (msg_locale v))
  else Ok (toLocaleString v).

Definition JSON_parse_throw `{Engine} (s : jsstring) : Result JsVal :=
  match JSON_parse s with
  | Some v => Ok v
  | None => Throw (mkError (SyntaxError_message s))
  end.

(* ------------------------------------------------------------------ *)
(** ** Form fields ([dom.*.value]) *)

Record Form := {
  projectName : jsstring;
  projectDesc : jsstring;
  compoundName : jsstring;
  cid : jsstring;
  pdbId : jsstring;
  dockingJson : jsstring;
  swissdockJson : jsstring;
  pymolJson : jsstring;
  webhookUrl : jsstring;
}.

(** [dom[key].value] for the three keys [validate] iterates over. *)
Definition dom_value (key : string) (f : Form) : jsstring :=
  if String.eqb key "dockingJson" then dockingJson f
  else if String.eqb key "swissdockJson" then swissdockJson f
  else if String.eqb key "pymolJson" then pymolJson f
  else [].

(* ------------------------------------------------------------------ *)
(** ** Validation *)

Module Msg.
Definition name_required : jsstring := js "Analysis Name is required.".
Definition compound_required : jsstring :=
  js "Provide a Compound Name or PubChem CID.".
Definition pdb_length : jsstring :=
  js "PDB Accession must be exactly 4 characters (e.g. 1EQG).".
Definition webhook_required : jsstring := js "n8n Webhook URL is required.".
Definition invalid_json (key : string) : jsstring :=
  replace_first (js "Json") [] (js key) ++ js " data is not valid JSON.".
End Msg.

Definition json_keys : list string :=
  ["dockingJson"; "swissdockJson"; "pymolJson"].

Definition push_if (c : bool) (msg : jsstring) : list jsstring :=
  if c then [msg] else [].

Definition validate_json `{Engine} (f : Form) (key : string) : list jsstring :=
  let val := trim (dom_value key f) in
  if nonempty val
  then match JSON_parse val with
       | Some _ => []
       | None => [Msg.invalid_json key]
       end
  else [].

Definition validate `{Engine} (f : Form) : list jsstring :=
  let compoundName := trim (compoundName f) in
  let cid := trim (cid f) in
  let pdbId := trim (pdbId f) in
  let webhookUrl := trim (webhookUrl f) in
  let projectName := trim (projectName f) in
  push_if (negb (nonempty projectName)) Msg.name_required
  ++ push_if (negb (nonempty compoundName) && negb (nonempty cid))
       Msg.compound_required
  ++ push_if (negb (nonempty pdbId) || negb (length pdbId =? 4))
       Msg.pdb_length
  ++ push_if (negb (nonempty webhookUrl)) Msg.webhook_required
  ++ flat_map (validate_json f) json_keys.

(* ------------------------------------------------------------------ *)
(** ** Payload *)

(** The payload object: property name to value.  A property set to
    [undefined] is a property of the object, bound to [JUndefined]. *)
Abbreviation Payload := (gmap string JsVal).

Definition set_if (c : bool) (k : string) (v : JsVal) (p : Payload) : Payload :=
  if c then <[k := v]> p else p.

Definition set_parsed `{Engine} (raw : jsstring) (k : string) (p : Payload)
    : Result Payload :=
  if nonempty raw
  then rbind (JSON_parse_throw raw) (λ v, Ok (<[k := v]> p))
  else Ok p.

Definition buildPayload `{Engine} (f : Form) : Result Payload :=
  let payload : Payload :=
    <["pdb_id" := JStr (toUpperCase (trim (pdbId f)))]>
    (<["analysis_description" := JStr (trim (projectDesc f)) ||| JUndefined]>
    (<["analysis_name" := JStr (trim (projectName f))]> ∅)) in
  let compoundName := trim (compoundName f) in
  let cid := trim (cid f) in
  let payload := set_if (nonempty compoundName) "compound_name"
                   (JStr compoundName) payload in
  let payload := set_if (nonempty cid) "cid" (JNum (parseInt10 cid)) payload in
  let dockRaw := trim (dockingJson f) in
  let swissRaw := trim (swissdockJson f) in
  let pymolRaw := trim (pymolJson f) in
  rbind (set_parsed dockRaw "docking_results" payload) (λ payload,
  rbind (set_parsed swissRaw "swissdock_results" payload) (λ payload,
  set_parsed pymolRaw "pymol_data" payload)).

(** What [JSON.stringify(payload)] writes for the top-level object: a
    property bound to undefined is left out, NaN and the infinities are
    written as null, the negative zero as 0. *)
Definition request_body (p : Payload) : Payload :=
  omap (λ v, match v with
             | JUndefined => None
             | JNum NaN | JNum (Inf _) => Some JNull
             | JNum NegZero => Some (JNum (Dec 0 0))
             | _ => Some v
             end) p.

(* ------------------------------------------------------------------ *)
(** ** Global regular-expression replacement *)

(** A pattern tried at one position.  It is told whether the position
    starts a line (for [^] under the [m] flag) and sees the text from the
    position on; it answers the replacement and the length of the match,
    which is at least one for every pattern of the script. *)
Definition Matcher := bool → jsstring → option (jsstring * nat).

(** [s.replace(/.../g, ...)]: positions are tried from left to right; a
    match is replaced and the scan resumes after it ([skip] counts the code
    units of the match still to pass), otherwise the code unit is kept. *)
Fixpoint gsub (m : Matcher) (skip : nat) (bol : bool) (s : jsstring)
    : jsstring :=
  match s with
  | [] => []
  | c :: s' =>
      match skip with
      | S k => gsub m k (isLineTerminator c) s'
      | O =>
          match m bol s with
          | Some (out, n) => out ++ gsub m (pred n) (isLineTerminator c) s'
          | None => c :: gsub m 0 (isLineTerminator c) s'
          end
      end
  end.

Definition replace_all (m : Matcher) (s : jsstring) : jsstring :=
  gsub m 0 true s.

(** [/c/g] for a single character. *)
Definition one_char (c : N) (rep : jsstring) : Matcher :=
  λ _ s,
    match s with
    | x :: _ => if (x =? c)%N then Some (rep, 1) else None
    | [] => None
    end.

Definition fence : jsstring := [Ch.backtick; Ch.backtick; Ch.backtick].

(** The text before the first fence, for the lazy [[\s\S]*?] followed by
    the closing fence. *)
Fixpoint find_fence (s : jsstring) : option jsstring :=
  if starts_with fence s then Some []
  else match s with
       | [] => None
       | c :: s' => cons c <$> find_fence s'
       end.

(** [/```[\w]*\n?([\s\S]*?)```/g] with the callback that trims the end of
    the capture. *)
Definition code_block : Matcher :=
  λ _ s,
    if starts_with fence s then
      let r := drop 3 s in
      let lang := take_while isWordChar r in
      let r1 := drop (length lang) r in
      let nl := if starts_with [Ch.LF] r1 then 1 else 0 in
      match find_fence (drop nl r1) with
      | Some code =>
          Some (js "<pre><code>" ++ trimEnd code ++ js "</code></pre>",
                3 + length lang + nl + length code + 3)
      | None => None
      end
    else None.

Definition not_backtick (c : N) : bool := negb (c =? Ch.backtick)%N.

(** [/`([^`]+)`/g] replaced by [<code>$1</code>]. *)
Definition inline_code : Matcher :=
  λ _ s,
    match s with
    | c :: r =>
        if (c =? Ch.backtick)%N then
          let body := take_while not_backtick r in
          if nonempty body && starts_with [Ch.backtick] (drop (length body) r)
          then Some (js "<code>" ++ body ++ js "</code>", length body + 2)
          else None
        else None
    | [] => None
    end.

Definition dot (c : N) : bool := negb (isLineTerminator c).

(** [/^MARKS(.+)$/gm] replaced by [OPEN $1 CLOSE]: the greedy [.+] runs to
    the end of the line, where [$] holds. *)
Definition header (marks open close : jsstring) : Matcher :=
  λ bol s,
    if bol && starts_with marks s then
      let line := take_while dot (drop (length marks) s) in
      if nonempty line
      then Some (open ++ line ++ close, length marks + length line)
      else None
    else None.

(** The lazy [.+?] after its first character: stop at the first position
    where the delimiter follows, give up at a line terminator. *)
Fixpoint lazy_dots (delim s : jsstring) : option jsstring :=
  if starts_with delim s then Some []
  else match s with
       | [] => None
       | c :: s' => if dot c then cons c <$> lazy_dots delim s' else None
       end.

(** [/DELIM(.+?)DELIM/g] replaced by [OPEN $1 CLOSE]. *)
Definition emphasis (delim open close : jsstring) : Matcher :=
  λ _ s,
    if starts_with delim s then
      match drop (length delim) s with
      | c :: r =>
          if dot c then
            match lazy_dots delim r with
            | Some cap =>
                Some (open ++ (c :: cap) ++ close,
                      length delim + S (length cap) + length delim)
            | None => None
            end
          else None
      | [] => None
      end
    else None.

Definition hr_html : jsstring :=
  js "<hr style=" ++ [34%N] ++ js "border-color:var(--border);margin:16px 0"
  ++ [34%N] ++ js ">".

(** [/^---$/gm] *)
Definition rule : Matcher :=
  λ bol s,
    if bol && starts_with (js "---") s
       && match drop 3 s with
          | [] => true
          | c :: _ => isLineTerminator c
          end
    then Some (hr_html, 3)
    else None.

(** The three escapes shared by [renderMarkdown] and [escHtml]. *)
Definition escape (text : jsstring) : jsstring :=
  replace_all (one_char Ch.gt (js "&gt;"))
    (replace_all (one_char Ch.lt (js "&lt;"))
       (replace_all (one_char Ch.amp (js "&amp;")) text)).

Definition pass_code_block := replace_all code_block.
Definition pass_inline_code := replace_all inline_code.
Definition pass_headers (html : jsstring) : jsstring :=
  replace_all (header (js "# ") (js "<h1>") (js "</h1>"))
    (replace_all (header (js "## ") (js "<h2>") (js "</h2>"))
       (replace_all (header (js "### ") (js "<h3>") (js "</h3>")) html)).
Definition pass_bold :=
  replace_all (emphasis (js "**") (js "<strong>") (js "</strong>")).
Definition pass_italic :=
  replace_all (emphasis (js "*") (js "<em>") (js "</em>")).
Definition pass_rule := replace_all rule.

(** The passes that run after inline code. *)
Definition later_passes (html : jsstring) : jsstring :=
  pass_rule (pass_italic (pass_bold (pass_headers html))).

(** [renderMarkdown(text)] for a string: the [innerHTML] given to the
    returned [div]. *)
Definition renderMarkdown (text : jsstring) : jsstring :=
  let html := escape text in
  let html := pass_code_block html in
  let html := pass_inline_code html in
  let html := pass_headers html in
  let html := pass_bold html in
  let html := pass_italic html in
  let html := pass_rule html in
  html.

(** [escHtml(str)]: [String(str)], which may throw, and the three
    escapes. *)
Definition escHtml `{Engine} (v : JsVal) : Result jsstring :=
  rbind (String_ v) (λ s, Ok (escape s)).

(* ------------------------------------------------------------------ *)
(** ** The page *)

(** Values the script gives to [style.display]. *)
Inductive Display := d_none | d_flex | d_block.

(** [className] of a loading step: [lstep], [lstep active], [lstep done]. *)
Inductive StepClass := lstep | lstep_active | lstep_done.

(** Content of [resultBody]: emptied, a rendered [div] (its [innerHTML]),
    or plain text. *)
Inductive Body :=
| BodyEmpty
| BodyHtml (html : jsstring)
| BodyText (text : jsstring).

Record View := {
  btnRun_disabled : bool;
  statusLabel : jsstring;               (* textContent *)
  statusDot : jsstring;                 (* className *)
  display : gmap string Display;        (* style.display, by element id *)
  resultMeta : list (jsstring * jsstring);  (* rows of the meta bar *)
  resultBody : Body;
  errorMsg : jsstring;                  (* textContent *)
  step_class : gmap string StepClass;   (* by element id *)
  step_text : gmap string jsstring;
  copy_text : jsstring;                 (* the .btn-copy button *)
  copy_color : jsstring;
  missing : list string;                (* ids the document does not have *)
}.

(** What the outside world sees the script do. *)
Inductive Effect :=
| EAlert (msg : jsstring)
| EFetch (url : jsstring) (body : gmap string JsVal)   (* POST, JSON body *)
| EConsoleError (msg : jsstring)
| EClipboard (text : jsstring)
| EDownload (filename : jsstring) (content : JsVal)
| ERejected (e : JsError).      (* runAnalysis() itself rejects *)

Inductive Callback :=
| CbAdvance (cell : nat)       (* [advance] of the animation owning [cell] *)
| CbInterval (cell : nat)      (* the arrow function given to setInterval *)
| CbCopyRevert (orig : jsstring).

Record Timer := {
  t_id : nat;
  t_due : N;                   (* milliseconds *)
  t_period : option N;         (* [Some p] for setInterval *)
  t_cb : Callback;
}.

Record World := {
  form : Form;
  view : View;
  lastReport : JsVal;
  loadingTimer : option nat;
  (** host state *)
  now : N;
  timers : list Timer;         (* in registration order *)
  next_id : nat;
  cells : list nat;            (* the [current] variable of each animation *)
  suspended : list Payload;    (* runs waiting at [await fetch], oldest first *)
  effects : list Effect;       (* oldest first *)
}.

Definition map_view (g : View → View) (w : World) : World :=
  {| form := form w; view := g (view w); lastReport := lastReport w;
     loadingTimer := loadingTimer w; now := now w; timers := timers w;
     next_id := next_id w; cells := cells w; suspended := suspended w;
     effects := effects w |}.

Definition set_form (f : Form) (w : World) : World :=
  {| form := f; view := view w; lastReport := lastReport w;
     loadingTimer := loadingTimer w; now := now w; timers := timers w;
     next_id := next_id w; cells := cells w; suspended := suspended w;
     effects := effects w |}.

Definition set_lastReport (v : JsVal) (w : World) : World :=
  {| form := form w; view := view w; lastReport := v;
     loadingTimer := loadingTimer w; now := now w; timers := timers w;
     next_id := next_id w; cells := cells w; suspended := suspended w;
     effects := effects w |}.

Definition set_loadingTimer (t : option nat) (w : World) : World :=
  {| form := form w; view := view w; lastReport := lastReport w;
     loadingTimer := t; now := now w; timers := timers w;
     next_id := next_id w; cells := cells w; suspended := suspended w;
     effects := effects w |}.

Definition set_now (t : N) (w : World) : World :=
  {| form := form w; view := view w; lastReport := lastReport w;
     loadingTimer := loadingTimer w; now := t; timers := timers w;
     next_id := next_id w; cells := cells w; suspended := suspended w;
     effects := effects w |}.

Definition set_timers (ts : list Timer) (w : World) : World :=
  {| form := form w; view := view w; lastReport := lastReport w;
     loadingTimer := loadingTimer w; now := now w; timers := ts;
     next_id := next_id w; cells := cells w; suspended := suspended w;
     effects := effects w |}.

Definition set_next_id (n : nat) (w : World) : World :=
  {| form := form w; view := view w; lastReport := lastReport w;
     loadingTimer := loadingTimer w; now := now w; timers := timers w;
     next_id := n; cells := cells w; suspended := suspended w;
     effects := effects w |}.

Definition set_cells (cs : list nat) (w : World) : World :=
  {| form := form w; view := view w; lastReport := lastReport w;
     loadingTimer := loadingTimer w; now := now w; timers := timers w;
     next_id := next_id w; cells := cs; suspended := suspended w;
     effects := effects w |}.

Definition set_suspended (ps : list Payload) (w : World) : World :=
  {| form := form w; view := view w; lastReport := lastReport w;
     loadingTimer := loadingTimer w; now := now w; timers := timers w;
     next_id := next_id w; cells := cells w; suspended := ps;
     effects := effects w |}.

Definition emit (e : Effect) (w : World) : World :=
  {| form := form w; view := view w; lastReport := lastReport w;
     loadingTimer := loadingTimer w; now := now w; timers := timers w;
     next_id := next_id w; cells := cells w; suspended := suspended w;
     effects := effects w ++ [e] |}.

Module V.
Definition set_disabled (b : bool) (v : View) : View :=
  {| btnRun_disabled := b; statusLabel := statusLabel v;
     statusDot := statusDot v; display := display v;
     resultMeta := resultMeta v; resultBody := resultBody v;
     errorMsg := errorMsg v; step_class := step_class v;
     step_text := step_text v; copy_text := copy_text v;
     copy_color := copy_color v;
     missing := missing v |}.
Definition set_status (label dot : jsstring) (v : View) : View :=
  {| btnRun_disabled := btnRun_disabled v; statusLabel := label;
     statusDot := dot; display := display v;
     resultMeta := resultMeta v; resultBody := resultBody v;
     errorMsg := errorMsg v; step_class := step_class v;
     step_text := step_text v; copy_text := copy_text v;
     copy_color := copy_color v;
     missing := missing v |}.
Definition set_display (id : string) (d : Display) (v : View) : View :=
  {| btnRun_disabled := btnRun_disabled v; statusLabel := statusLabel v;
     statusDot := statusDot v; display := <[id := d]> (display v);
     resultMeta := resultMeta v; resultBody := resultBody v;
     errorMsg := errorMsg v; step_class := step_class v;
     step_text := step_text v; copy_text := copy_text v;
     copy_color := copy_color v;
     missing := missing v |}.
Definition set_resultMeta (m : list (jsstring * jsstring)) (v : View) : View :=
  {| btnRun_disabled := btnRun_disabled v; statusLabel := statusLabel v;
     statusDot := statusDot v; display := display v;
     resultMeta := m; resultBody := resultBody v;
     errorMsg := errorMsg v; step_class := step_class v;
     step_text := step_text v; copy_text := copy_text v;
     copy_color := copy_color v;
     missing := missing v |}.
Definition set_resultBody (b : Body) (v : View) : View :=
  {| btnRun_disabled := btnRun_disabled v; statusLabel := statusLabel v;
     statusDot := statusDot v; display := display v;
     resultMeta := resultMeta v; resultBody := b;
     errorMsg := errorMsg v; step_class := step_class v;
     step_text := step_text v; copy_text := copy_text v;
     copy_color := copy_color v;
     missing := missing v |}.
Definition set_errorMsg (m : jsstring) (v : View) : View :=
  {| btnRun_disabled := btnRun_disabled v; statusLabel := statusLabel v;
     statusDot := statusDot v; display := display v;
     resultMeta := resultMeta v; resultBody := resultBody v;
     errorMsg := m; step_class := step_class v;
     step_text := step_text v; copy_text := copy_text v;
     copy_color := copy_color v;
     missing := missing v |}.
Definition set_step_class (id : string) (c : StepClass) (v : View) : View :=
  {| btnRun_disabled := btnRun_disabled v; statusLabel := statusLabel v;
     statusDot := statusDot v; display := display v;
     resultMeta := resultMeta v; resultBody := resultBody v;
     errorMsg := errorMsg v; step_class := <[id := c]> (step_class v);
     step_text := step_text v; copy_text := copy_text v;
     copy_color := copy_color v;
     missing := missing v |}.
Definition set_step_text (id : string) (t : jsstring) (v : View) : View :=
  {| btnRun_disabled := btnRun_disabled v; statusLabel := statusLabel v;
     statusDot := statusDot v; display := display v;
     resultMeta := resultMeta v; resultBody := resultBody v;
     errorMsg := errorMsg v; step_class := step_class v;
     step_text := <[id := t]> (step_text v); copy_text := copy_text v;
     copy_color := copy_color v;
     missing := missing v |}.
Definition set_copy (text color : jsstring) (v : View) : View :=
  {| btnRun_disabled := btnRun_disabled v; statusLabel := statusLabel v;
     statusDot := statusDot v; display := display v;
     resultMeta := resultMeta v; resultBody := resultBody v;
     errorMsg := errorMsg v; step_class := step_class v;
     step_text := step_text v; copy_text := text;
     copy_color := color; missing := missing v |}.
End V.

(* ------------------------------------------------------------------ *)
(** ** UI state helpers *)

Definition regions : list string :=
  ["emptyState"; "loadingState"; "resultState"; "errorState"].

Definition showOnly (id : string) (w : World) : World :=
  foldl (λ w s,
           map_view (V.set_display s
             (if String.eqb s id
              then (if String.eqb s "resultState" then d_block else d_flex)
              else d_none)) w)
        w regions.

Definition setStatus (label state : jsstring) (w : World) : World :=
  map_view (V.set_status label
              (js "status-dot" ++ (if nonempty state then js " " ++ state else [])))
           w.

(* ------------------------------------------------------------------ *)
(** ** Timers of the host *)

Definition register_timer (delay : N) (period : option N) (cb : Callback)
    (w : World) : nat * World :=
  let id := next_id w in
  (id,
   set_next_id (S id)
     (set_timers (timers w ++ [{| t_id := id; t_due := (now w + delay)%N;
                                  t_period := period; t_cb := cb |}]) w)).

Definition setTimeout (cb : Callback) (delay : N) (w : World) : World :=
  snd (register_timer delay None cb w).

Definition setInterval (cb : Callback) (period : N) (w : World) : nat * World :=
  register_timer period (Some period) cb w.

(** [clearInterval(h)]; a null handle clears nothing. *)
Definition clearInterval (h : option nat) (w : World) : World :=
  match h with
  | Some id =>
      set_timers (filter (λ t, t_id t ≠ id) (timers w)) w
  | None => w
  end.

(* ------------------------------------------------------------------ *)
(** ** Loading animation *)

Record LoadingMessage := { m_id : string; m_label : jsstring; m_delay : N }.

Definition loadingMessages : list LoadingMessage :=
  [ {| m_id := "ls1"; m_label := js "Fetching PubChem data" ++ [Ch.ellipsis];
       m_delay := 0 |};
    {| m_id := "ls2"; m_label := js "Fetching RCSB PDB data" ++ [Ch.ellipsis];
       m_delay := 2500 |};
    {| m_id := "ls3";
       m_label := js "Running 7-step AI analysis" ++ [Ch.ellipsis];
       m_delay := 5000 |};
    {| m_id := "ls4"; m_label := js "Generating report" ++ [Ch.ellipsis];
       m_delay := 12000 |} ].

Definition set_step (i : nat) (c : StepClass) (w : World) : World :=
  match loadingMessages !! i with
  | Some m => map_view (V.set_step_class (m_id m) c) w
  | None => w
  end.

(** The closure [advance]; [cell] holds its variable [current]. *)
Definition advance (cell : nat) (w : World) : World :=
  let current := default 0 (cells w !! cell) in
  let w := if 0 <? current then set_step (current - 1) lstep_done w else w in
  if current <? length loadingMessages
  then set_cells (<[cell := S current]> (cells w))
         (set_step current lstep_active w)
  else w.

(** The arrow function run by the interval. *)
Definition interval_tick (cell : nat) (w : World) : World :=
  let current := default 0 (cells w !! cell) in
  match loadingMessages !! current with
  | Some next =>
      let before :=
        if 0 <? current
        then default 0%N (m_delay <$> loadingMessages !! (current - 1))
        else 0%N in
      (* the table is ascending, so the difference is not negative *)
      setTimeout (CbAdvance cell) (m_delay next - before)%N w
  | None => w
  end.

Definition startLoadingAnimation (w : World) : World :=
  let w := foldl (λ w m,
                    map_view (V.set_step_text (m_id m) (m_label m))
                      (map_view (V.set_step_class (m_id m) lstep) w))
                 w loadingMessages in
  let cell := length (cells w) in
  let w := set_cells (cells w ++ [0]) w in
  let w := advance cell w in
  let '(h, w) := setInterval (CbInterval cell) 2500 w in
  set_loadingTimer (Some h) w.

(** The first loop of [startLoadingAnimation]: classes and labels. *)
Definition reset_steps (w : World) : World :=
  foldl (λ w m,
           map_view (V.set_step_text (m_id m) (m_label m))
             (map_view (V.set_step_class (m_id m) lstep) w))
        w loadingMessages.

(** The rest of [startLoadingAnimation]. *)
Definition start_sequence (w : World) : World :=
  let cell := length (cells w) in
  let w := set_cells (cells w ++ [0]) w in
  let w := advance cell w in
  let '(h, w) := setInterval (CbInterval cell) 2500 w in
  set_loadingTimer (Some h) w.

Definition stopLoadingAnimation (w : World) : World :=
  set_loadingTimer None (clearInterval (loadingTimer w) w).

Definition run_callback (cb : Callback) (w : World) : World :=
  match cb with
  | CbAdvance cell => advance cell w
  | CbInterval cell => interval_tick cell w
  | CbCopyRevert orig => map_view (V.set_copy orig []) w
  end.

(** The timer to run next among those due by [until]: the earliest, and
    among equals the one registered first. *)
Fixpoint next_due (until : N) (ts : list Timer) : option Timer :=
  match ts with
  | [] => None
  | t :: rest =>
      match next_due until rest with
      | Some t' =>
          if (t_due t <=? until)%N && (t_due t <=? t_due t')%N
          then Some t else Some t'
      | None => if (t_due t <=? until)%N then Some t else None
      end
  end.

(** Run one timer: a timeout is consumed; an interval runs its callback
    and is then armed again, behind anything the callback registered. *)
Definition fire (t : Timer) (w : World) : World :=
  let w := set_timers (filter (λ t', t_id t' ≠ t_id t) (timers w)) w in
  let w := set_now (N.max (now w) (t_due t)) w in
  let w := run_callback (t_cb t) w in
  match t_period t with
  | Some p =>
      set_timers (timers w ++ [{| t_id := t_id t; t_due := (t_due t + p)%N;
                                  t_period := Some p; t_cb := t_cb t |}]) w
  | None => w
  end.

(** Let the clock reach [until], running at most [fuel] timers. *)
Fixpoint run_timers (fuel : nat) (until : N) (w : World) : World :=
  match fuel with
  | O => w
  | S fuel' =>
      match next_due until (timers w) with
      | Some t => run_timers fuel' until (fire t w)
      | None => w
      end
  end.

Definition elapse (fuel : nat) (dt : N) (w : World) : World :=
  let until := (now w + dt)%N in
  let w := run_timers fuel until w in
  set_now (N.max (now w) until) w.

(* ------------------------------------------------------------------ *)
(** ** Statements that change the page and may throw *)

Definition M (A : Type) : Type := World → Result A * World.

#[global] Instance M_ret : MRet M := λ A a w, (Ok a, w).
#[global] Instance M_bind : MBind M := λ A B k m w,
  match m w with
  | (Ok a, w') => k a w'
  | (Throw e, w') => (Throw e, w')
  end.

Definition throw {A} (e : JsError) : M A := λ w, (Throw e, w).
Definition act (g : World → World) : M unit := λ w, (Ok tt, g w).

(** [try { body } catch (err) { handler } finally { final }] *)
Definition try_catch_finally (body : M unit) (handler : JsError → M unit)
    (final : World → World) : M unit :=
  λ w,
    let '(r, w1) := body w in
    let '(r', w2) := match r with
                     | Ok _ => (Ok tt, w1)
                     | Throw e => handler e w1
                     end in
    (r', final w2).

(** [v.k]: a TypeError when [v] is null or undefined. *)
Definition member `{Engine} (v : JsVal) (k : string) : M JsVal :=
  match v with
  | JNull | JUndefined => throw (mkError (msg_null_property (js k)))
  | _ => mret (get_prop v (js k))
  end.

(** [a || b] where evaluating either side may throw. *)
Definition or_else (a b : M JsVal) : M JsVal :=
  v ← a; if truthy v then mret v else b.

(* ------------------------------------------------------------------ *)
(** ** Render result *)

Definition dash_text : JsVal := JStr [Ch.emdash].

(** A computation that does not touch the page. *)
Definition lift {A} (r : Result A) : M A := λ w, (r, w).

(** The template literal of the meta bar: its expressions are evaluated
    from left to right, each [escHtml] and the [toLocaleString] call being
    able to throw, before anything is written. *)
Definition meta_rows `{Engine} (meta : JsVal) (payload : Payload)
    : Result (list (jsstring * jsstring)) :=
  let pay k := default JUndefined (payload !! k) in
  let tokens_used := get_prop meta (js "tokens_used") in
  rbind (escHtml (pay "analysis_name")) (λ analysis,
  rbind (escHtml (get_prop meta (js "compound_queried")
                  ||| pay "compound_name" ||| pay "cid" ||| dash_text))
    (λ compound,
  rbind (escHtml (get_prop meta (js "pdb_id_queried") ||| pay "pdb_id"))
    (λ target,
  rbind (escHtml (get_prop meta (js "model_used") ||| dash_text)) (λ model,
  rbind (if truthy tokens_used
         then rbind (toLocaleString_
                       (get_prop tokens_used (js "total_tokens") ||| JInt 0))
                (λ n, Ok [(js "Tokens", n)])
         else Ok [])
    (λ tokens,
  Ok ([ (js "Analysis", analysis); (js "Compound", compound);
        (js "Target (PDB)", target); (js "Model", model) ] ++ tokens)))))).

Definition renderResult `{Engine} (data : JsVal) (payload : Payload) : M unit :=
  m ← member data "meta";
  let meta := m ||| JObj [] in
  rows ← lift (meta_rows meta payload);
  act (map_view (V.set_resultMeta rows));;
  act (map_view (V.set_resultBody BodyEmpty));;
  report ← member data "report";
  if truthy report then
    match report with
    | JStr text => act (map_view (V.set_resultBody (BodyHtml (renderMarkdown text))))
    | _ => throw (mkError msg_not_a_function)   (* text.replace is undefined *)
    end
  else act (map_view (V.set_resultBody (BodyText (JSON_stringify data)))).

(* ------------------------------------------------------------------ *)
(** ** Main: run analysis *)

(** How the request settles. *)
Inductive Outcome :=
| FetchFailed (e : JsError)                  (* [fetch] rejects *)
| BodyUnreadable (status : N) (e : JsError)  (* [res.json()] rejects *)
| Responded (status : N) (data : JsVal).     (* [data] is the parsed body *)

(** [res.ok] *)
Definition res_ok (status : N) : bool := ((200 <=? status) && (status <=? 299))%N.

Definition is_error_status (v : JsVal) : bool :=
  match v with
  | JStr s => jseqb s (js "error")
  | _ => false
  end.

Definition http_message (status : N) : jsstring := js "HTTP " ++ decimal status.

(** [data.message || data.error || `HTTP ${res.status}`] *)
Definition failure_value `{Engine} (status : N) (data : JsVal) : M JsVal :=
  or_else (member data "message")
    (or_else (member data "error") (mret (JStr (http_message status)))).

Definition unknown_error : jsstring :=
  js "Unknown error. Check the console for details.".

Definition alert_text (errors : list jsstring) : jsstring :=
  js "Please fix the following:" ++ [Ch.LF; Ch.LF; Ch.bullet; 32%N]
  ++ join [Ch.LF; Ch.bullet; 32%N] errors.

(** The [try] block, from the point where the request has settled. *)
Definition try_block `{Engine} (payload : Payload) (o : Outcome) : M unit :=
  '(status, data) ← match o with
                    | FetchFailed e => throw e
                    | BodyUnreadable _ e => throw e
                    | Responded status data => mret (status, data)
                    end;
  act stopLoadingAnimation;;
  failed ← (if negb (res_ok status) then mret true
            else st ← member data "status"; mret (is_error_status st));
  if (failed : bool) then
    v ← failure_value status data;
    throw (mkError (ToString v))
  else
    report ← member data "report";
    act (set_lastReport (report ||| JStr (JSON_stringify data)));;
    renderResult data payload;;
    act (showOnly "resultState");;
    act (map_view (V.set_display "outputActions" d_flex));;
    act (setStatus (js "Complete") []).

Definition catch_block (err : JsError) : M unit :=
  act stopLoadingAnimation;;
  act (map_view (V.set_errorMsg
         (if nonempty (err_message err) then err_message err
          else unknown_error)));;
  act (showOnly "errorState");;
  act (setStatus (js "Error") (js "error"));;
  act (emit (EConsoleError (err_message err))).

Definition finally_block (w : World) : World :=
  map_view (V.set_disabled false) w.

(** A statement that writes to the element [id], or to its [style]: when
    the page has no such element the reference is null and the statement
    throws the TypeError with the text [msg]. *)
Definition on_element (id : string) (msg : jsstring) (g : World → World)
    : M unit :=
  λ w, if bool_decide (id ∈ missing (view w))
       then (Throw (mkError msg), w)
       else (Ok tt, g w).

(** [showOnly(id)], region by region. *)
Definition showOnly_on `{Engine} (id : string) : M unit :=
  foldr (λ s rest,
           on_element s (msg_null_property (js "style"))
             (map_view (V.set_display s
                (if String.eqb s id
                 then (if String.eqb s "resultState" then d_block else d_flex)
                 else d_none)));;
           rest)
        (mret tt) regions.

(** [setStatus(label, state)], statement by statement. *)
Definition setStatus_on `{Engine} (label state : jsstring) : M unit :=
  on_element "statusLabel" (msg_null_assign (js "textContent"))
    (map_view (λ v, V.set_status label (statusDot v) v));;
  on_element "statusDot" (msg_null_assign (js "className"))
    (map_view (λ v, V.set_status (statusLabel v)
                      (js "status-dot"
                       ++ (if nonempty state then js " " ++ state else []))
                      v)).

(** [startLoadingAnimation()], statement by statement: the four steps are
    reset in turn, then [advance] activates the first and the interval is
    registered. *)
Definition startLoadingAnimation_on `{Engine} : M unit :=
  foldr (λ m rest,
           on_element (m_id m) (msg_null_assign (js "className"))
             (λ w, map_view (V.set_step_text (m_id m) (m_label m))
                     (map_view (V.set_step_class (m_id m) lstep) w));;
           rest)
        (mret tt) loadingMessages;;
  act start_sequence.

(** The elements the lock statements write to, in the order of the
    writes. *)
Definition lock_elements : list string :=
  ["btnRun"; "outputActions"] ++ regions ++ ["statusLabel"; "statusDot"]
  ++ map m_id loadingMessages.

(** The page has every element the lock statements write to. *)
Definition lock_ready (w : World) : bool :=
  forallb (λ id, negb (bool_decide (id ∈ missing (view w)))) lock_elements.

(** The statements under [// Lock UI] (script.js 210-214). *)
Definition lock_ui `{Engine} : M unit :=
  on_element "btnRun" (msg_null_assign (js "disabled"))
    (map_view (V.set_disabled true));;
  on_element "outputActions" (msg_null_property (js "style"))
    (map_view (V.set_display "outputActions" d_none));;
  showOnly_on "loadingState";;
  setStatus_on (js "Running" ++ [Ch.ellipsis]) (js "loading");;
  startLoadingAnimation_on.

(** [runAnalysis()] up to [await fetch(...)].  The lock statements stand
    before the [try]: when one of them throws, the statements before it
    have run, nothing catches the error and the call rejects. *)
Definition runAnalysis `{Engine} (w : World) : World :=
  let errors := validate (form w) in
  if bool_decide (errors ≠ []) then emit (EAlert (alert_text errors)) w
  else
    let webhookUrl := trim (webhookUrl (form w)) in
    match buildPayload (form w) with
    | Throw e => emit (ERejected e) w
    | Ok payload =>
        match lock_ui w with
        | (Throw e, w) => emit (ERejected e) w
        | (Ok _, w) =>
            let w := emit (EFetch webhookUrl (request_body payload)) w in
            set_suspended (suspended w ++ [payload]) w
        end
    end.

(** [runAnalysis()] from the point where the request has settled. *)
Definition runAnalysis_resume `{Engine} (payload : Payload) (o : Outcome)
    (w : World) : World :=
  snd (try_catch_finally (try_block payload o) catch_block finally_block w).

(* ------------------------------------------------------------------ *)
(** ** Copy, download, clear *)

(** [copyReport()] up to the clipboard promise. *)
Definition copyReport `{Engine} (w : World) : World :=
  if negb (truthy (lastReport w)) then w
  else emit (EClipboard (ToString (lastReport w))) w.

(** The [then] callback of [copyReport]. *)
Definition copyReport_then (w : World) : World :=
  let orig := copy_text (view w) in
  let w := map_view (V.set_copy (js "Copied!") (js "var(--green)")) w in
  setTimeout (CbCopyRevert orig) 1500 w.

Definition toLowerAscii (c : N) : N := if isUpper c then (c + 32)%N else c.

(** [name.replace(/[^a-z0-9]/gi, '_').toLowerCase()] *)
Definition file_stem (name : jsstring) : jsstring :=
  map toLowerAscii
    (map (λ c, if isDigit c || isUpper c || isLower c then c
               else Ch.underscore) name).

Definition downloadReport (w : World) : World :=
  if negb (truthy (lastReport w)) then w
  else
    let stem := file_stem (trim (projectName (form w))) in
    let name := if nonempty stem then stem else js "biocore_report" in
    emit (EDownload (name ++ js ".md") (lastReport w)) w.

Definition clearForm (w : World) : World :=
  let f := form w in
  let w := set_form {| projectName := []; projectDesc := [];
                       compoundName := []; cid := []; pdbId := [];
                       dockingJson := []; swissdockJson := [];
                       pymolJson := []; webhookUrl := webhookUrl f |} w in
  let w := showOnly "emptyState" w in
  let w := map_view (V.set_display "outputActions" d_none) w in
  let w := setStatus (js "Ready") [] w in
  set_lastReport (JStr []) w.

(* ------------------------------------------------------------------ *)
(** ** The page as an event loop *)

Inductive Event :=
| UserInput (f : Form)        (* the user edits fields *)
| ClickRun
| Settle (o : Outcome)        (* the pending request settles *)
| Elapse (fuel : nat) (dt : N)
| ClickClear
| ClickCopy
| ClipboardWritten
| ClickDownload.

(** Modelled from the spec: the binding of the submit control to
    [runAnalysis] is in the page, which is not among the sources; a
    disabled control starts no run (spec 4.4, 5). *)
Definition click_run `{Engine} (w : World) : World :=
  if btnRun_disabled (view w) then w else runAnalysis w.

Definition settle `{Engine} (o : Outcome) (w : World) : World :=
  match suspended w with
  | payload :: rest => runAnalysis_resume payload o (set_suspended rest w)
  | [] => w
  end.

Definition handle `{Engine} (ev : Event) (w : World) : World :=
  match ev with
  | UserInput f => set_form f w
  | ClickRun => click_run w
  | Settle o => settle o w
  | Elapse fuel dt => elapse fuel dt w
  | ClickClear => clearForm w
  | ClickCopy => copyReport w
  | ClipboardWritten => copyReport_then w
  | ClickDownload => downloadReport w
  end.

Definition run_events `{Engine} (evs : list Event) (w : World) : World :=
  foldl (λ w ev, handle ev w) w evs.

(** The RunState of the spec, read off the page. *)
Inductive RunState :=
| Idle
| Running
| Succeeded (report : JsVal)
| Failed (message : jsstring).

Definition shown (id : string) (w : World) : bool :=
  match display (view w) !! id with
  | Some d_flex | Some d_block => true
  | _ => false
  end.

Definition runState (w : World) : RunState :=
  if shown "loadingState" w then Running
  else if shown "resultState" w then Succeeded (lastReport w)
  else if shown "errorState" w then Failed (errorMsg (view w))
  else Idle.

(* ------------------------------------------------------------------ *)
(** ** A reference engine

    One concrete host, used to run the model on examples: a JSON parser
    following the JSON grammar, a serializer, and simple conversions. *)

Module Ref.

Definition isJsonWs (c : N) : bool :=
  ((c =? 32) || (c =? 9) || (c =? 10) || (c =? 13))%N.

Definition skip_ws (s : jsstring) : jsstring := drop_while isJsonWs s.

Definition hex_digit (c : N) : option N :=
  if isDigit c then Some (c - 48)%N
  else if ((97 <=? c) && (c <=? 102))%N then Some (c - 87)%N
  else if ((65 <=? c) && (c <=? 70))%N then Some (c - 55)%N
  else None.

Definition simple_escape (c : N) : option N :=
  if (c =? 34)%N then Some 34%N            (* quote *)
  else if (c =? 92)%N then Some 92%N       (* backslash *)
  else if (c =? 47)%N then Some 47%N       (* slash *)
  else if (c =? 98)%N then Some 8%N        (* b *)
  else if (c =? 102)%N then Some 12%N      (* f *)
  else if (c =? 110)%N then Some 10%N      (* n *)
  else if (c =? 114)%N then Some 13%N      (* r *)
  else if (c =? 116)%N then Some 9%N       (* t *)
  else None.

(** The characters of a string literal after its opening quote, and the
    text after its closing quote. *)
Fixpoint string_chars (s : jsstring) : option (jsstring * jsstring) :=
  match s with
  | [] => None
  | c :: r =>
      if (c =? 34)%N then Some ([], r)
      else if (c <? 32)%N then None
      else if (c =? 92)%N then
        match r with
        | e :: r1 =>
            if (e =? 117)%N then
              match r1 with
              | h1 :: h2 :: h3 :: h4 :: r2 =>
                  match hex_digit h1, hex_digit h2, hex_digit h3,
                        hex_digit h4 with
                  | Some a, Some b, Some c', Some d =>
                      '(cs, rest) ← string_chars r2;
                      Some ((a * 4096 + b * 256 + c' * 16 + d)%N :: cs, rest)
                  | _, _, _, _ => None
                  end
              | _ => None
              end
            else
              x ← simple_escape e;
              '(cs, rest) ← string_chars r1;
              Some (x :: cs, rest)
        | [] => None
        end
      else '(cs, rest) ← string_chars r; Some (c :: cs, rest)
  end.

(** A number literal: [-? int frac? exp?]. *)
Definition number (s : jsstring) : option (Number * jsstring) :=
  let '(neg, s) := match s with
                   | c :: r => if (c =? Ch.minus)%N then (true, r) else (false, s)
                   | [] => (false, s)
                   end in
  let int := take_while isDigit s in
  let s := drop (length int) s in
  if negb (nonempty int) then None
  else if starts_with [48%N] int && (1 <? length int) then None
  else
    let '(frac_ok, frac, s) :=
      match s with
      | c :: r =>
          if (c =? 46)%N then
            let fr := take_while isDigit r in
            (nonempty fr, fr, drop (length fr) r)
          else (true, [], s)
      | [] => (true, [], s)
      end in
    if negb frac_ok then None
    else
      let '(exp_ok, ex, s) :=
        match s with
        | c :: r =>
            if ((c =? 101) || (c =? 69))%N then
              let '(eneg, r) :=
                match r with
                | d :: r' => if (d =? Ch.minus)%N then (true, r')
                             else if (d =? Ch.plus)%N then (false, r')
                             else (false, r)
                | [] => (false, r)
                end in
              let ed := take_while isDigit r in
              (nonempty ed,
               if eneg then (- digits_value ed)%Z else digits_value ed,
               drop (length ed) r)
            else (true, 0%Z, s)
        | [] => (true, 0%Z, s)
        end in
      if negb exp_ok then None
      else
        let m := digits_value (int ++ frac) in
        Some (Dec (if neg then - m else m) (ex - Z.of_nat (length frac)), s).

Definition literal (word : string) (v : JsVal) (s : jsstring)
    : option (JsVal * jsstring) :=
  if starts_with (js word) s then Some (v, drop (String.length word) s)
  else None.

Fixpoint value (fuel : nat) (s : jsstring) : option (JsVal * jsstring) :=
  match fuel with
  | O => None
  | S fuel' =>
      match skip_ws s with
      | [] => None
      | c :: r =>
          if (c =? 123)%N then            (* object *)
            match skip_ws r with
            | 125%N :: rest => Some (JObj [], rest)
            | _ => '(fs, rest) ← members fuel' r; Some (JObj fs, rest)
            end
          else if (c =? 91)%N then        (* array *)
            match skip_ws r with
            | 93%N :: rest => Some (JArr [], rest)
            | _ => '(vs, rest) ← elements fuel' r; Some (JArr vs, rest)
            end
          else if (c =? 34)%N then
            '(cs, rest) ← string_chars r; Some (JStr cs, rest)
          else if (c =? 116)%N then literal "true" (JBool true) (c :: r)
          else if (c =? 102)%N then literal "false" (JBool false) (c :: r)
          else if (c =? 110)%N then literal "null" JNull (c :: r)
          else '(n, rest) ← number (c :: r); Some (JNum n, rest)
      end
  end
with elements (fuel : nat) (s : jsstring)
    : option (list JsVal * jsstring) :=
  match fuel with
  | O => None
  | S fuel' =>
      '(v, rest) ← value fuel' s;
      match skip_ws rest with
      | 44%N :: rest' =>
          '(vs, rest'') ← elements fuel' rest'; Some (v :: vs, rest'')
      | 93%N :: rest' => Some ([v], rest')
      | _ => None
      end
  end
with members (fuel : nat) (s : jsstring)
    : option (list (jsstring * JsVal) * jsstring) :=
  match fuel with
  | O => None
  | S fuel' =>
      match skip_ws s with
      | 34%N :: r =>
          '(k, rest) ← string_chars r;
          match skip_ws rest with
          | 58%N :: rest1 =>
              '(v, rest2) ← value fuel' rest1;
              match skip_ws rest2 with
              | 44%N :: rest3 =>
                  '(fs, rest4) ← members fuel' rest3;
                  Some ((k, v) :: fs, rest4)
              | 125%N :: rest3 => Some ([(k, v)], rest3)
              | _ => None
              end
          | _ => None
          end
      | _ => None
      end
  end.

Definition parse (s : jsstring) : option JsVal :=
  '(v, rest) ← value (2 * length s + 2) s;
  if nonempty (skip_ws rest) then None else Some v.

(** Text of a number: integers in decimal, other values as
    mantissa [e] exponent. *)
Definition int_text (z : Z) : jsstring :=
  (if (z <? 0)%Z then [Ch.minus] else []) ++ decimal (Z.abs_N z).

Definition number_text (n : Number) : jsstring :=
  match n with
  | NaN => js "NaN"
  | Inf neg => (if neg then [Ch.minus] else []) ++ js "Infinity"
  | NegZero => js "0"
  | Dec m e =>
      if (0 <=? e)%Z then int_text (m * 10 ^ e)
      else int_text m ++ js "e" ++ int_text e
  end.

Definition quote (s : jsstring) : jsstring :=
  [34%N]
  ++ flat_map (λ c, if ((c =? 34) || (c =? 92))%N then [92%N; c]
                    else if (c =? 10)%N then [92%N; 110%N]
                    else [c]) s
  ++ [34%N].

Definition indent (n : nat) : jsstring := repeat 32%N (2 * n).

Fixpoint stringify (depth : nat) (v : JsVal) : jsstring :=
  match v with
  | JUndefined | JNull | JNum NaN | JNum (Inf _) => js "null"
  | JBool true => js "true"
  | JBool false => js "false"
  | JNum n => number_text n
  | JStr s => quote s
  | JArr [] => js "[]"
  | JArr items =>
      js "[" ++ [Ch.LF]
      ++ join (js "," ++ [Ch.LF])
           (map (λ x, indent (S depth) ++ stringify (S depth) x) items)
      ++ [Ch.LF] ++ indent depth ++ js "]"
  | JObj [] => js "{}"
  | JObj fields =>
      js "{" ++ [Ch.LF]
      ++ join (js "," ++ [Ch.LF])
           (map (λ kv, indent (S depth) ++ quote (fst kv) ++ js ": "
                       ++ stringify (S depth) (snd kv)) fields)
      ++ [Ch.LF] ++ indent depth ++ js "}"
  end.

Fixpoint to_string (v : JsVal) : jsstring :=
  match v with
  | JUndefined => js "undefined"
  | JNull => js "null"
  | JBool true => js "true"
  | JBool false => js "false"
  | JNum n => number_text n
  | JStr s => s
  | JArr items =>
      join (js ",")
        (map (λ x, match x with
                   | JUndefined | JNull => []
                   | _ => to_string x
                   end) items)
  | JObj _ => js "[object Object]"
  end.

(** Upper case for Latin-1 text. *)
Definition upper (s : jsstring) : jsstring :=
  flat_map (λ c, if isLower c then [(c - 32)%N]
                 else if (c =? 223)%N then [83%N; 83%N]
                 else if (c =? 181)%N then [924%N]
                 else if (c =? 255)%N then [376%N]
                 else if ((224 <=? c) && (c <=? 254) && negb (c =? 247))%N
                      then [(c - 32)%N]
                 else [c]) s.

End Ref.

#[global] Instance ref_engine : Engine := {|
  JSON_parse := Ref.parse;
  SyntaxError_message := λ _, js "Unexpected token in JSON";
  JSON_stringify := Ref.stringify 0;
  ToString := Ref.to_string;
  ToString_str := λ s, eq_refl;
  toUpperCase := Ref.upper;
  toLocaleString := Ref.to_string;
  msg_null_property := λ k,
    js "Cannot read properties of null (reading '" ++ k ++ js "')";
  msg_not_a_function := js "text.replace is not a function";
  msg_not_primitive := js "Cannot convert object to primitive value";
  msg_locale := λ v,
    match v with
    | JObj fields =>
        if has_own "toLocaleString" fields
        then js "(intermediate value).toLocaleString is not a function"
        else js "Cannot convert object to primitive value"
    | _ => js "Cannot convert object to primitive value"
    end;
  msg_null_assign := λ k,
    js "Cannot set properties of null (setting '" ++ k ++ js "')";
|}.

(* ------------------------------------------------------------------ *)
(** ** Sample inputs *)

Definition quoted (s : string) : jsstring := [34%N] ++ js s ++ [34%N].

(** The text [{"poses":[{"rank":1}]}]. *)
Definition docking_example : jsstring :=
  js "{" ++ quoted "poses" ++ js ":[{" ++ quoted "rank" ++ js ":1}]}".

Definition docking_example_parsed : JsVal :=
  JObj [(js "poses", JArr [JObj [(js "rank", JInt 1)]])].

(** Name and identifier both given, docking data given, the rest blank. *)
Definition both_form : Form :=
  {| projectName := js "Ibuprofen vs COX-2";
     projectDesc := js "  ";
     compoundName := js "ibuprofen";
     cid := js "3672";
     pdbId := js "1eqg";
     dockingJson := docking_example;
     swissdockJson := [];
     pymolJson := js " ";
     webhookUrl := js "https://x/y" |}.

Definition with_cid (c : jsstring) (f : Form) : Form :=
  {| projectName := projectName f; projectDesc := projectDesc f;
     compoundName := compoundName f; cid := c; pdbId := pdbId f;
     dockingJson := dockingJson f; swissdockJson := swissdockJson f;
     pymolJson := pymolJson f; webhookUrl := webhookUrl f |}.

(** As [both_form], with an identifier that is not a number. *)
Definition bad_cid_form : Form := with_cid (js "abc") both_form.

(* ------------------------------------------------------------------ *)
(** ** Facts about strings *)

Lemma nonempty_true (s : jsstring) : nonempty s = true ↔ s ≠ [].
Proof. destruct s; simpl; split; congruence. Qed.

Lemma nonempty_false (s : jsstring) : nonempty s = false ↔ s = [].
Proof. destruct s; simpl; split; congruence. Qed.

(* ------------------------------------------------------------------ *)
(** ** Validation *)

Section Validation.
Context {E : Engine}.

Lemma push_if_elem (c : bool) (msg x : jsstring) :
  x ∈ push_if c msg ↔ c = true ∧ x = msg.
Proof.
  destruct c; simpl.
  - rewrite list_elem_of_singleton. tauto.
  - rewrite elem_of_nil. split; [tauto | intros [? _]; discriminate].
Qed.

Lemma validate_json_elem (f : Form) (key : string) (x : jsstring) :
  x ∈ validate_json f key → x = Msg.invalid_json key.
Proof.
  unfold validate_json.
  destruct (nonempty _); [destruct (JSON_parse _)|];
    rewrite ?elem_of_nil, ?list_elem_of_singleton; tauto.
Qed.

Lemma validate_elem (f : Form) (x : jsstring) :
  x ∈ validate f ↔
    (nonempty (trim (projectName f)) = false ∧ x = Msg.name_required)
    ∨ (nonempty (trim (compoundName f)) = false
       ∧ nonempty (trim (cid f)) = false ∧ x = Msg.compound_required)
    ∨ ((nonempty (trim (pdbId f)) = false
        ∨ (length (trim (pdbId f)) =? 4) = false) ∧ x = Msg.pdb_length)
    ∨ (nonempty (trim (webhookUrl f)) = false ∧ x = Msg.webhook_required)
    ∨ (∃ key, key ∈ json_keys ∧ x ∈ validate_json f key).
Proof.
  unfold validate. rewrite !elem_of_app, !push_if_elem.
  rewrite (list_elem_of_In (flat_map _ _) x), in_flat_map.
  setoid_rewrite <- list_elem_of_In.
  rewrite andb_true_iff, orb_true_iff, !negb_true_iff.
  naive_solver.
Qed.

Lemma compound_required_not_json (f : Form) (key : string) :
  key ∈ json_keys → Msg.compound_required ∉ validate_json f key.
Proof.
  intros Hkey Hin. apply validate_json_elem in Hin.
  unfold json_keys in Hkey.
  rewrite !elem_of_cons, elem_of_nil in Hkey.
  destruct Hkey as [->|[->|[->|[]]]]; vm_compute in Hin; discriminate.
Qed.

(** Validation passes exactly when no rule fires. *)
Lemma validate_nil (f : Form) :
  validate f = [] →
  nonempty (trim (projectName f)) = true
  ∧ (nonempty (trim (compoundName f)) = true ∨ nonempty (trim (cid f)) = true)
  ∧ length (trim (pdbId f)) = 4
  ∧ nonempty (trim (webhookUrl f)) = true
  ∧ ∀ key, key ∈ json_keys →
      nonempty (trim (dom_value key f)) = true →
      is_Some (JSON_parse (trim (dom_value key f))).
Proof.
  intros Hnil.
  assert (Hno : ∀ x, x ∉ validate f) by (intros x; rewrite Hnil; apply not_elem_of_nil).
  repeat split.
  - destruct (nonempty (trim (projectName f))) eqn:Hn; [done|].
    exfalso. apply (Hno Msg.name_required), validate_elem. auto.
  - destruct (nonempty (trim (compoundName f))) eqn:Hn1; [auto|].
    destruct (nonempty (trim (cid f))) eqn:Hn2; [auto|].
    exfalso. apply (Hno Msg.compound_required), validate_elem. auto 10.
  - destruct (length (trim (pdbId f)) =? 4) eqn:Hn.
    + by apply Nat.eqb_eq.
    + exfalso. apply (Hno Msg.pdb_length), validate_elem. auto 10.
  - destruct (nonempty (trim (webhookUrl f))) eqn:Hn; [done|].
    exfalso. apply (Hno Msg.webhook_required), validate_elem. auto 10.
  - intros key Hkey Hne.
    destruct (JSON_parse (trim (dom_value key f))) eqn:Hn; [eauto|].
    exfalso. apply (Hno (Msg.invalid_json key)), validate_elem.
    do 4 right. exists key. split; [done|].
    unfold validate_json. rewrite Hne, Hn. apply list_elem_of_singleton. done.
Qed.

End Validation.

(* ------------------------------------------------------------------ *)
(** ** Payload *)

Section Payload.
Context {E : Engine}.

(** What an auxiliary field contributes: its parsed value when it is
    not blank. *)
Definition parsed_field (raw : jsstring) : option JsVal :=
  if nonempty raw then JSON_parse raw else None.

Definition optional (c : bool) (v : JsVal) : option JsVal :=
  if c then Some v else None.

Lemma set_parsed_Ok (raw : jsstring) (k : string) (p p' : Payload) :
  set_parsed raw k p = Ok p' →
  (nonempty raw = true → is_Some (JSON_parse raw))
  ∧ ∀ k', p' !! k' = if decide (k = k')
                     then match parsed_field raw with
                          | Some v => Some v
                          | None => p !! k
                          end
                     else p !! k'.
Proof.
  unfold set_parsed, parsed_field, JSON_parse_throw, rbind.
  destruct (nonempty raw); [destruct (JSON_parse raw) as [v|]|];
    intros [= <-]; (split; [intros Hne; try done; by eexists|]);
    intros k'; case_decide;
    simplify_map_eq; done.
Qed.

Lemma set_parsed_validated (raw : jsstring) (k : string) (p : Payload) :
  (nonempty raw = true → is_Some (JSON_parse raw)) →
  ∃ p', set_parsed raw k p = Ok p'.
Proof.
  unfold set_parsed, JSON_parse_throw, rbind. intros Hparse.
  destruct (nonempty raw); [|eauto].
  destruct Hparse as [v ->]; eauto.
Qed.

Lemma set_if_lookup (c : bool) (k k' : string) (v : JsVal) (p : Payload) :
  set_if c k v p !! k' = if decide (k = k')
                         then (if c then Some v else p !! k)
                         else p !! k'.
Proof. unfold set_if. destruct c; case_decide; simplify_map_eq; done. Qed.

(** Every property of the object built from a form. *)
Lemma buildPayload_lookup (f : Form) (p : Payload) :
  buildPayload f = Ok p →
  p !! "analysis_name" = Some (JStr (trim (projectName f)))
  ∧ p !! "analysis_description"
    = Some (JStr (trim (projectDesc f)) ||| JUndefined)
  ∧ p !! "pdb_id" = Some (JStr (toUpperCase (trim (pdbId f))))
  ∧ p !! "compound_name"
    = optional (nonempty (trim (compoundName f)))
        (JStr (trim (compoundName f)))
  ∧ p !! "cid"
    = optional (nonempty (trim (cid f))) (JNum (parseInt10 (trim (cid f))))
  ∧ p !! "docking_results" = parsed_field (trim (dockingJson f))
  ∧ p !! "swissdock_results" = parsed_field (trim (swissdockJson f))
  ∧ p !! "pymol_data" = parsed_field (trim (pymolJson f)).
Proof.
  unfold buildPayload, rbind.
  destruct (set_parsed (trim (dockingJson f)) _ _) as [p1|] eqn:H1; [|done].
  destruct (set_parsed (trim (swissdockJson f)) _ _) as [p2|] eqn:H2; [|done].
  intros H3.
  apply set_parsed_Ok in H1 as [_ H1], H2 as [_ H2], H3 as [_ H3].
  repeat split;
    rewrite H3, ?H2, ?H1, ?set_if_lookup; simpl;
    rewrite ?H2, ?H1, ?set_if_lookup; simpl;
    rewrite ?H1, ?set_if_lookup; simpl;
    rewrite ?set_if_lookup; simpl; unfold optional;
    repeat (case_decide; try done);
    repeat (match goal with |- context [parsed_field ?r] =>
              destruct (parsed_field r) end; try done);
    simplify_map_eq; done.
Qed.

(** After validation the build step does not throw. *)
Lemma buildPayload_validated (f : Form) :
  validate f = [] → ∃ p, buildPayload f = Ok p.
Proof.
  intros Hv. apply validate_nil in Hv as (_ & _ & _ & _ & Hjson).
  unfold buildPayload, rbind.
  destruct (set_parsed_validated (trim (dockingJson f)) "docking_results"
              (set_if (nonempty (trim (cid f))) "cid"
                 (JNum (parseInt10 (trim (cid f))))
                 (set_if (nonempty (trim (compoundName f))) "compound_name"
                    (JStr (trim (compoundName f)))
                    (<["pdb_id" := JStr (toUpperCase (trim (pdbId f)))]>
                     (<["analysis_description" :=
                          JStr (trim (projectDesc f)) ||| JUndefined]>
                      (<["analysis_name" := JStr (trim (projectName f))]> ∅))))))
    as [p1 ->].
  { apply (Hjson "dockingJson"). unfold json_keys. set_solver. }
  destruct (set_parsed_validated (trim (swissdockJson f)) "swissdock_results" p1)
    as [p2 ->].
  { apply (Hjson "swissdockJson"). unfold json_keys. set_solver. }
  apply set_parsed_validated.
  apply (Hjson "pymolJson"). unfold json_keys. set_solver.
Qed.

End Payload.

(* ------------------------------------------------------------------ *)
(** ** Claims on validation and payload *)

Definition has_key (k : string) (p : Payload) : bool :=
  bool_decide (is_Some (p !! k)).

(** The compound identifier appears under exactly one of its two keys. *)
Definition exactly_one_identifier (p : Payload) : Prop :=
  xorb (has_key "compound_name" p) (has_key "cid" p) = true.

Definition numeric_only (s : jsstring) : bool := forallb isDigit s.

Lemma request_body_lookup (p : Payload) (k : string) :
  request_body p !! k
  = match p !! k with
    | Some JUndefined | None => None
    | Some (JNum NaN) | Some (JNum (Inf _)) => Some JNull
    | Some (JNum NegZero) => Some (JNum (Dec 0 0))
    | Some v => Some v
    end.
Proof.
  unfold request_body. rewrite lookup_omap.
  destruct (p !! k) as [[| | |[| | |]| | |]|]; reflexivity.
Qed.

Lemma has_key_true (k : string) (p : Payload) :
  has_key k p = true ↔ is_Some (p !! k).
Proof. unfold has_key. apply bool_decide_eq_true. Qed.

Example both_form_valid : validate both_form = [].
Proof. vm_compute. reflexivity. Qed.

(** C8.  When both the compound name and the compound identifier are
    non-blank, [validate] reports no compound error; the compound error is
    reported exactly when both fields are blank after trimming. *)
Theorem validate_compound_inclusive_or {E : Engine} (f : Form) :
  (Msg.compound_required ∈ validate f
   ↔ trim (compoundName f) = [] ∧ trim (cid f) = [])
  ∧ (trim (compoundName f) ≠ [] ∧ trim (cid f) ≠ []
     → Msg.compound_required ∉ validate f).
Proof.
  assert (Hiff : Msg.compound_required ∈ validate f
                 ↔ trim (compoundName f) = [] ∧ trim (cid f) = []).
  { rewrite validate_elem, <- !nonempty_false. split.
    - intros [[_ Heq]|[(? & ? & _)|[[_ Heq]|[[_ Heq]|(key & Hkey & Hin)]]]];
        try (vm_compute in Heq; discriminate); [done|].
      by apply compound_required_not_json in Hin.
    - intros [? ?]. right; left. done. }
  split; [exact Hiff|].
  intros [Hname _] Hin. apply Hiff in Hin as [? _]. done.
Qed.

(** C1, as stated, fails: with both fields filled in, both keys are set. *)
Lemma both_identifiers_sent :
  nonempty (trim (compoundName both_form)) = true
  ∧ nonempty (trim (cid both_form)) = true
  ∧ ∃ p, buildPayload both_form = Ok p
         ∧ p !! "compound_name" = Some (JStr (js "ibuprofen"))
         ∧ p !! "cid" = Some (JInt 3672)
         ∧ ¬ exactly_one_identifier p
         ∧ ¬ exactly_one_identifier (request_body p).
Proof.
  split; [reflexivity|]. split; [reflexivity|].
  destruct (buildPayload both_form) as [p|] eqn:Hp;
    [|vm_compute in Hp; discriminate].
  exists p. split; [reflexivity|].
  pose proof (buildPayload_lookup _ _ Hp) as (_ & _ & _ & Hn & Hc & _).
  change (p !! "compound_name" = Some (JStr (js "ibuprofen"))) in Hn.
  change (p !! "cid" = Some (JInt 3672)) in Hc.
  unfold exactly_one_identifier, has_key.
  rewrite !request_body_lookup, Hn, Hc; simpl.
  repeat split; try done;
    rewrite !bool_decide_eq_true_2 by eauto; simpl; discriminate.
Qed.

(** C1 (amended).  Each identifier key is set exactly when its own field is
    non-blank after trimming, in the object and in the JSON body alike; so
    a form with both fields non-blank yields a payload with both keys. *)
Theorem buildPayload_identifier_keys {E : Engine} (f : Form) (p : Payload) :
  buildPayload f = Ok p →
  (has_key "compound_name" p = nonempty (trim (compoundName f)))
  ∧ (has_key "cid" p = nonempty (trim (cid f)))
  ∧ (has_key "compound_name" (request_body p) = nonempty (trim (compoundName f)))
  ∧ (has_key "cid" (request_body p) = nonempty (trim (cid f)))
  ∧ (nonempty (trim (compoundName f)) = true →
     nonempty (trim (cid f)) = true →
     p !! "compound_name" = Some (JStr (trim (compoundName f)))
     ∧ p !! "cid" = Some (JNum (parseInt10 (trim (cid f))))).
Proof.
  intros Hp.
  pose proof (buildPayload_lookup _ _ Hp) as (_ & _ & _ & Hn & Hc & _).
  unfold has_key. rewrite !request_body_lookup, Hn, Hc. unfold optional.
  destruct (nonempty (trim (compoundName f))), (nonempty (trim (cid f)));
    try destruct (parseInt10 _);
    repeat split; try done;
    try (apply bool_decide_eq_true_2; eauto);
    try (apply bool_decide_eq_false_2; intros [? ?]; done).
Qed.

Lemma buildPayload_identifier_keys_witness :
  ∃ p, buildPayload both_form = Ok p
       ∧ has_key "compound_name" p = true ∧ has_key "cid" p = true.
Proof.
  destruct (buildPayload both_form) as [p|] eqn:Hp;
    [|vm_compute in Hp; discriminate].
  exists p. split; [reflexivity|].
  destruct (buildPayload_identifier_keys both_form p Hp) as (H1 & H2 & _).
  split; [exact H1 | exact H2].
Defined.

Lemma digit_not_space (c : N) : isDigit c = true → isWhiteSpace c = false.
Proof.
  unfold isDigit, isWhiteSpace. rewrite andb_true_iff, !N.leb_le. intros [? ?].
  rewrite !(proj2 (N.eqb_neq c _)) by lia.
  rewrite (proj2 (N.leb_gt 8192 c)) by lia. reflexivity.
Qed.

Lemma digit_not_sign (c : N) :
  isDigit c = true → (c =? Ch.minus)%N = false ∧ (c =? Ch.plus)%N = false.
Proof.
  unfold isDigit, Ch.minus, Ch.plus. rewrite andb_true_iff, !N.leb_le.
  intros [? ?]. rewrite !N.eqb_neq. lia.
Qed.

Lemma take_while_all (p : N → bool) (s : jsstring) :
  forallb p s = true → take_while p s = s.
Proof.
  induction s as [|c s IH]; simpl; [done|].
  rewrite andb_true_iff. intros [-> Hs]. by rewrite IH.
Qed.

(* ------------------------------------------------------------------ *)
(** ** Rounding to a double *)

Section Rounding.
Local Open Scope Z_scope.

(** The parts of a rounding: [n = q * 2^e + r] with a 53-bit [q]. *)
Lemma to_double_parts (n : Z) :
  0 < Z.log2 n - 52 →
  let e := Z.log2 n - 52 in
  0 < 2 ^ e ∧ n = (n / 2 ^ e) * 2 ^ e + n mod 2 ^ e
  ∧ 0 ≤ n mod 2 ^ e < 2 ^ e
  ∧ 2 ^ 52 ≤ n / 2 ^ e < 2 ^ 53.
Proof.
  intros He e. subst e.
  assert (Hn : 0 < n).
  { destruct (Z.lt_ge_cases 0 n) as [|Hle]; [done|].
    rewrite (Z.log2_nonpos n Hle) in He. lia. }
  pose proof (Z.log2_spec n Hn) as [Hlo Hhi].
  set (e := Z.log2 n - 52) in *.
  assert (HE : 0 < 2 ^ e) by (apply Z.pow_pos_nonneg; lia).
  assert (Hsplit : 2 ^ Z.log2 n = 2 ^ 52 * 2 ^ e).
  { rewrite <- Z.pow_add_r by lia. f_equal. lia. }
  assert (Hsplit' : 2 ^ Z.succ (Z.log2 n) = 2 ^ 53 * 2 ^ e).
  { rewrite <- Z.pow_add_r by lia. f_equal. lia. }
  split; [done|]. split.
  { rewrite Z.mul_comm. apply Z.div_mod. lia. }
  split; [by apply Z.mod_pos_bound|].
  split.
  - apply Z.div_le_lower_bound; [done|]. lia.
  - apply Z.div_lt_upper_bound; [done|]. lia.
Qed.

Lemma to_double_exact (n : Z) : 0 ≤ n ≤ 2 ^ 53 → to_double n = Some n.
Proof.
  intros [Hlo Hhi]. unfold to_double.
  destruct (Z.leb_spec (Z.log2 n - 52) 0) as [|He]; [done|].
  destruct (to_double_parts n He) as (HE & Hn & Hr & Hq).
  assert (n = 2 ^ 53) as ->.
  { assert (2 ^ 52 * 2 ^ (Z.log2 n - 52) ≤ n) by nia.
    assert (2 ^ 1 ≤ 2 ^ (Z.log2 n - 52)) by (apply Z.pow_le_mono_r; lia).
    lia. }
  reflexivity.
Qed.

Lemma to_double_near (n v : Z) :
  0 < n → to_double n = Some v →
  2 * Z.abs (v - n) ≤ 2 ^ (Z.log2 n - 52)
  ∧ ∃ q, v = q * 2 ^ Z.max 0 (Z.log2 n - 52) ∧ 0 < q ≤ 2 ^ 53
         ∧ (v ≠ n → 2 * Z.abs (v - n) = 2 ^ (Z.log2 n - 52) →
            Z.even q = true).
Proof.
  intros Hpos. unfold to_double.
  destruct (Z.leb_spec (Z.log2 n - 52) 0) as [He|He].
  - intros [= <-]. split.
    + rewrite Z.sub_diag. simpl. apply Z.pow_nonneg. lia.
    + exists n. rewrite Z.max_l by lia. split; [lia|]. split; [|done].
      split; [done|].
      pose proof (Z.log2_spec n Hpos) as [_ Hhi].
      assert (2 ^ Z.succ (Z.log2 n) ≤ 2 ^ 53) by (apply Z.pow_le_mono_r; lia).
      lia.
  - destruct (to_double_parts n He) as (HE & Hn & Hr & Hq).
    rewrite Z.max_r by lia.
    set (E := 2 ^ (Z.log2 n - 52)) in *.
    set (q := n / E) in *. set (r := n mod E) in *.
    assert (Hodd : Z.even q = false → Z.even (q + 1) = true).
    { intros Hq'. by rewrite Z.add_1_r, Z.even_succ, <- Z.negb_even, Hq'. }
    destruct (Z.ltb_spec (2 * r) E) as [H1|H1];
      [|destruct (Z.ltb_spec E (2 * r)) as [H2|H2];
        [|destruct (Z.even q) eqn:Hev]];
      match goal with |- context [(?a <? ?b)] => destruct (Z.ltb_spec a b) end;
      intros [= <-];
      (split; [nia | eexists; split; [reflexivity | split; [lia|]]]);
      intros _ Htie; first [done | by apply Hodd | exfalso; nia].
Qed.

Lemma to_double_overflow (n : Z) : 2 ^ 1024 ≤ n → to_double n = None.
Proof.
  intros Hbig. unfold to_double.
  assert (Hlog : 1024 ≤ Z.log2 n).
  { change 1024 with (Z.log2 (2 ^ 1024)). by apply Z.log2_le_mono. }
  destruct (Z.leb_spec (Z.log2 n - 52) 0) as [|He]; [lia|].
  destruct (to_double_parts n He) as (HE & Hn & Hr & Hq).
  assert (Hsplit : 2 ^ 1024 ≤ 2 ^ 52 * 2 ^ (Z.log2 n - 52)).
  { rewrite <- Z.pow_add_r by lia. apply Z.pow_le_mono_r; lia. }
  set (E := 2 ^ (Z.log2 n - 52)) in *.
  set (q := n / E) in *. set (r := n mod E) in *.
  destruct (Z.ltb_spec (2 * r) E) as [H1|H1];
    [|destruct (Z.ltb_spec E (2 * r)) as [H2|H2];
      [|destruct (Z.even q)]];
    match goal with |- context [(?a <? ?b)] => destruct (Z.ltb_spec a b) end;
    try done; nia.
Qed.

Lemma digits_value_nonneg (ds : jsstring) :
  forallb isDigit ds = true → 0 ≤ digits_value ds.
Proof.
  unfold digits_value.
  assert (Hacc : ∀ acc, 0 ≤ acc → forallb isDigit ds = true →
            0 ≤ fold_left (λ acc d, acc * 10 + (Z.of_N d - 48)) ds acc).
  { induction ds as [|d ds IH]; intros acc Hacc; simpl; [done|].
    rewrite andb_true_iff. intros [Hd Hds]. apply IH; [|done].
    unfold isDigit in Hd. apply andb_true_iff in Hd as [Hd _].
    apply N.leb_le in Hd. lia. }
  by apply Hacc.
Qed.

End Rounding.

(** On a non-empty run of digits [parseInt] reads the whole text. *)
Lemma parseInt10_numeric (s : jsstring) :
  nonempty s = true → numeric_only s = true →
  parseInt10 s
  = if (digits_value s =? 0)%Z then Dec 0 0
    else match to_double (digits_value s) with
         | Some v => Dec v 0
         | None => Inf false
         end.
Proof.
  destruct s as [|c r]; [done|]. intros _ Hnum.
  pose proof Hnum as Hall. unfold numeric_only in Hnum. simpl in Hnum.
  apply andb_true_iff in Hnum as [Hc _].
  unfold parseInt10, trimStart. simpl drop_while.
  rewrite (digit_not_space c Hc).
  destruct (digit_not_sign c Hc) as [-> ->].
  rewrite (take_while_all isDigit (c :: r) Hall). reflexivity.
Qed.

(** What [parseInt] can return, and which of it is no integer. *)
Lemma parseInt10_cases (s : jsstring) :
  (parseInt10 s = NaN ∨ (∃ neg, parseInt10 s = Inf neg)
   ∨ parseInt10 s = NegZero ∨ ∃ z, parseInt10 s = Dec z 0)
  ∧ (is_integer (parseInt10 s) = false
     ↔ parseInt10 s = NaN ∨ ∃ neg, parseInt10 s = Inf neg).
Proof.
  unfold parseInt10.
  destruct (match trimStart s with [] => _ | _ :: _ => _ end) as [neg s2].
  destruct (nonempty _); [|split; [eauto|split; eauto]].
  destruct (_ =? 0)%Z.
  - destruct neg; (split; [eauto 6|]); simpl;
      (split; [done|intros [?|[? ?]]; done]).
  - destruct (to_double _) as [v|]; (split; [eauto 6|]); simpl.
    + split; [done|intros [?|[? ?]]; done].
    + split; eauto.
Qed.


(** Long runs of digits: beyond 2^53 the stored number is a neighbour of
    the integer written, from 2^1024 on it is Infinity; a signed zero
    keeps its sign. *)
Lemma parseInt10_rounds :
  parseInt10 (js "9007199254740993") = Dec 9007199254740992 0
  ∧ parseInt10 (js "9007199254740995") = Dec 9007199254740996 0
  ∧ parseInt10 (js "1" ++ repeat 48%N 309) = Inf false
  ∧ parseInt10 (js "-0") = NegZero
  ∧ parseInt10 (js " +42abc") = Dec 42 0.
Proof. vm_compute. repeat split. Qed.



(** The optional payload keys and the form field each comes from. *)
Definition optional_fields : list (string * (Form → jsstring)) :=
  [ ("analysis_description", projectDesc);
    ("compound_name", compoundName);
    ("cid", cid);
    ("docking_results", dockingJson);
    ("swissdock_results", swissdockJson);
    ("pymol_data", pymolJson) ].

Definition aux_fields : list (string * (Form → jsstring)) :=
  [ ("docking_results", dockingJson);
    ("swissdock_results", swissdockJson);
    ("pymol_data", pymolJson) ].

(** C9, as stated, fails for the description: the object the build step
    returns always has the property [analysis_description]; for a blank
    description it is bound to undefined, not absent. *)
Lemma blank_description_key_present :
  validate both_form = []
  ∧ nonempty (trim (projectDesc both_form)) = false
  ∧ ∃ p, buildPayload both_form = Ok p
         ∧ has_key "analysis_description" p = true
         ∧ p !! "analysis_description" = Some JUndefined
         ∧ has_key "swissdock_results" p = false.
Proof.
  split; [exact both_form_valid|]. split; [reflexivity|].
  destruct (buildPayload_validated both_form both_form_valid) as [p Hp].
  exists p. split; [exact Hp|].
  pose proof (buildPayload_lookup _ _ Hp)
    as (_ & Hdesc & _ & _ & _ & _ & Hswiss & _).
  change (p !! "analysis_description" = Some JUndefined) in Hdesc.
  change (p !! "swissdock_results" = None) in Hswiss.
  unfold has_key. rewrite Hdesc, Hswiss. split; [|split; [done|]].
  - apply bool_decide_eq_true_2. eauto.
  - apply bool_decide_eq_false_2. by intros [? ?].
Qed.

(** C9 (amended).  For a form that passed validation the build step
    succeeds.  The description is always a property of the object it
    returns, bound to the trimmed text or, when that is blank, to
    undefined; each of the other optional keys is absent when its field is
    blank.  No blank optional field is bound to null, and none contributes
    a key to the JSON body.  A non-blank auxiliary JSON field is stored as
    the value JSON.parse gives for its trimmed text. *)
Theorem buildPayload_optional_keys {E : Engine} (f : Form) :
  validate f = [] →
  ∃ p, buildPayload f = Ok p
       ∧ p !! "analysis_description"
         = Some (if nonempty (trim (projectDesc f))
                 then JStr (trim (projectDesc f)) else JUndefined)
       ∧ (∀ k src, (k, src) ∈ optional_fields →
            k ≠ "analysis_description" →
            nonempty (trim (src f)) = false → p !! k = None)
       ∧ (∀ k src, (k, src) ∈ optional_fields →
            nonempty (trim (src f)) = false →
            request_body p !! k = None ∧ p !! k ≠ Some JNull)
       ∧ (∀ k src, (k, src) ∈ aux_fields →
            nonempty (trim (src f)) = true →
            ∃ v, JSON_parse (trim (src f)) = Some v ∧ p !! k = Some v).
Proof.
  intros Hv. destruct (buildPayload_validated f Hv) as [p Hp].
  exists p. split; [done|].
  pose proof (buildPayload_lookup _ _ Hp)
    as (_ & Hdesc & _ & Hname & Hcid & Hdock & Hswiss & Hpymol).
  apply validate_nil in Hv as (_ & _ & _ & _ & Hjson).
  split; [exact Hdesc|]. split; [|split].
  - intros k src Hin Hk Hblank. unfold optional_fields in Hin.
    rewrite !elem_of_cons, elem_of_nil in Hin.
    destruct Hin as [[= -> ->]|[[= -> ->]|[[= -> ->]|[[= -> ->]|[[= -> ->]|
                     [[= -> ->]|[]]]]]]].
    + done.
    + rewrite Hname, Hblank. done.
    + rewrite Hcid, Hblank. done.
    + rewrite Hdock. unfold parsed_field. rewrite Hblank. done.
    + rewrite Hswiss. unfold parsed_field. rewrite Hblank. done.
    + rewrite Hpymol. unfold parsed_field. rewrite Hblank. done.
  - intros k src Hin Hblank. unfold optional_fields in Hin.
    rewrite !elem_of_cons, elem_of_nil in Hin. rewrite request_body_lookup.
    destruct Hin as [[= -> ->]|[[= -> ->]|[[= -> ->]|[[= -> ->]|[[= -> ->]|
                     [[= -> ->]|[]]]]]]].
    + rewrite Hdesc. apply nonempty_false in Hblank as ->. done.
    + rewrite Hname, Hblank. done.
    + rewrite Hcid, Hblank. done.
    + rewrite Hdock. unfold parsed_field. rewrite Hblank. done.
    + rewrite Hswiss. unfold parsed_field. rewrite Hblank. done.
    + rewrite Hpymol. unfold parsed_field. rewrite Hblank. done.
  - intros k src Hin Hne. unfold aux_fields in Hin.
    rewrite !elem_of_cons, elem_of_nil in Hin.
    destruct Hin as [[= -> ->]|[[= -> ->]|[[= -> ->]|[]]]].
    + destruct (Hjson "dockingJson") as [v Hparse];
        [unfold json_keys; set_solver | done |].
      exists v. split; [done|].
      rewrite Hdock. unfold parsed_field. rewrite Hne. done.
    + destruct (Hjson "swissdockJson") as [v Hparse];
        [unfold json_keys; set_solver | done |].
      exists v. split; [done|].
      rewrite Hswiss. unfold parsed_field. rewrite Hne. done.
    + destruct (Hjson "pymolJson") as [v Hparse];
        [unfold json_keys; set_solver | done |].
      exists v. split; [done|].
      rewrite Hpymol. unfold parsed_field. rewrite Hne. done.
Qed.

(** With [dockingJson = {"poses":[{"rank":1}]}] the payload carries the
    parsed object, and the blank optional fields of [both_form] leave no
    key in the body. *)
Lemma buildPayload_optional_keys_witness :
  validate both_form = []
  ∧ ∃ p, buildPayload both_form = Ok p
         ∧ p !! "docking_results" = Some docking_example_parsed
         ∧ p !! "analysis_description" = Some JUndefined
         ∧ p !! "swissdock_results" = None
         ∧ request_body p !! "analysis_description" = None
         ∧ request_body p !! "swissdock_results" = None
         ∧ request_body p !! "pymol_data" = None.
Proof.
  split; [exact both_form_valid|].
  destruct (buildPayload_optional_keys both_form both_form_valid)
    as (p & Hp & Hdesc & Habsent & Hblank & Haux).
  exists p. split; [exact Hp|].
  split.
  - destruct (Haux "docking_results" dockingJson) as (v & Hparse & Hv);
      [unfold aux_fields; set_solver | reflexivity |].
    rewrite Hv, <- Hparse. vm_compute. reflexivity.
  - split; [exact Hdesc|]. split.
    + apply (Habsent "swissdock_results" swissdockJson);
        [unfold optional_fields; set_solver | done | reflexivity].
    + repeat split.
      * apply (Hblank "analysis_description" projectDesc);
          [unfold optional_fields; set_solver | reflexivity].
      * apply (Hblank "swissdock_results" swissdockJson);
          [unfold optional_fields; set_solver | reflexivity].
      * apply (Hblank "pymol_data" pymolJson);
          [unfold optional_fields; set_solver | reflexivity].
Defined.

(* ------------------------------------------------------------------ *)
(** ** A freshly loaded page *)

Definition fresh_view : View :=
  {| btnRun_disabled := false; statusLabel := js "Ready";
     statusDot := js "status-dot"; display := ∅; resultMeta := [];
     resultBody := BodyEmpty; errorMsg := []; step_class := ∅;
     step_text := ∅; copy_text := js "Copy"; copy_color := [];
     missing := [] |}.

Definition page (f : Form) : World :=
  {| form := f; view := fresh_view; lastReport := JStr [];
     loadingTimer := None; now := 0; timers := []; next_id := 0;
     cells := []; suspended := []; effects := [] |}.

(* ------------------------------------------------------------------ *)
(** ** What the animation and the timers leave alone *)

(** The part of the world that only [runAnalysis], the actions and the
    user touch. *)
Record Core := {
  c_form : Form;
  c_disabled : bool;
  c_display : gmap string Display;
  c_errorMsg : jsstring;
  c_lastReport : JsVal;
  c_suspended : list Payload;
  c_effects : list Effect;
}.

Definition core (w : World) : Core :=
  {| c_form := form w; c_disabled := btnRun_disabled (view w);
     c_display := display (view w); c_errorMsg := errorMsg (view w);
     c_lastReport := lastReport w; c_suspended := suspended w;
     c_effects := effects w |}.

Lemma core_set_step (i : nat) (c : StepClass) (w : World) :
  core (set_step i c w) = core w.
Proof. unfold set_step. destruct (loadingMessages !! i); reflexivity. Qed.

Lemma core_advance (cell : nat) (w : World) : core (advance cell w) = core w.
Proof.
  unfold advance.
  destruct (0 <? _), (_ <? length loadingMessages);
    change (core (set_cells ?cs ?w')) with (core w');
    rewrite ?core_set_step; reflexivity.
Qed.

Lemma core_interval_tick (cell : nat) (w : World) :
  core (interval_tick cell w) = core w.
Proof. unfold interval_tick. destruct (loadingMessages !! _); reflexivity. Qed.

Lemma core_run_callback (cb : Callback) (w : World) :
  core (run_callback cb w) = core w.
Proof.
  destruct cb; simpl;
    [apply core_advance | apply core_interval_tick | reflexivity].
Qed.

Lemma core_fire (t : Timer) (w : World) : core (fire t w) = core w.
Proof.
  unfold fire.
  destruct (t_period t);
    change (core (set_timers ?ts ?w')) with (core w');
    rewrite core_run_callback; reflexivity.
Qed.

Lemma core_run_timers (fuel : nat) (until : N) (w : World) :
  core (run_timers fuel until w) = core w.
Proof.
  revert w. induction fuel as [|fuel IH]; intros w; simpl; [done|].
  destruct (next_due until (timers w)); [|done].
  by rewrite IH, core_fire.
Qed.

Lemma core_elapse (fuel : nat) (dt : N) (w : World) :
  core (elapse fuel dt w) = core w.
Proof.
  unfold elapse. change (core (set_now ?t ?w')) with (core w').
  apply core_run_timers.
Qed.

Lemma core_stopLoadingAnimation (w : World) :
  core (stopLoadingAnimation w) = core w.
Proof.
  unfold stopLoadingAnimation, clearInterval.
  destruct (loadingTimer w); reflexivity.
Qed.

Lemma core_startLoadingAnimation (w : World) :
  core (startLoadingAnimation w) = core w.
Proof.
  unfold startLoadingAnimation.
  destruct (setInterval _ _ _) as [h w'] eqn:Hreg.
  change (core (set_loadingTimer ?t ?w')) with (core w').
  unfold setInterval, register_timer in Hreg. injection Hreg as _ <-.
  change (core (set_next_id ?n (set_timers ?ts ?w'))) with (core w').
  rewrite core_advance. reflexivity.
Qed.

(** Projections of [core], for rewriting. *)
Lemma core_eq (w w' : World) :
  core w = core w' →
  form w = form w' ∧ btnRun_disabled (view w) = btnRun_disabled (view w')
  ∧ display (view w) = display (view w')
  ∧ errorMsg (view w) = errorMsg (view w')
  ∧ lastReport w = lastReport w' ∧ suspended w = suspended w'
  ∧ effects w = effects w'.
Proof. unfold core. intros [= -> -> -> -> -> -> ->]. done. Qed.

Lemma runState_core (w w' : World) : core w = core w' → runState w = runState w'.
Proof.
  intros (_ & _ & Hd & He & Hr & _)%core_eq.
  unfold runState, shown. by rewrite Hd, He, Hr.
Qed.

(* ------------------------------------------------------------------ *)
(** ** Statements that keep a component of the world *)

Definition keeps {A B} (π : World → B) (m : M A) : Prop :=
  ∀ w, π (snd (m w)) = π w.

Section Keeps.
Context {B : Type} (π : World → B).

Lemma keeps_ret {A} (a : A) : keeps π (mret a).
Proof. intros w. reflexivity. Qed.

Lemma keeps_throw {A} (e : JsError) : keeps π (throw e : M A).
Proof. intros w. reflexivity. Qed.

Lemma keeps_act (g : World → World) :
  (∀ w, π (g w) = π w) → keeps π (act g).
Proof. intros Hg w. apply Hg. Qed.

Lemma keeps_lift {A} (r : Result A) : keeps π (lift r).
Proof. intros w. reflexivity. Qed.

Lemma keeps_on_element (id : string) (msg : jsstring) (g : World → World) :
  (∀ w, π (g w) = π w) → keeps π (on_element id msg g).
Proof.
  intros Hg w. unfold on_element. destruct (bool_decide _); [done|apply Hg].
Qed.

Lemma keeps_bind {A C} (m : M A) (k : A → M C) :
  keeps π m → (∀ a, keeps π (k a)) → keeps π (m ≫= k).
Proof.
  intros Hm Hk w. specialize (Hm w). unfold mbind, M_bind.
  destruct (m w) as [[a|e] w']; simpl in *; [|done].
  by rewrite Hk.
Qed.

Lemma keeps_try_catch_finally (body : M unit) (handler : JsError → M unit)
    (final : World → World) :
  keeps π body → (∀ e, keeps π (handler e)) → (∀ w, π (final w) = π w) →
  keeps π (try_catch_finally body handler final).
Proof.
  intros Hb Hh Hf w. specialize (Hb w). unfold try_catch_finally.
  destruct (body w) as [[[]|e] w1]; simpl in *; rewrite ?Hf; [done|].
  specialize (Hh e w1). destruct (handler e w1) as [r w2]; simpl in *.
  by rewrite Hf, Hh.
Qed.
End Keeps.

Ltac keeps_step :=
  lazymatch goal with
  | |- keeps _ (match ?x with _ => _ end) => destruct x
  | |- keeps _ (mret _) => apply keeps_ret
  | |- keeps _ (throw _) => apply keeps_throw
  | |- keeps _ (_ ≫= _) => apply keeps_bind; [|intros ?]
  | |- keeps _ (act _) => apply keeps_act; intros ?
  | |- keeps _ (lift _) => apply keeps_lift
  | |- keeps _ (on_element _ _ _) => apply keeps_on_element; intros ?
  end.

Section Run.
Context {E : Engine}.

Lemma keeps_member {B} (π : World → B) (v : JsVal) (k : string) :
  keeps π (member v k).
Proof. unfold member. destruct v; repeat keeps_step. Qed.

Lemma suspended_showOnly (id : string) (w : World) :
  suspended (showOnly id w) = suspended w.
Proof. reflexivity. Qed.

Lemma keeps_suspended_renderResult (data : JsVal) (payload : Payload) :
  keeps suspended (renderResult data payload).
Proof.
  unfold renderResult.
  repeat first [apply keeps_member | keeps_step]; reflexivity.
Qed.

Lemma keeps_suspended_try_block (payload : Payload) (o : Outcome) :
  keeps suspended (try_block payload o).
Proof.
  unfold try_block, failure_value, or_else.
  repeat first [apply keeps_member | apply keeps_suspended_renderResult
               | keeps_step];
    try reflexivity;
    apply (proj1 (proj2 (proj2 (proj2 (proj2 (proj2
             (core_eq _ _ (core_stopLoadingAnimation _)))))))).
Qed.

Lemma keeps_suspended_catch_block (e : JsError) :
  keeps suspended (catch_block e).
Proof.
  unfold catch_block. repeat keeps_step; try reflexivity.
  apply (proj1 (proj2 (proj2 (proj2 (proj2 (proj2
           (core_eq _ _ (core_stopLoadingAnimation _)))))))).
Qed.

Lemma suspended_resume (payload : Payload) (o : Outcome) (w : World) :
  suspended (runAnalysis_resume payload o w) = suspended w.
Proof.
  apply (keeps_try_catch_finally suspended);
    [apply keeps_suspended_try_block | apply keeps_suspended_catch_block
    | reflexivity].
Qed.

(** The [finally] block re-enables the control whatever happened. *)
Lemma disabled_resume (payload : Payload) (o : Outcome) (w : World) :
  btnRun_disabled (view (runAnalysis_resume payload o w)) = false.
Proof.
  unfold runAnalysis_resume, try_catch_finally.
  destruct (try_block payload o w) as [[[]|e] w1]; [reflexivity|].
  destruct (catch_block e w1); reflexivity.
Qed.

Lemma resume_unfold (payload : Payload) (o : Outcome) (w : World) :
  runAnalysis_resume payload o w
  = match try_block payload o w with
    | (Ok _, w1) => finally_block w1
    | (Throw e, w1) => finally_block (snd (catch_block e w1))
    end.
Proof.
  unfold runAnalysis_resume, try_catch_finally.
  destruct (try_block payload o w) as [[[]|e] w1]; [reflexivity|].
  destruct (catch_block e w1); reflexivity.
Qed.

(** The text put in [errorMsg] by the [catch] block. *)
Definition shown_message (m : jsstring) : jsstring :=
  if nonempty m then m else unknown_error.

Lemma catch_block_world (e : JsError) (w : World) :
  snd (catch_block e w)
  = emit (EConsoleError (err_message e))
      (setStatus (js "Error") (js "error")
         (showOnly "errorState"
            (map_view (V.set_errorMsg (shown_message (err_message e)))
               (stopLoadingAnimation w)))).
Proof. reflexivity. Qed.

Lemma runState_caught (e : JsError) (w : World) :
  runState (finally_block (snd (catch_block e w)))
  = Failed (shown_message (err_message e)).
Proof.
  rewrite catch_block_world. unfold runState, shown. simpl.
  by simplify_map_eq.
Qed.

Lemma lastReport_caught (e : JsError) (w : World) :
  lastReport (finally_block (snd (catch_block e w))) = lastReport w.
Proof.
  rewrite catch_block_world. simpl.
  apply (core_eq _ _ (core_stopLoadingAnimation w)).
Qed.

(** Neither null nor undefined. *)
Definition has_members (v : JsVal) : bool :=
  match v with
  | JNull | JUndefined => false
  | _ => true
  end.

Lemma member_value (v : JsVal) (k : string) (w : World) :
  has_members v = true → member v k w = (Ok (get_prop v (js k)), w).
Proof. destruct v; try discriminate; reflexivity. Qed.

(** The test [!res.ok || data.status === 'error']. *)
Definition signals_failure (status : N) (data : JsVal) : bool :=
  negb (res_ok status) || is_error_status (get_prop data (js "status")).

(** [data.message || data.error || `HTTP ${res.status}`] as a value. *)
Definition failure_text (status : N) (data : JsVal) : JsVal :=
  get_prop data (js "message") ||| get_prop data (js "error")
  ||| JStr (http_message status).

Lemma failure_text_cases (status : N) (data : JsVal) :
  failure_text status data
  = if truthy (get_prop data (js "message"))
    then get_prop data (js "message")
    else if truthy (get_prop data (js "error"))
         then get_prop data (js "error")
         else JStr (http_message status).
Proof.
  unfold failure_text, js_or.
  destruct (truthy (get_prop data (js "message"))) eqn:Hm; rewrite ?Hm; [done|].
  destruct (truthy (get_prop data (js "error"))) eqn:He; rewrite ?He; done.
Qed.

Lemma try_block_failure (payload : Payload) (status : N) (data : JsVal)
    (w : World) :
  has_members data = true → signals_failure status data = true →
  try_block payload (Responded status data) w
  = (Throw (mkError (ToString (failure_text status data))),
     stopLoadingAnimation w).
Proof.
  intros Hdata Hfail. rewrite failure_text_cases.
  unfold try_block, failure_value, or_else, signals_failure in *.
  unfold mbind, M_bind, act; simpl.
  destruct (res_ok status); simpl in *;
    rewrite ?(member_value data _ _ Hdata); simpl;
    rewrite ?Hfail, ?(member_value data _ _ Hdata); simpl.
  all: destruct (truthy (get_prop data (js "message"))); simpl;
    rewrite ?(member_value data _ _ Hdata); simpl; try reflexivity;
    destruct (truthy (get_prop data (js "error"))); reflexivity.
Qed.

Lemma try_block_rejected (payload : Payload) (o : Outcome) (e : JsError)
    (w : World) :
  (o = FetchFailed e ∨ ∃ status, o = BodyUnreadable status e) →
  try_block payload o w = (Throw e, w).
Proof. intros [->|[status ->]]; reflexivity. Qed.

End Run.

(* ------------------------------------------------------------------ *)
(** ** Claims on the run *)

Definition blank_form : Form :=
  {| projectName := []; projectDesc := []; compoundName := []; cid := [];
     pdbId := js "1EQ"; dockingJson := js "{"; swissdockJson := [];
     pymolJson := []; webhookUrl := [] |}.

(** The body [{status:"error", message:"bad pdb"}]. *)
Definition bad_pdb_body : JsVal :=
  JObj [(js "status", JStr (js "error")); (js "message", JStr (js "bad pdb"))].

Lemma join_contains (sep : jsstring) (parts : list jsstring) (e : jsstring) :
  e ∈ parts → ∃ a b, join sep parts = a ++ e ++ b.
Proof.
  induction parts as [|p rest IH]; [by intros ?%elem_of_nil|].
  intros [->|Hin]%elem_of_cons.
  - destruct rest as [|q rest'].
    + exists [], []. simpl. by rewrite app_nil_r.
    + exists [], (sep ++ join sep (q :: rest')). reflexivity.
  - destruct (IH Hin) as (a & b & Heq).
    destruct rest as [|q rest']; [by apply elem_of_nil in Hin|].
    exists (p ++ sep ++ a), b.
    change (join sep (p :: q :: rest')) with (p ++ sep ++ join sep (q :: rest')).
    rewrite Heq. by rewrite <- !app_assoc.
Qed.

(** C3.  When [validate] reports errors, [runAnalysis] shows one alert
    whose text contains every error, and does nothing else: no request is
    sent, the page (submit control, regions, status) is unchanged, no run
    is suspended and no timer of the loading animation is started. *)
Theorem invalid_form_blocks_run {E : Engine} (w : World) :
  validate (form w) ≠ [] →
  effects (runAnalysis w)
  = effects w ++ [EAlert (alert_text (validate (form w)))]
  ∧ (∀ e, e ∈ validate (form w) →
       ∃ a b, alert_text (validate (form w)) = a ++ e ++ b)
  ∧ (∀ url body, EFetch url body ∈ effects (runAnalysis w) →
       EFetch url body ∈ effects w)
  ∧ view (runAnalysis w) = view w
  ∧ runState (runAnalysis w) = runState w
  ∧ suspended (runAnalysis w) = suspended w
  ∧ timers (runAnalysis w) = timers w
  ∧ loadingTimer (runAnalysis w) = loadingTimer w
  ∧ lastReport (runAnalysis w) = lastReport w.
Proof.
  intros Herr.
  assert (Hrun : runAnalysis w
                 = emit (EAlert (alert_text (validate (form w)))) w).
  { unfold runAnalysis. by rewrite bool_decide_eq_true_2. }
  rewrite Hrun. repeat split.
  - intros e Hin. destruct (join_contains [Ch.LF; Ch.bullet; 32%N] _ e Hin)
      as (a & b & Heq).
    exists (js "Please fix the following:" ++ [Ch.LF; Ch.LF; Ch.bullet; 32%N] ++ a), b.
    unfold alert_text. rewrite Heq. by rewrite <- !app_assoc.
  - intros url body. simpl. rewrite elem_of_app, list_elem_of_singleton.
    intros [?|?]; [done|discriminate].
Qed.

Lemma invalid_form_blocks_run_witness :
  validate (form (page blank_form)) ≠ []
  ∧ effects (runAnalysis (page blank_form))
    = [EAlert (alert_text (validate blank_form))]
  ∧ runState (runAnalysis (page blank_form)) = Idle.
Proof.
  assert (Hne : validate (form (page blank_form)) ≠ [])
    by (vm_compute; discriminate).
  split; [exact Hne|].
  destruct (invalid_form_blocks_run (page blank_form) Hne)
    as (Heff & _ & _ & _ & Hstate & _).
  split; [exact Heff | rewrite Hstate; reflexivity].
Defined.




(* ------------------------------------------------------------------ *)
(** ** The lock *)

(** At most one run is suspended, and while one is the submit control is
    disabled. *)
Definition single_flight (w : World) : Prop :=
  match suspended w with
  | [] => True
  | [_] => btnRun_disabled (view w) = true
  | _ :: _ :: _ => False
  end.

(** The world in which [fetch] is called: after the "Lock UI" statements,
    on a page that has their elements. *)
Definition locked (w : World) : World :=
  startLoadingAnimation
    (setStatus (js "Running" ++ [Ch.ellipsis]) (js "loading")
       (showOnly "loadingState"
          (map_view (V.set_display "outputActions" d_none)
             (map_view (V.set_disabled true) w)))).

Section Lock.
Context {E : Engine}.

Lemma core_locked (w : World) :
  btnRun_disabled (view (locked w)) = true
  ∧ effects (locked w) = effects w
  ∧ suspended (locked w) = suspended w.
Proof.
  unfold locked.
  destruct (core_eq _ _ (core_startLoadingAnimation
    (setStatus (js "Running" ++ [Ch.ellipsis]) (js "loading")
       (showOnly "loadingState"
          (map_view (V.set_display "outputActions" d_none)
             (map_view (V.set_disabled true) w))))))
    as (_ & -> & _ & _ & _ & -> & ->).
  done.
Qed.

Lemma suspended_emit (e : Effect) (w : World) :
  suspended (emit e w) = suspended w.
Proof. reflexivity. Qed.

Lemma on_element_step {A} (id : string) (msg : jsstring) (g : World → World)
    (k : M A) (w : World) :
  bool_decide (id ∈ missing (view w)) = false →
  (on_element id msg g ≫= (λ _, k)) w = k (g w).
Proof. intros Hid. unfold mbind, M_bind, on_element. by rewrite Hid. Qed.

Lemma bind_assoc {A B C} (m : M A) (f : A → M B) (g : B → M C) (w : World) :
  ((m ≫= f) ≫= g) w = (m ≫= (λ a, f a ≫= g)) w.
Proof. unfold mbind, M_bind. by destruct (m w) as [[a|e] w']. Qed.

Lemma bind_ret {A B} (a : A) (f : A → M B) (w : World) :
  (mret a ≫= f) w = f a w.
Proof. reflexivity. Qed.

Lemma lock_ready_elem (w : World) (id : string) :
  lock_ready w = true → id ∈ lock_elements →
  bool_decide (id ∈ missing (view w)) = false.
Proof.
  unfold lock_ready. rewrite forallb_forall. intros Hall Hin.
  apply list_elem_of_In, Hall, negb_true_iff in Hin. exact Hin.
Qed.

(** On a page that has the elements, the lock statements all complete. *)
Lemma lock_ui_ready (w : World) :
  lock_ready w = true → lock_ui w = (Ok tt, locked w).
Proof.
  intros Hready.
  assert (Hin : ∀ id, id ∈ lock_elements →
            ∀ w', missing (view w') = missing (view w) →
            bool_decide (id ∈ missing (view w')) = false).
  { intros id Hel w' ->. by apply lock_ready_elem. }
  unfold lock_ui, showOnly_on, setStatus_on, startLoadingAnimation_on.
  unfold regions, loadingMessages. cbn [foldr m_id m_label].
  repeat first
    [ rewrite on_element_step
        by (apply Hin; [vm_compute; set_solver | reflexivity])
    | rewrite bind_assoc
    | rewrite bind_ret ].
  reflexivity.
Qed.

Lemma on_element_inv {A} (id : string) (msg : jsstring) (g : World → World)
    (k : M A) (w : World) (a : A) (w' : World) :
  (on_element id msg g ≫= (λ _, k)) w = (Ok a, w') →
  bool_decide (id ∈ missing (view w)) = false ∧ k (g w) = (Ok a, w').
Proof.
  unfold mbind, M_bind, on_element.
  destruct (bool_decide _); [discriminate|done].
Qed.

(** The lock statements complete only on a page that has the elements. *)
Lemma lock_ui_Ok (w w' : World) (u : unit) :
  lock_ui w = (Ok u, w') → lock_ready w = true.
Proof.
  unfold lock_ui, showOnly_on, setStatus_on, startLoadingAnimation_on.
  unfold regions, loadingMessages. cbn [foldr m_id m_label].
  intros H.
  repeat first
    [ rewrite bind_assoc in H
    | rewrite bind_ret in H
    | let Hid := fresh "Hid" in
      apply on_element_inv in H as [Hid H];
      cbn [missing view map_view V.set_disabled V.set_display V.set_status
           V.set_step_text V.set_step_class] in Hid ].
  unfold lock_ready, lock_elements, regions, loadingMessages.
  cbn [app map m_id forallb].
  repeat match goal with
         | Hid : bool_decide _ = false |- _ => rewrite Hid; clear Hid
         end.
  reflexivity.
Qed.

Lemma core_start_sequence (w : World) : core (start_sequence w) = core w.
Proof.
  unfold start_sequence.
  destruct (setInterval _ _ _) as [h w'] eqn:Hreg.
  change (core (set_loadingTimer ?t ?w')) with (core w').
  unfold setInterval, register_timer in Hreg. injection Hreg as _ <-.
  change (core (set_next_id ?n (set_timers ?ts ?w'))) with (core w').
  rewrite core_advance. reflexivity.
Qed.

(** What no lock statement changes, completed or not. *)
Lemma keeps_lock_ui {B} (π : World → B) :
  (∀ g w, π (map_view g w) = π w) → (∀ w, π (start_sequence w) = π w) →
  keeps π lock_ui.
Proof.
  intros Hview Hstart.
  unfold lock_ui, showOnly_on, setStatus_on, startLoadingAnimation_on.
  unfold regions, loadingMessages. cbn [foldr m_id m_label].
  repeat keeps_step; rewrite ?Hview; first [apply Hview | apply Hstart | done].
Qed.

Lemma suspended_lock_ui (w : World) :
  suspended (snd (lock_ui w)) = suspended w
  ∧ effects (snd (lock_ui w)) = effects w.
Proof.
  split.
  - apply (keeps_lock_ui suspended); [done|].
    intros w0. apply (core_eq _ _ (core_start_sequence w0)).
  - apply (keeps_lock_ui effects); [done|].
    intros w0. apply (core_eq _ _ (core_start_sequence w0)).
Qed.

(** Once the first lock statement has run the control is disabled,
    whether or not the others complete. *)
Lemma disabled_lock_ui (w : World) :
  bool_decide ("btnRun" ∈ missing (view w)) = false →
  btnRun_disabled (view (snd (lock_ui w))) = true.
Proof.
  intros Hbtn. unfold lock_ui. rewrite on_element_step by done.
  match goal with
  | |- btnRun_disabled (view (snd (?rest ?w0))) = true =>
      assert (Hk : keeps (λ x, btnRun_disabled (view x)) rest);
      [|exact (Hk w0)]
  end.
  unfold showOnly_on, setStatus_on, startLoadingAnimation_on.
  unfold regions, loadingMessages. cbn [foldr m_id m_label].
  repeat keeps_step; try reflexivity.
  apply (core_eq _ _ (core_start_sequence _)).
Qed.

Lemma btnRun_present (w : World) :
  lock_ready w = true → bool_decide ("btnRun" ∈ missing (view w)) = false.
Proof. intros Hr. apply lock_ready_elem; [done|]. vm_compute. set_solver. Qed.

(** A run that got past validation: the lock statements, then the
    request, or the rejection when one of them throws. *)
Lemma runAnalysis_started (w : World) :
  validate (form w) = [] →
  ∃ payload,
    buildPayload (form w) = Ok payload
    ∧ runAnalysis w
      = match lock_ui w with
        | (Throw e, w') => emit (ERejected e) w'
        | (Ok _, w') =>
            set_suspended (suspended w' ++ [payload])
              (emit (EFetch (trim (webhookUrl (form w)))
                       (request_body payload)) w')
        end.
Proof.
  intros Hv. destruct (buildPayload_validated _ Hv) as [payload Hp].
  exists payload. split; [done|].
  unfold runAnalysis. rewrite Hv, Hp.
  rewrite bool_decide_eq_false_2 by (intros Hne; by apply Hne).
  destruct (lock_ui w) as [[u|e] w']; reflexivity.
Qed.

Lemma runAnalysis_valid (w : World) :
  validate (form w) = [] → lock_ready w = true →
  ∃ payload,
    buildPayload (form w) = Ok payload
    ∧ runAnalysis w
      = set_suspended (suspended (locked w) ++ [payload])
          (emit (EFetch (trim (webhookUrl (form w))) (request_body payload))
             (locked w)).
Proof.
  intros Hv Hr. destruct (runAnalysis_started w Hv) as (payload & Hp & ->).
  exists payload. split; [done|]. by rewrite (lock_ui_ready w Hr).
Qed.

(** A run whose lock step throws: the control stays disabled, nothing is
    requested and no run is suspended. *)
Lemma runAnalysis_lock_failure (w : World) :
  validate (form w) = [] → lock_ready w = false →
  bool_decide ("btnRun" ∈ missing (view w)) = false →
  btnRun_disabled (view (runAnalysis w)) = true
  ∧ suspended (runAnalysis w) = suspended w
  ∧ ∃ e, effects (runAnalysis w) = effects w ++ [ERejected e].
Proof.
  intros Hv Hr Hbtn. destruct (runAnalysis_started w Hv) as (payload & _ & ->).
  pose proof (disabled_lock_ui w Hbtn) as Hd.
  destruct (suspended_lock_ui w) as [Hs He].
  destruct (lock_ui w) as [[u|e] w'] eqn:Hlock.
  - apply lock_ui_Ok in Hlock. congruence.
  - simpl in *. rewrite He. eauto.
Qed.

Lemma single_flight_same (w w' : World) :
  suspended w' = suspended w →
  btnRun_disabled (view w') = btnRun_disabled (view w) →
  single_flight w → single_flight w'.
Proof. unfold single_flight. by intros -> ->. Qed.

Lemma single_flight_runAnalysis (w : World) :
  suspended w = [] → single_flight (runAnalysis w).
Proof.
  intros Hs. destruct (validate (form w)) as [|e es] eqn:Hv.
  - destruct (runAnalysis_started w Hv) as (payload & _ & ->).
    destruct (suspended_lock_ui w) as [Hs' _].
    destruct (lock_ui w) as [[u|e] w'] eqn:Hlock.
    + pose proof (lock_ui_Ok _ _ _ Hlock) as Hr.
      pose proof (disabled_lock_ui w (btnRun_present w Hr)) as Hd.
      rewrite Hlock in Hd. simpl in *.
      unfold single_flight. simpl. rewrite Hs', Hs. exact Hd.
    + simpl in *. unfold single_flight. simpl. by rewrite Hs', Hs.
  - unfold runAnalysis. rewrite Hv.
    rewrite bool_decide_eq_true_2 by done.
    unfold single_flight.
    change (suspended (emit ?ef ?x)) with (suspended x). by rewrite Hs.
Qed.

Lemma single_flight_handle (ev : Event) (w : World) :
  single_flight w → single_flight (handle ev w).
Proof.
  intros Hw. destruct ev as [f| |o|fuel dt| | | |]; simpl.
  - revert Hw. by apply single_flight_same.
  - unfold click_run. destruct (btnRun_disabled (view w)) eqn:Hd; [done|].
    apply single_flight_runAnalysis.
    unfold single_flight in Hw.
    destruct (suspended w) as [|p [|q rest]]; [done|congruence|done].
  - unfold settle. pose proof Hw as Hw'. unfold single_flight in Hw'.
    destruct (suspended w) as [|p [|q rest]] eqn:Hs; [done| |done].
    unfold single_flight. by rewrite suspended_resume.
  - revert Hw. destruct (core_eq _ _ (core_elapse fuel dt w))
      as (_ & Hd & _ & _ & _ & Hs & _).
    by apply single_flight_same.
  - revert Hw. by apply single_flight_same.
  - revert Hw. unfold copyReport.
    destruct (negb _); by apply single_flight_same.
  - revert Hw. by apply single_flight_same.
  - revert Hw. unfold downloadReport.
    destruct (negb _); by apply single_flight_same.
Qed.

Lemma single_flight_run_events (evs : list Event) (w : World) :
  single_flight w → single_flight (run_events evs w).
Proof.
  revert w. induction evs as [|ev evs IH]; intros w Hw; [done|].
  apply IH, single_flight_handle, Hw.
Qed.

(** With the control disabled and no run suspended, no event enables it. *)
Lemma stuck_handle (ev : Event) (w : World) :
  btnRun_disabled (view w) = true → suspended w = [] →
  btnRun_disabled (view (handle ev w)) = true ∧ suspended (handle ev w) = [].
Proof.
  intros Hd Hs. destruct ev as [f| |o|fuel dt| | | |]; cbn [handle].
  - done.
  - unfold click_run. by rewrite Hd.
  - unfold settle. by rewrite Hs.
  - destruct (core_eq _ _ (core_elapse fuel dt w))
      as (_ & Hd' & _ & _ & _ & Hs' & _).
    by rewrite Hd', Hs'.
  - done.
  - unfold copyReport. by destruct (negb _).
  - done.
  - unfold downloadReport. by destruct (negb _).
Qed.

Lemma stuck_run_events (evs : list Event) (w : World) :
  btnRun_disabled (view w) = true → suspended w = [] →
  btnRun_disabled (view (run_events evs w)) = true.
Proof.
  revert w. induction evs as [|ev evs IH]; intros w Hd Hs; [done|].
  destruct (stuck_handle ev w Hd Hs) as [Hd' Hs']. by apply IH.
Qed.

End Lock.

(** A page without the element [id], otherwise freshly loaded. *)
Definition page_lacking (id : string) (f : Form) : World :=
  map_view (λ v,
    {| btnRun_disabled := btnRun_disabled v; statusLabel := statusLabel v;
       statusDot := statusDot v; display := display v;
       resultMeta := resultMeta v; resultBody := resultBody v;
       errorMsg := errorMsg v; step_class := step_class v;
       step_text := step_text v; copy_text := copy_text v;
       copy_color := copy_color v; missing := [id] |}) (page f).

(** C7, as stated, fails for the lock step: its statements stand before
    the [try], so when one of them throws - here on a page without the
    fourth loading step [ls4], which only [startLoadingAnimation] writes
    to - the control has been disabled and the loading region shown,
    nothing is requested, no timer is registered, no [finally] runs, and
    no later event enables the control again. *)
Lemma lock_failure_leaves_control_disabled :
  let w := handle ClickRun (page_lacking "ls4" both_form) in
  validate both_form = []
  ∧ btnRun_disabled (view w) = true
  ∧ runState w = Running
  ∧ suspended w = []
  ∧ timers w = []
  ∧ effects w = [ERejected (mkError (msg_null_assign (js "className")))]
  ∧ ∀ evs, btnRun_disabled (view (run_events evs w)) = true.
Proof.
  cbv zeta.
  split; [exact both_form_valid|]. split; [by vm_compute|].
  split; [by vm_compute|]. split; [by vm_compute|]. split; [by vm_compute|].
  split; [by vm_compute|].
  intros evs. apply stuck_run_events; by vm_compute.
Qed.

(** C7 (amended).  A run that passes validation on a page that has the
    elements of the lock step disables the submit control before it calls
    [fetch]; however the request then settles (rejection, unreadable body,
    any status and body, an exception while handling the response) the
    [finally] block enables the control again.  The lock statements
    themselves are outside the [try]: when one of them throws after the
    first, the control is left disabled, nothing is requested and no run
    is suspended.  Along every sequence of clicks on the control, inputs,
    timer runs and settlements starting with no run suspended, at most one
    run is suspended at a time and the control is disabled while one is.
    [runAnalysis] itself does not look for a pending run: called again
    it suspends one more. *)
Theorem run_lock {E : Engine} :
  (∀ w, validate (form w) = [] → lock_ready w = true →
     ∃ payload,
       buildPayload (form w) = Ok payload
       ∧ btnRun_disabled (view (locked w)) = true
       ∧ effects (locked w) = effects w
       ∧ runAnalysis w
         = set_suspended (suspended w ++ [payload])
             (emit (EFetch (trim (webhookUrl (form w))) (request_body payload))
                (locked w)))
  ∧ (∀ payload o w,
       btnRun_disabled (view (runAnalysis_resume payload o w)) = false)
  ∧ (∀ w, validate (form w) = [] → lock_ready w = false →
       bool_decide ("btnRun" ∈ missing (view w)) = false →
       btnRun_disabled (view (runAnalysis w)) = true
       ∧ suspended (runAnalysis w) = suspended w
       ∧ ∃ e, effects (runAnalysis w) = effects w ++ [ERejected e])
  ∧ (∀ evs w, suspended w = [] → single_flight (run_events evs w))
  ∧ (∀ w, validate (form w) = [] → lock_ready w = true →
       length (suspended (runAnalysis w)) = S (length (suspended w))).
Proof.
  split; [|split; [|split; [|split]]].
  - intros w Hv Hr.
    destruct (runAnalysis_valid w Hv Hr) as (payload & Hp & Hrun).
    destruct (core_locked w) as (Hd & He & Hs).
    exists payload. rewrite Hrun, Hs. done.
  - intros payload o w. apply disabled_resume.
  - apply runAnalysis_lock_failure.
  - intros evs w Hs. apply single_flight_run_events.
    unfold single_flight. by rewrite Hs.
  - intros w Hv Hr.
    destruct (runAnalysis_valid w Hv Hr) as (payload & _ & ->).
    destruct (core_locked w) as (_ & _ & Hs).
    revert Hs. generalize (locked w). intros l Hs. simpl.
    rewrite Hs, length_app. simpl. lia.
Qed.

Lemma run_lock_witness :
  let evs := [ClickRun; Elapse 10 3000; ClickRun; UserInput blank_form;
              ClickRun] in
  suspended (page both_form) = []
  ∧ single_flight (run_events evs (page both_form))
  ∧ length (suspended (run_events evs (page both_form))) = 1
  ∧ btnRun_disabled
      (view (run_events (evs ++ [Settle (Responded 200 bad_pdb_body)])
               (page both_form))) = false.
Proof.
  split; [reflexivity|].
  split; [apply run_lock; reflexivity|].
  split; vm_compute; reflexivity.
Defined.

(* ------------------------------------------------------------------ *)
(** ** The cached report *)

Section Report.
Context {E : Engine}.

(** A run that fails before the success branch leaves the cached report
    as it was. *)
Lemma early_failure_keeps_report (payload : Payload) (o : Outcome)
    (w : World) :
  match o with
  | FetchFailed _ | BodyUnreadable _ _ => True
  | Responded status data =>
      has_members data = true ∧ signals_failure status data = true
  end →
  lastReport (runAnalysis_resume payload o w) = lastReport w.
Proof.
  intros Ho. rewrite resume_unfold.
  destruct o as [e|status e|status data].
  - rewrite (try_block_rejected payload (FetchFailed e) e w) by auto.
    apply lastReport_caught.
  - rewrite (try_block_rejected payload (BodyUnreadable status e) e w)
      by eauto.
    apply lastReport_caught.
  - destruct Ho as [Hdata Hsig].
    rewrite (try_block_failure _ _ _ _ Hdata Hsig), lastReport_caught.
    apply (core_eq _ _ (core_stopLoadingAnimation w)).
Qed.

End Report.

(** The events of two runs: the first succeeds with a report, the second
    receives a body whose [report] is the number 5. *)
Definition two_runs : list Event :=
  [ ClickRun;
    Settle (Responded 200 (JObj [(js "report", JStr (js "# Title"))]));
    ClickRun;
    Settle (Responded 200 (JObj [(js "report", JInt 5)])) ].

(** C10 fails on the code: when the body of a successful response has a
    truthy [report] that is not a string, the cache is overwritten and the
    renderer then throws, so the run ends in [Failed] with the cache
    changed; a later copy writes the new value. *)
Theorem failed_render_overwrites_report :
  let before := run_events (take 3 two_runs) (page both_form) in
  let after := run_events two_runs (page both_form) in
  lastReport before = JStr (js "# Title")
  ∧ runState after = Failed (js "text.replace is not a function")
  ∧ lastReport after = JInt 5
  ∧ effects (copyReport after) = effects after ++ [EClipboard (js "5")].
Proof. vm_compute. repeat split. Qed.

(* ------------------------------------------------------------------ *)
(** ** The loading animation after [stop] *)

(** A run whose response arrives after 3 seconds, and 3 more seconds. *)
Definition settled_at_3s : list Event :=
  [ ClickRun; Elapse 10 3000;
    Settle (Responded 200 (JObj [(js "report", JStr (js "# Title"))])) ].

(** C2 fails on the code: [stopLoadingAnimation] clears the interval only.
    The timeout that the interval registered at 2.5 s is still pending
    after the stop at 3 s; at 5 s it runs [advance], which completes the
    first stage and activates the second. *)
Theorem stop_leaves_timeout_pending :
  let stopped := run_events settled_at_3s (page both_form) in
  let later := elapse 10 3000 stopped in
  loadingTimer stopped = None
  ∧ runState stopped = Succeeded (JStr (js "# Title"))
  ∧ timers stopped
    = [{| t_id := 1; t_due := 5000; t_period := None; t_cb := CbAdvance 0 |}]
  ∧ step_class (view stopped) !! "ls1" = Some lstep_active
  ∧ step_class (view stopped) !! "ls2" = Some lstep
  ∧ step_class (view later) !! "ls1" = Some lstep_done
  ∧ step_class (view later) !! "ls2" = Some lstep_active
  ∧ timers later = [].
Proof. vm_compute. repeat split. Qed.

(* ------------------------------------------------------------------ *)
(** ** Facts about global replacement *)

(** No position of the scan matches. *)
Fixpoint unmatched (m : Matcher) (bol : bool) (s : jsstring) : Prop :=
  match s with
  | [] => True
  | c :: s' => m bol s = None ∧ unmatched m (isLineTerminator c) s'
  end.

Lemma gsub_unmatched (m : Matcher) (bol : bool) (s : jsstring) :
  unmatched m bol s → gsub m 0 bol s = s.
Proof.
  revert bol. induction s as [|c s IH]; intros bol; simpl; [done|].
  intros [-> Hrest]. by rewrite IH.
Qed.

Lemma gsub_skip_all (m : Matcher) (skip : nat) (bol : bool) (s : jsstring) :
  length s ≤ skip → gsub m skip bol s = [].
Proof.
  revert skip bol. induction s as [|c s IH]; intros skip bol; simpl; [done|].
  destruct skip as [|k]; [lia|]. intros Hk. apply IH. lia.
Qed.

Lemma gsub_one_char (c : N) (rep : jsstring) (bol : bool) (s : jsstring) :
  gsub (one_char c rep) 0 bol s
  = flat_map (λ x, if (x =? c)%N then rep else [x]) s.
Proof.
  revert bol. induction s as [|x s IH]; intros bol; simpl; [done|].
  destruct (x =? c)%N; simpl; by rewrite IH.
Qed.

(** A pattern anchored at the start of a line matches nowhere in a text
    without line terminators, once it fails at the first position. *)
Lemma unmatched_anchored (m : Matcher) (s : jsstring) :
  (∀ t, m false t = None) → forallb dot s = true →
  m true s = None → unmatched m true s.
Proof.
  intros Hm Hdots Hfirst.
  assert (Hin : ∀ t, forallb dot t = true → unmatched m false t).
  { induction t as [|c t IH]; simpl; [done|].
    rewrite andb_true_iff. intros [Hc Ht]. split; [apply Hm|].
    unfold dot in Hc. apply negb_true_iff in Hc as ->. by apply IH. }
  destruct s as [|c s]; simpl in *; [done|].
  apply andb_true_iff in Hdots as [Hc Hs]. split; [done|].
  unfold dot in Hc. apply negb_true_iff in Hc as ->. by apply Hin.
Qed.

(** A pattern that needs a given first character matches nowhere in a
    text without that character. *)
Lemma unmatched_without (m : Matcher) (x : N) (bol : bool) (s : jsstring) :
  (∀ b c t, (c =? x)%N = false → m b (c :: t) = None) →
  forallb (λ c, negb (c =? x)%N) s = true →
  unmatched m bol s.
Proof.
  intros Hm. revert bol. induction s as [|c s IH]; intros bol; simpl; [done|].
  rewrite andb_true_iff, negb_true_iff. intros [Hc Hs].
  split; [by apply Hm | by apply IH].
Qed.

Lemma take_while_stop (p : N → bool) (a : jsstring) (x : N) (r : jsstring) :
  forallb p a = true → p x = false → take_while p (a ++ x :: r) = a.
Proof.
  intros Ha Hx. induction a as [|c a IH]; simpl in *; [by rewrite Hx|].
  apply andb_true_iff in Ha as [-> Ha]. by rewrite IH.
Qed.

Lemma forallb_flat_map (p : N → bool) (g : N → jsstring) (s : jsstring) :
  forallb p (flat_map g s) = forallb (λ x, forallb p (g x)) s.
Proof.
  induction s as [|c s IH]; simpl; [done|]. by rewrite forallb_app, IH.
Qed.

(* ------------------------------------------------------------------ *)
(** ** The renderer on an inline-code span *)

(** Characters that no pass after the escape reacts to inside a line:
    anything but a backtick, an asterisk or a line terminator. *)
Definition plain (c : N) : bool :=
  not_backtick c && negb (c =? Ch.star)%N && dot c.

Definition esc1 (c : N) (rep : jsstring) (x : N) : jsstring :=
  if (x =? c)%N then rep else [x].

Lemma escape_flat_map (text : jsstring) :
  escape text
  = flat_map (esc1 Ch.gt (js "&gt;"))
      (flat_map (esc1 Ch.lt (js "&lt;"))
         (flat_map (esc1 Ch.amp (js "&amp;")) text)).
Proof. unfold escape, replace_all. by rewrite !gsub_one_char. Qed.

Lemma escape_app (a b : jsstring) : escape (a ++ b) = escape a ++ escape b.
Proof. rewrite !escape_flat_map. by rewrite !flat_map_app. Qed.

Lemma esc1_plain (c : N) (rep : jsstring) (s : jsstring) :
  forallb plain rep = true → forallb plain s = true →
  forallb plain (flat_map (esc1 c rep) s) = true.
Proof.
  intros Hrep Hs. rewrite forallb_flat_map.
  induction s as [|x s IH]; simpl in *; [done|].
  apply andb_true_iff in Hs as [Hx Hs]. rewrite IH by done.
  unfold esc1. destruct (x =? c)%N; simpl; [by rewrite Hrep|].
  by rewrite Hx.
Qed.

Lemma escape_plain (s : jsstring) :
  forallb plain s = true → forallb plain (escape s) = true.
Proof.
  intros Hs. rewrite escape_flat_map. repeat apply esc1_plain; done.
Qed.

Lemma esc1_nonempty (c : N) (rep : jsstring) (s : jsstring) :
  nonempty rep = true → nonempty s = true →
  nonempty (flat_map (esc1 c rep) s) = true.
Proof.
  intros Hrep. destruct s as [|x s]; [done|]. intros _. simpl.
  unfold esc1. destruct (x =? c)%N; [|done].
  destruct rep; done.
Qed.

Lemma escape_nonempty (s : jsstring) :
  nonempty s = true → nonempty (escape s) = true.
Proof.
  intros Hs. rewrite escape_flat_map. repeat apply esc1_nonempty; done.
Qed.

Lemma plain_parts (body : jsstring) :
  forallb plain body = true →
  forallb not_backtick body = true
  ∧ forallb (λ c, negb (c =? Ch.star)%N) body = true
  ∧ forallb dot body = true.
Proof.
  induction body as [|c body IH]; simpl; [done|].
  rewrite andb_true_iff. unfold plain at 1. rewrite !andb_true_iff.
  intros [[[-> ->] ->] Hb]. destruct (IH Hb) as (-> & -> & ->). done.
Qed.

Lemma fence_needs_backtick (c : N) (t : jsstring) :
  (c =? Ch.backtick)%N = false → starts_with fence (c :: t) = false.
Proof.
  intros Hc. unfold fence. cbn [starts_with].
  by rewrite (N.eqb_sym Ch.backtick c), Hc.
Qed.

Lemma fence_needs_two (c : N) (t : jsstring) :
  (c =? Ch.backtick)%N = false →
  starts_with fence (Ch.backtick :: c :: t) = false.
Proof.
  intros Hc. unfold fence. cbn [starts_with].
  by rewrite (N.eqb_sym Ch.backtick c), Hc, andb_false_r.
Qed.

Lemma emphasis_needs_star (d : jsstring) (open close : jsstring)
    (b : bool) (c : N) (t : jsstring) :
  (c =? Ch.star)%N = false →
  emphasis (Ch.star :: d) open close b (c :: t) = None.
Proof.
  intros Hc. unfold emphasis. cbn [starts_with].
  by rewrite (N.eqb_sym Ch.star c), Hc.
Qed.

(* ------------------------------------------------------------------ *)
(** ** An inline-code span inside a text *)

Definition differs (x : N) (c : N) : bool := negb (c =? x)%N.

(** Characters of the text around a span that no pass after the escape
    reacts to: anything but a backtick, an asterisk, a hash or a dash. *)
Definition quiet (c : N) : bool :=
  differs Ch.backtick c && differs Ch.star c && differs Ch.hash c
  && differs Ch.dash c.

Lemma quiet_differs (s : jsstring) :
  forallb quiet s = true →
  forallb (differs Ch.backtick) s = true ∧ forallb (differs Ch.star) s = true
  ∧ forallb (differs Ch.hash) s = true ∧ forallb (differs Ch.dash) s = true.
Proof.
  induction s as [|c s IH]; simpl; [done|].
  rewrite andb_true_iff. unfold quiet at 1. rewrite !andb_true_iff.
  intros [[[[-> ->] ->] ->] Hs]. destruct (IH Hs) as (-> & -> & -> & ->). done.
Qed.

Lemma plain_differs (s : jsstring) :
  forallb plain s = true →
  forallb (differs Ch.backtick) s = true ∧ forallb (differs Ch.star) s = true
  ∧ forallb dot s = true.
Proof.
  intros (Hb & Hs & Hd)%plain_parts. done.
Qed.

Lemma esc1_forallb (P : N → bool) (c : N) (rep s : jsstring) :
  forallb P rep = true → forallb P s = true →
  forallb P (flat_map (esc1 c rep) s) = true.
Proof.
  intros Hrep Hs. rewrite forallb_flat_map.
  induction s as [|x s IH]; simpl in *; [done|].
  apply andb_true_iff in Hs as [Hx Hs]. rewrite IH by done.
  unfold esc1. destruct (x =? c)%N; simpl; [by rewrite Hrep|].
  by rewrite Hx.
Qed.

Lemma escape_quiet (s : jsstring) :
  forallb quiet s = true → forallb quiet (escape s) = true.
Proof.
  intros Hs. rewrite escape_flat_map. repeat apply esc1_forallb; done.
Qed.

(** What each pattern needs as its first character. *)
Lemma code_block_needs_backtick (b : bool) (c : N) (t : jsstring) :
  (c =? Ch.backtick)%N = false → code_block b (c :: t) = None.
Proof. intros Hc. unfold code_block. by rewrite fence_needs_backtick. Qed.

Lemma inline_code_needs_backtick (b : bool) (c : N) (t : jsstring) :
  (c =? Ch.backtick)%N = false → inline_code b (c :: t) = None.
Proof. intros Hc. unfold inline_code. by rewrite Hc. Qed.

Lemma header_needs_hash (marks open close : jsstring) (b : bool) (c : N)
    (t : jsstring) :
  (c =? Ch.hash)%N = false →
  header (Ch.hash :: marks) open close b (c :: t) = None.
Proof.
  intros Hc. unfold header. cbn [starts_with].
  by rewrite (N.eqb_sym Ch.hash c), Hc, andb_false_r.
Qed.

Lemma rule_needs_dash (b : bool) (c : N) (t : jsstring) :
  (c =? Ch.dash)%N = false → rule b (c :: t) = None.
Proof.
  intros Hc. unfold rule.
  change (js "---") with [Ch.dash; Ch.dash; Ch.dash]. cbn [starts_with].
  by rewrite (N.eqb_sym Ch.dash c), Hc, andb_false_r.
Qed.

(** No position matches in [a ++ s] when the pattern needs the character
    [x], [a] has none, and no position matches in [s]. *)
Lemma unmatched_app_without (m : Matcher) (x : N) (a s : jsstring) :
  (∀ b c t, (c =? x)%N = false → m b (c :: t) = None) →
  forallb (differs x) a = true →
  (∀ bol, unmatched m bol s) → ∀ bol, unmatched m bol (a ++ s).
Proof.
  intros Hm Ha Hs. induction a as [|c a IH]; intros bol; [apply Hs|].
  simpl in Ha. apply andb_true_iff in Ha as [Hc Ha].
  unfold differs in Hc. apply negb_true_iff in Hc.
  change ((c :: a) ++ s) with (c :: (a ++ s)). cbn [unmatched].
  split; [by apply Hm | by apply IH].
Qed.

Lemma gsub_without (m : Matcher) (x : N) (s : jsstring) :
  (∀ b c t, (c =? x)%N = false → m b (c :: t) = None) →
  forallb (differs x) s = true → replace_all m s = s.
Proof.
  intros Hm Hs. apply gsub_unmatched, (unmatched_without m x); done.
Qed.

Lemma unmatched_differs (m : Matcher) (x : N) (bol : bool) (s : jsstring) :
  (∀ b c t, (c =? x)%N = false → m b (c :: t) = None) →
  forallb (differs x) s = true → unmatched m bol s.
Proof. intros Hm Hs. by apply (unmatched_without m x). Qed.

(** A pattern anchored at the start of a line matches nowhere in a run of
    characters without line terminator, its first position apart, nor in
    what follows on the same line when that has no match. *)
Lemma unmatched_same_line (m : Matcher) (e s : jsstring) (bol : bool) :
  (∀ t, m false t = None) → forallb dot e = true →
  match e with
  | [] => unmatched m bol s
  | _ :: _ => m bol (e ++ s) = None ∧ unmatched m false s
  end →
  unmatched m bol (e ++ s).
Proof.
  intros Hm. revert bol. induction e as [|c e IH]; intros bol He; [done|].
  intros [Hfirst Hs]. simpl in He. apply andb_true_iff in He as [Hc He].
  change ((c :: e) ++ s) with (c :: (e ++ s)). cbn [unmatched].
  split; [done|].
  unfold dot in Hc. apply negb_true_iff in Hc. rewrite Hc.
  apply IH; [done|]. destruct e; [done|]. split; [apply Hm|done].
Qed.

(** The scan copies a prefix in which no position can match. *)
Lemma gsub_prefix (m : Matcher) (x : N) (a s : jsstring) (bol : bool) :
  (∀ b c t, (c =? x)%N = false → m b (c :: t) = None) →
  forallb (differs x) a = true →
  ∃ bol', gsub m 0 bol (a ++ s) = a ++ gsub m 0 bol' s.
Proof.
  intros Hm. revert bol. induction a as [|c a IH]; intros bol Ha.
  - by exists bol.
  - simpl in Ha. apply andb_true_iff in Ha as [Hc Ha].
    unfold differs in Hc. apply negb_true_iff in Hc.
    destruct (IH (isLineTerminator c) Ha) as [bol' Heq]. exists bol'.
    change ((c :: a) ++ s) with (c :: (a ++ s)). cbn [gsub].
    by rewrite (Hm bol c _ Hc), Heq.
Qed.

(** The scan passes over the rest of a match. *)
Lemma gsub_skip (m : Matcher) (a s : jsstring) (bol : bool) :
  ∃ bol', gsub m (length a) bol (a ++ s) = gsub m 0 bol' s.
Proof.
  revert bol. induction a as [|c a IH]; intros bol; [by exists bol|].
  destruct (IH (isLineTerminator c)) as [bol' Heq]. exists bol'.
  exact Heq.
Qed.

(** A span with the text that follows it: the content between the
    backticks and the text up to the next span. *)
Definition span_source (sp : jsstring * jsstring) : jsstring :=
  [Ch.backtick] ++ sp.1 ++ [Ch.backtick] ++ sp.2.

(** The [code] element for a span, with the text that follows it. *)
Definition span_element (sp : jsstring * jsstring) : jsstring :=
  js "<code>" ++ sp.1 ++ js "</code>" ++ sp.2.

(** The content is not empty and plain, the text that follows is quiet. *)
Definition span_ok (sp : jsstring * jsstring) : bool :=
  nonempty sp.1 && forallb plain sp.1 && forallb quiet sp.2.

Definition span_escape (sp : jsstring * jsstring) : jsstring * jsstring :=
  (escape sp.1, escape sp.2).

Lemma span_ok_parts (body post : jsstring) :
  span_ok (body, post) = true →
  nonempty body = true ∧ forallb plain body = true
  ∧ forallb quiet post = true.
Proof. unfold span_ok. rewrite !andb_true_iff. naive_solver. Qed.

Lemma span_escape_ok (sps : list (jsstring * jsstring)) :
  forallb span_ok sps = true → forallb span_ok (map span_escape sps) = true.
Proof.
  induction sps as [|[body post] sps IH]; [done|].
  cbn [forallb map]. rewrite !andb_true_iff.
  intros [(Hne & Hpl & Hq)%span_ok_parts Hrest]. split; [|by apply IH].
  unfold span_ok, span_escape. cbn [fst snd].
  by rewrite escape_nonempty, escape_plain, escape_quiet.
Qed.

Lemma escape_spans (sps : list (jsstring * jsstring)) :
  escape (flat_map span_source sps)
  = flat_map span_source (map span_escape sps).
Proof.
  induction sps as [|[body post] sps IH]; [done|].
  cbn [flat_map map]. unfold span_source at 1 3, span_escape at 1.
  cbn [fst snd]. by rewrite !escape_app, IH.
Qed.

Section Spans.
Variable sps : list (jsstring * jsstring).
Hypothesis spans_ok : forallb span_ok sps = true.

(** A fence needs three backticks in a row; a span has content. *)
Lemma spans_no_fence (sps' : list (jsstring * jsstring)) :
  forallb span_ok sps' = true →
  starts_with fence (Ch.backtick :: flat_map span_source sps') = false.
Proof.
  destruct sps' as [|[body post] rest]; [done|].
  cbn [forallb flat_map]. rewrite andb_true_iff.
  intros [(Hne & Hpl & _)%span_ok_parts _].
  destruct body as [|b0 body]; [done|].
  destruct (plain_differs _ Hpl) as (Hb & _). simpl in Hb.
  apply andb_true_iff in Hb as [Hb0 _]. unfold differs in Hb0.
  apply negb_true_iff in Hb0.
  unfold span_source, fence. cbn [fst snd app starts_with].
  by rewrite (N.eqb_sym Ch.backtick b0), Hb0, !andb_false_r.
Qed.

Lemma spans_code_block (bol : bool) :
  unmatched code_block bol (flat_map span_source sps).
Proof using spans_ok.
  revert bol. induction sps as [|[body post] rest IH]; intros bol; [done|].
  cbn [forallb] in spans_ok. apply andb_true_iff in spans_ok as [Hsp Hrest].
  apply span_ok_parts in Hsp as (Hne & Hpl & Hq).
  destruct (plain_differs _ Hpl) as (Hbody & _).
  destruct (quiet_differs _ Hq) as (Hpost & _).
  cbn [flat_map]. unfold span_source at 1. cbn [fst snd].
  destruct body as [|b0 body']; [done|].
  assert (Hb0 : (b0 =? Ch.backtick)%N = false).
  { simpl in Hbody. apply andb_true_iff in Hbody as [Hb0 _].
    by apply negb_true_iff in Hb0. }
  rewrite <- !app_assoc.
  change ([Ch.backtick] ++ (b0 :: body') ++ [Ch.backtick] ++ post
          ++ flat_map span_source rest)
    with (Ch.backtick :: b0 :: (body' ++ Ch.backtick
                                 :: (post ++ flat_map span_source rest))).
  cbn [unmatched]. split.
  { unfold code_block. by rewrite (fence_needs_two b0 _ Hb0). }
  apply (unmatched_app_without _ Ch.backtick (b0 :: body'));
    [apply code_block_needs_backtick | done |].
  intros bol'. cbn [unmatched]. split.
  - unfold code_block. destruct post as [|q post'].
    + cbn [app]. by rewrite (spans_no_fence rest Hrest).
    + simpl in Hpost. apply andb_true_iff in Hpost as [Hq0 _].
      unfold differs in Hq0. apply negb_true_iff in Hq0.
      cbn [app]. by rewrite (fence_needs_two q _ Hq0).
  - apply (unmatched_app_without _ Ch.backtick);
      [apply code_block_needs_backtick | done |].
    intros bol''. by apply IH.
Qed.

Lemma spans_inline_code (bol : bool) :
  gsub inline_code 0 bol (flat_map span_source sps)
  = flat_map span_element sps.
Proof using spans_ok.
  revert bol. induction sps as [|[body post] rest IH]; intros bol; [done|].
  cbn [forallb] in spans_ok. apply andb_true_iff in spans_ok as [Hsp Hrest].
  apply span_ok_parts in Hsp as (Hne & Hpl & Hq).
  destruct (plain_parts _ Hpl) as (Hbody & _).
  destruct (quiet_differs _ Hq) as (Hpost & _).
  cbn [flat_map]. unfold span_source at 1, span_element at 1. cbn [fst snd].
  set (R := flat_map span_source rest).
  rewrite <- !app_assoc.
  change ([Ch.backtick] ++ body ++ [Ch.backtick] ++ post ++ R)
    with (Ch.backtick :: body ++ Ch.backtick :: (post ++ R)).
  cbn [gsub]. unfold inline_code at 1.
  rewrite (take_while_stop not_backtick body Ch.backtick (post ++ R) Hbody
             eq_refl).
  rewrite N.eqb_refl, Hne, drop_app_length.
  cbn [starts_with andb]. rewrite N.eqb_refl. cbn [andb].
  replace (Init.Nat.pred (length body + 2))
    with (length (body ++ [Ch.backtick]))
    by (rewrite length_app; simpl; lia).
  replace (body ++ Ch.backtick :: (post ++ R))
    with ((body ++ [Ch.backtick]) ++ (post ++ R))
    by (by rewrite <- app_assoc).
  destruct (gsub_skip inline_code (body ++ [Ch.backtick]) (post ++ R)
              (isLineTerminator Ch.backtick)) as [bol' ->].
  destruct (gsub_prefix inline_code Ch.backtick post R bol'
              inline_code_needs_backtick Hpost) as [bol'' ->].
  subst R. rewrite (IH Hrest). by rewrite <- !app_assoc.
Qed.

(** A pattern that needs the character [x] at the start of a line finds
    nothing once the spans are elements: an element starts with [<] and
    has no line terminator. *)
Lemma spans_anchored (m : Matcher) (x : N) (bol : bool) :
  (∀ b c t, (c =? x)%N = false → m b (c :: t) = None) →
  (∀ t, m false t = None) → (Ch.lt =? x)%N = false →
  forallb (λ sp, forallb (differs x) sp.2) sps = true →
  unmatched m bol (flat_map span_element sps).
Proof using spans_ok.
  intros Hneeds Hanch Hlt. revert bol.
  induction sps as [|[body post] rest IH]; intros bol Hx; [done|].
  cbn [forallb] in spans_ok, Hx.
  apply andb_true_iff in spans_ok as [Hsp Hrest].
  apply andb_true_iff in Hx as [Hpost Hx]. cbn [snd] in Hpost.
  apply span_ok_parts in Hsp as (Hne & Hpl & Hq).
  destruct (plain_differs _ Hpl) as (_ & _ & Hdots).
  cbn [flat_map]. unfold span_element at 1. cbn [fst snd].
  set (R := flat_map span_element rest).
  replace ((js "<code>" ++ body ++ js "</code>" ++ post) ++ R)
    with ((js "<code>" ++ body ++ js "</code>") ++ (post ++ R))
    by (by rewrite <- !app_assoc).
  apply unmatched_same_line; [done| |].
  { by rewrite !forallb_app, Hdots. }
  change (js "<code>") with (Ch.lt :: js "code>"). cbn [app].
  split; [by apply Hneeds|].
  apply (unmatched_app_without _ x); [done|done|].
  intros bol'. subst R. by apply IH.
Qed.

Lemma spans_stars :
  forallb (differs Ch.star) (flat_map span_element sps) = true.
Proof using spans_ok.
  induction sps as [|[body post] rest IH]; [done|].
  cbn [forallb] in spans_ok. apply andb_true_iff in spans_ok as [Hsp Hrest].
  apply span_ok_parts in Hsp as (Hne & Hpl & Hq).
  destruct (plain_differs _ Hpl) as (_ & Hbody & _).
  destruct (quiet_differs _ Hq) as (_ & Hpost & _).
  cbn [flat_map]. unfold span_element at 1. cbn [fst snd].
  by rewrite !forallb_app, Hbody, Hpost, (IH Hrest).
Qed.

Lemma spans_quiet_after (x : N) :
  (∀ s, forallb quiet s = true → forallb (differs x) s = true) →
  forallb (λ sp, forallb (differs x) sp.2) sps = true.
Proof using spans_ok.
  intros Hx.
  induction sps as [|[body post] rest IH]; [done|].
  cbn [forallb] in *. apply andb_true_iff in spans_ok as [Hsp Hrest].
  apply span_ok_parts in Hsp as (_ & _ & Hq).
  cbn [snd]. by rewrite (Hx _ Hq), (IH Hrest).
Qed.

Variable pre : jsstring.
Hypothesis pre_quiet : forallb quiet pre = true.

(** After the escape, every span becomes one [code] element and nothing
    else changes. *)
Lemma spans_after_escape :
  later_passes (pass_inline_code (pass_code_block
    (pre ++ flat_map span_source sps)))
  = pre ++ flat_map span_element sps.
Proof using spans_ok pre_quiet.
  destruct (quiet_differs pre pre_quiet) as (Hpre_b & Hpre_s & Hpre_h & Hpre_d).
  assert (Hcb : pass_code_block (pre ++ flat_map span_source sps)
                = pre ++ flat_map span_source sps).
  { apply gsub_unmatched, (unmatched_app_without _ Ch.backtick);
      [apply code_block_needs_backtick | done | apply spans_code_block]. }
  rewrite Hcb.
  assert (Hic : pass_inline_code (pre ++ flat_map span_source sps)
                = pre ++ flat_map span_element sps).
  { unfold pass_inline_code, replace_all.
    destruct (gsub_prefix inline_code Ch.backtick pre
                (flat_map span_source sps) true
                inline_code_needs_backtick Hpre_b) as [bol ->].
    by rewrite spans_inline_code. }
  rewrite Hic.
  assert (Hanch : ∀ m x,
            (∀ b c t, (c =? x)%N = false → m b (c :: t) = None) →
            (∀ t, m false t = None) → (Ch.lt =? x)%N = false →
            forallb (differs x) pre = true →
            (∀ s, forallb quiet s = true → forallb (differs x) s = true) →
            replace_all m (pre ++ flat_map span_element sps)
            = pre ++ flat_map span_element sps).
  { intros m x Hneeds Hfalse Hlt Hpre Hq.
    apply gsub_unmatched, (unmatched_app_without _ x); [done|done|].
    intros bol. apply (spans_anchored m x); [done|done|done|].
    by apply spans_quiet_after. }
  unfold later_passes, pass_headers, pass_bold, pass_italic, pass_rule.
  change (js "### ") with (Ch.hash :: js "## ").
  change (js "## ") with (Ch.hash :: js "# ").
  change (js "# ") with (Ch.hash :: js " ").
  rewrite !(Hanch _ Ch.hash)
    by first [apply header_needs_hash | done
             | intros s Hs; by destruct (quiet_differs s Hs) as (_ & _ & ? & _)].
  rewrite !(gsub_without _ Ch.star (pre ++ flat_map span_element sps))
    by first [apply emphasis_needs_star
             | by rewrite forallb_app, Hpre_s, spans_stars].
  apply (Hanch _ Ch.dash);
    first [apply rule_needs_dash | done
          | intros s Hs; by destruct (quiet_differs s Hs) as (_ & _ & _ & ?)].
Qed.

End Spans.





(* ================================================================== *)
(** * Further properties of the code *)

(* ------------------------------------------------------------------ *)
(** ** More on [trim] *)

Lemma drop_while_split (p : N → bool) (s : jsstring) :
  ∃ pre, s = pre ++ drop_while p s ∧ forallb p pre = true.
Proof.
  induction s as [|c s (pre & Hs & Hpre)]; [by exists []|]. simpl.
  destruct (p c) eqn:Hc.
  - exists (c :: pre). simpl. rewrite Hc, Hpre. by rewrite <- Hs.
  - by exists [].
Qed.

Lemma drop_while_head (p : N → bool) (s : jsstring) (c : N) (r : jsstring) :
  drop_while p s = c :: r → p c = false.
Proof.
  induction s as [|x s IH]; simpl; [done|].
  destruct (p x) eqn:Hx; [done|]. by intros [= <- _].
Qed.

Lemma drop_while_stop (p : N → bool) (c : N) (r : jsstring) :
  p c = false → drop_while p (c :: r) = c :: r.
Proof. intros Hc. simpl. by rewrite Hc. Qed.

(** A trimmed text is empty, or begins and ends with a character that is
    not white space. *)
Lemma trim_ends (s : jsstring) :
  trim s = []
  ∨ ∃ a r r' b, trim s = a :: r ∧ trim s = r' ++ [b]
                ∧ isWhiteSpace a = false ∧ isWhiteSpace b = false.
Proof.
  unfold trim, trimEnd, trimStart.
  destruct (drop_while isWhiteSpace s) as [|a t] eqn:Hstart; [by left|].
  pose proof (drop_while_head _ _ _ _ Hstart) as Ha.
  destruct (drop_while isWhiteSpace (rev (a :: t))) as [|b u] eqn:Hend.
  - by left.
  - right. pose proof (drop_while_head _ _ _ _ Hend) as Hb.
    destruct (drop_while_split isWhiteSpace (rev (a :: t))) as (pre & Hrev & _).
    rewrite Hend in Hrev.
    assert (Hat : a :: t = (rev u ++ [b]) ++ rev pre).
    { rewrite <- (rev_involutive (a :: t)), Hrev, rev_app_distr. reflexivity. }
    change (rev (b :: u)) with (rev u ++ [b]).
    destruct (rev u) as [|a' mid] eqn:Hu; simpl in Hat.
    + injection Hat as -> _. exists b, [], [], b. auto.
    + injection Hat as <- _. exists a, (mid ++ [b]), (a :: mid), b. auto.
Qed.

Lemma trimStart_id (a : N) (r : jsstring) :
  isWhiteSpace a = false → trimStart (a :: r) = a :: r.
Proof. apply drop_while_stop. Qed.

Lemma trimEnd_id (r : jsstring) (b : N) :
  isWhiteSpace b = false → trimEnd (r ++ [b]) = r ++ [b].
Proof.
  intros Hb. unfold trimEnd. rewrite rev_app_distr. simpl.
  rewrite Hb. simpl. by rewrite rev_involutive.
Qed.

(** Trimming twice is trimming once. *)
Lemma trim_idempotent (s : jsstring) : trim (trim s) = trim s.
Proof.
  destruct (trim_ends s) as [->|(a & r & r' & b & Hs & Hs' & Ha & Hb)];
    [reflexivity|].
  unfold trim at 1. rewrite Hs at 1. rewrite (trimStart_id a r Ha), <- Hs.
  rewrite Hs'. by apply trimEnd_id.
Qed.

(* ------------------------------------------------------------------ *)
(** ** Validation: every rule *)

(** The seven messages [validate] can produce, in the order of its rules. *)
Definition all_messages : list jsstring :=
  [ Msg.name_required; Msg.compound_required; Msg.pdb_length;
    Msg.webhook_required; Msg.invalid_json "dockingJson";
    Msg.invalid_json "swissdockJson"; Msg.invalid_json "pymolJson" ].

Lemma all_messages_NoDup : NoDup all_messages.
Proof.
  unfold all_messages.
  repeat (apply NoDup_cons; split;
          [rewrite ?elem_of_cons, elem_of_nil; vm_compute; intuition discriminate|]).
  apply NoDup_nil_2.
Qed.

Definition trimmed_form (f : Form) : Form :=
  {| projectName := trim (projectName f); projectDesc := trim (projectDesc f);
     compoundName := trim (compoundName f); cid := trim (cid f);
     pdbId := trim (pdbId f); dockingJson := trim (dockingJson f);
     swissdockJson := trim (swissdockJson f); pymolJson := trim (pymolJson f);
     webhookUrl := trim (webhookUrl f) |}.

(** A form whose accession is three characters long and whose docking
    data is not JSON; everything else is in order. *)
Definition short_pdb_form : Form :=
  {| projectName := js "run"; projectDesc := []; compoundName := js "aspirin";
     cid := []; pdbId := js " 1EQ "; dockingJson := js "{poses";
     swissdockJson := []; pymolJson := []; webhookUrl := js "https://x/y" |}.

Section Rules.
Context {E : Engine}.

Lemma validate_json_spec (f : Form) (key : string) :
  validate_json f key
  = if nonempty (trim (dom_value key f))
       && negb (bool_decide (is_Some (JSON_parse (trim (dom_value key f)))))
    then [Msg.invalid_json key] else [].
Proof.
  unfold validate_json. destruct (nonempty _); [|done].
  destruct (JSON_parse _) as [v|] eqn:Hp.
  - by rewrite bool_decide_eq_true_2 by eauto.
  - by rewrite bool_decide_eq_false_2 by (intros [? ?]; done).
Qed.

Lemma fixed_not_json (m : jsstring) (f : Form) (key : string) :
  m ∈ [Msg.name_required; Msg.pdb_length; Msg.webhook_required] →
  key ∈ json_keys → m ∉ validate_json f key.
Proof.
  intros Hm Hkey Hin. apply validate_json_elem in Hin. subst m.
  unfold json_keys in Hkey. rewrite !elem_of_cons, elem_of_nil in Hkey.
  rewrite !elem_of_cons, elem_of_nil in Hm.
  destruct Hkey as [->|[->|[->|[]]]]; destruct Hm as [Hm|[Hm|[Hm|[]]]];
    vm_compute in Hm; discriminate.
Qed.

(** X1.  [validate] returns no error exactly when the analysis name is
    non-blank, at least one of compound name and identifier is non-blank,
    the trimmed accession has four characters, the endpoint is non-blank
    and every non-blank auxiliary field parses as JSON. *)
Theorem validate_passes_iff (f : Form) :
  validate f = [] ↔
    nonempty (trim (projectName f)) = true
    ∧ (nonempty (trim (compoundName f)) = true
       ∨ nonempty (trim (cid f)) = true)
    ∧ length (trim (pdbId f)) = 4
    ∧ nonempty (trim (webhookUrl f)) = true
    ∧ ∀ key, key ∈ json_keys →
        nonempty (trim (dom_value key f)) = true →
        is_Some (JSON_parse (trim (dom_value key f))).
Proof.
  split; [apply validate_nil|].
  intros (Hname & Hcomp & Hpdb & Hurl & Hjson).
  unfold validate. rewrite Hname, Hurl, Hpdb. simpl.
  assert (nonempty (trim (pdbId f)) = true) as ->
    by (destruct (trim (pdbId f)); [discriminate|done]).
  assert (negb (nonempty (trim (compoundName f)))
          && negb (nonempty (trim (cid f))) = false) as ->
    by (destruct Hcomp as [-> | ->]; simpl; [done|apply andb_false_r]).
  simpl. rewrite !validate_json_spec.
  assert (Hk : ∀ key, key ∈ json_keys →
            nonempty (trim (dom_value key f))
            && negb (bool_decide
                       (is_Some (JSON_parse (trim (dom_value key f))))) = false).
  { intros key Hkey. destruct (nonempty (trim (dom_value key f))) eqn:Hne;
      [|done].
    rewrite bool_decide_eq_true_2 by (by apply Hjson). done. }
  rewrite !Hk by (unfold json_keys; set_solver). done.
Qed.

(** X2.  The name error and the endpoint error are each reported exactly
    when their own field is blank after trimming, whatever the other
    fields hold. *)
Theorem required_field_errors (f : Form) :
  (Msg.name_required ∈ validate f ↔ trim (projectName f) = [])
  ∧ (Msg.webhook_required ∈ validate f ↔ trim (webhookUrl f) = []).
Proof.
  split; rewrite validate_elem, <- nonempty_false; (split;
    [ intros [[? Heq]|[(_ & _ & Heq)|[[_ Heq]|[[? Heq]|(key & Hkey & Hin)]]]];
        try done; try (vm_compute in Heq; discriminate);
        exfalso; revert Hin; apply fixed_not_json; [set_solver|done]
    | intros Hblank; auto 10 ]).
Qed.

(** X3.  The accession error is reported exactly when the trimmed
    accession does not have four characters; the check counts characters
    only, so case does not matter and any four characters pass. *)
Theorem pdb_length_error (f : Form) :
  Msg.pdb_length ∈ validate f ↔ length (trim (pdbId f)) ≠ 4.
Proof.
  rewrite validate_elem. split.
  - intros [[_ Heq]|[(_ & _ & Heq)|[[Hlen _]|[[_ Heq]|(key & Hkey & Hin)]]]];
      try (vm_compute in Heq; discriminate).
    + destruct Hlen as [Hne|Hlen].
      * apply nonempty_false in Hne. by rewrite Hne.
      * by apply Nat.eqb_neq.
    + exfalso. revert Hin. apply fixed_not_json; [set_solver|done].
  - intros Hlen. right; right; left. split; [|done].
    right. by apply Nat.eqb_neq.
Qed.

(** X4.  For each auxiliary JSON field, its error is reported exactly when
    the field is non-blank after trimming and JSON.parse rejects the
    trimmed text; a blank field is never an error. *)
Theorem json_field_error (f : Form) (key : string) :
  key ∈ json_keys →
  (Msg.invalid_json key ∈ validate f
   ↔ nonempty (trim (dom_value key f)) = true
     ∧ JSON_parse (trim (dom_value key f)) = None).
Proof.
  intros Hkey. rewrite validate_elem.
  assert (Hdistinct : ∀ key', key' ∈ json_keys →
            Msg.invalid_json key = Msg.invalid_json key' → key' = key).
  { intros key' Hkey' Heq. unfold json_keys in *.
    rewrite !elem_of_cons, elem_of_nil in Hkey.
    rewrite !elem_of_cons, elem_of_nil in Hkey'.
    destruct Hkey as [->|[->|[->|[]]]]; destruct Hkey' as [->|[->|[->|[]]]];
      try done; vm_compute in Heq; discriminate. }
  assert (Hfixed : Msg.invalid_json key ∉
            [Msg.name_required; Msg.compound_required; Msg.pdb_length;
             Msg.webhook_required]).
  { unfold json_keys in Hkey. rewrite !elem_of_cons, elem_of_nil in Hkey.
    rewrite !elem_of_cons, elem_of_nil.
    destruct Hkey as [->|[->|[->|[]]]]; vm_compute; intuition discriminate. }
  split.
  - intros [[_ Heq]|[(_ & _ & Heq)|[[_ Heq]|[[_ Heq]|(key' & Hkey' & Hin)]]]];
      try (exfalso; apply Hfixed; rewrite Heq; set_solver).
    pose proof (validate_json_elem _ _ _ Hin) as Heq.
    apply Hdistinct in Heq as ->; [|done].
    unfold validate_json in Hin.
    destruct (nonempty _); [|by apply elem_of_nil in Hin].
    destruct (JSON_parse _); [by apply elem_of_nil in Hin|done].
  - intros [Hne Hparse]. do 4 right. exists key. split; [done|].
    unfold validate_json. rewrite Hne, Hparse. apply list_elem_of_singleton. done.
Qed.

(** X5.  The errors come in the fixed order of the rules and none is
    reported twice: the result is a sublist of the seven messages. *)
Theorem validate_ordered (f : Form) :
  validate f `sublist_of` all_messages ∧ NoDup (validate f).
Proof.
  assert (Hsub : validate f `sublist_of` all_messages).
  { unfold validate, all_messages, json_keys. simpl flat_map.
    rewrite !validate_json_spec.
    repeat match goal with
           | |- context [push_if ?c ?m] => destruct c; simpl push_if
           | |- context [if ?c then [_] else []] => destruct c
           end; simpl; repeat first [apply sublist_skip_cons | constructor]. }
  split; [done|]. eapply sublist_NoDup; [apply all_messages_NoDup|exact Hsub].
Qed.

(** X6.  White space around any field changes nothing: trimming all the
    fields first gives the same errors and the same payload. *)
Theorem surrounding_space_ignored (f : Form) :
  validate (trimmed_form f) = validate f
  ∧ buildPayload (trimmed_form f) = buildPayload f.
Proof.
  unfold validate, validate_json, buildPayload, dom_value, trimmed_form.
  simpl. by rewrite !trim_idempotent.
Qed.

End Rules.

Lemma json_field_error_witness :
  "dockingJson" ∈ json_keys
  ∧ Msg.invalid_json "dockingJson" ∈ validate short_pdb_form
  ∧ Msg.pdb_length ∈ validate short_pdb_form.
Proof.
  assert (Hkey : "dockingJson" ∈ json_keys) by (unfold json_keys; set_solver).
  split; [exact Hkey|]. split.
  - apply (json_field_error short_pdb_form "dockingJson" Hkey).
    split; vm_compute; reflexivity.
  - vm_compute. set_solver.
Defined.

(* ------------------------------------------------------------------ *)
(** ** Payload: failure and shape *)

(** The keys [buildPayload] may set. *)
Definition payload_keys : list string :=
  [ "analysis_name"; "analysis_description"; "pdb_id"; "compound_name";
    "cid"; "docking_results"; "swissdock_results"; "pymol_data" ].

Section PayloadShape.
Context {E : Engine}.

(** X7.  [buildPayload] throws exactly when some auxiliary JSON field is
    non-blank and is rejected by JSON.parse; blank required fields never
    make it throw. *)
Theorem buildPayload_throws_iff (f : Form) :
  (∃ e, buildPayload f = Throw e)
  ↔ ∃ key, key ∈ json_keys
           ∧ nonempty (trim (dom_value key f)) = true
           ∧ JSON_parse (trim (dom_value key f)) = None.
Proof.
  assert (Hkeys : ∀ key, key ∈ json_keys ↔
            key = "dockingJson" ∨ key = "swissdockJson" ∨ key = "pymolJson").
  { intros key. unfold json_keys. rewrite !elem_of_cons, elem_of_nil. tauto. }
  setoid_rewrite Hkeys.
  unfold buildPayload, set_parsed, JSON_parse_throw, rbind.
  change (dom_value "dockingJson" f) with (dockingJson f).
  destruct (nonempty (trim (dockingJson f))) eqn:Hd;
    [destruct (JSON_parse (trim (dockingJson f))) eqn:Hdp|];
    (destruct (nonempty (trim (swissdockJson f))) eqn:Hs;
     [destruct (JSON_parse (trim (swissdockJson f))) eqn:Hsp|]);
    (destruct (nonempty (trim (pymolJson f))) eqn:Hp;
     [destruct (JSON_parse (trim (pymolJson f))) eqn:Hpp|]);
    (split;
     [ intros [e He]; try discriminate He;
       first [ by exists "dockingJson"; auto
             | by exists "swissdockJson"; auto
             | by exists "pymolJson"; auto ]
     | intros (key & [-> | [-> | ->]] & Hne & Hparse);
       change (dom_value "dockingJson" f) with (dockingJson f) in *;
       change (dom_value "swissdockJson" f) with (swissdockJson f) in *;
       change (dom_value "pymolJson" f) with (pymolJson f) in *;
       first [ congruence | by eexists ] ]).
Qed.

Lemma buildPayload_other_keys (f : Form) (p : Payload) (k : string) :
  buildPayload f = Ok p → k ∉ payload_keys → p !! k = None.
Proof.
  unfold payload_keys. rewrite !not_elem_of_cons.
  intros Hp (? & ? & ? & ? & ? & ? & ? & ? & _).
  unfold buildPayload, rbind in Hp.
  destruct (set_parsed (trim (dockingJson f)) _ _) as [p1|] eqn:Hs1; [|done].
  destruct (set_parsed (trim (swissdockJson f)) _ _) as [p2|] eqn:Hs2; [|done].
  apply set_parsed_Ok in Hs1 as [_ Hs1], Hs2 as [_ Hs2], Hp as [_ Hs3].
  rewrite Hs3, decide_False, Hs2, decide_False, Hs1, decide_False by done.
  rewrite !set_if_lookup, !decide_False by done.
  by rewrite !lookup_insert_ne by done.
Qed.

(** X8.  A payload holds no key besides the eight of [payload_keys], and
    always holds the analysis name, the description slot and the accession,
    whatever the form contains. *)
Theorem payload_shape (f : Form) (p : Payload) :
  buildPayload f = Ok p →
  (∀ k, is_Some (p !! k) → k ∈ payload_keys)
  ∧ p !! "analysis_name" = Some (JStr (trim (projectName f)))
  ∧ p !! "pdb_id" = Some (JStr (toUpperCase (trim (pdbId f))))
  ∧ is_Some (p !! "analysis_description")
  ∧ (∀ k, is_Some (request_body p !! k) → k ∈ payload_keys).
Proof.
  intros Hp.
  pose proof (buildPayload_lookup _ _ Hp) as (Hn & Hd & Hpdb & _).
  assert (Hkeys : ∀ k, is_Some (p !! k) → k ∈ payload_keys).
  { intros k [v Hv]. destruct (decide (k ∈ payload_keys)) as [|Hout]; [done|].
    by rewrite (buildPayload_other_keys f p k Hp Hout) in Hv. }
  split; [exact Hkeys|]. split; [exact Hn|]. split; [exact Hpdb|].
  split; [rewrite Hd; eauto|].
  intros k [v Hv]. apply Hkeys. rewrite request_body_lookup in Hv.
  destruct (p !! k); [eauto|done].
Qed.

End PayloadShape.

Lemma payload_shape_witness :
  ∃ p, buildPayload both_form = Ok p
       ∧ p !! "analysis_name" = Some (JStr (js "Ibuprofen vs COX-2"))
       ∧ p !! "pdb_id" = Some (JStr (js "1EQG")).
Proof.
  destruct (buildPayload_validated both_form both_form_valid) as [p Hp].
  exists p. split; [exact Hp|].
  destruct (payload_shape both_form p Hp) as (_ & Hn & Hpdb & _).
  split; [exact Hn | exact Hpdb].
Defined.

(* ------------------------------------------------------------------ *)
(** ** Regions *)

Lemma display_showOnly (id : string) (w : World) :
  display (view (showOnly id w))
  = <["errorState" := if String.eqb "errorState" id then d_flex else d_none]>
    (<["resultState" := if String.eqb "resultState" id then d_block else d_none]>
    (<["loadingState" := if String.eqb "loadingState" id then d_flex else d_none]>
    (<["emptyState" := if String.eqb "emptyState" id then d_flex else d_none]>
     (display (view w))))).
Proof. reflexivity. Qed.

(** X9.  After [showOnly id] the region named [id] is the only one of the
    four that is displayed ([resultState] as a block, the others as flex),
    the other three are hidden, and no other element's display changes; an
    [id] that names no region hides all four. *)
Theorem showOnly_exclusive (id : string) (w : World) :
  (∀ r, r ∈ regions →
     display (view (showOnly id w)) !! r
     = Some (if bool_decide (r = id)
             then (if bool_decide (r = "resultState") then d_block else d_flex)
             else d_none))
  ∧ (∀ r, r ∈ regions → shown r (showOnly id w) = bool_decide (r = id))
  ∧ (∀ k, k ∉ regions →
       display (view (showOnly id w)) !! k = display (view w) !! k).
Proof.
  assert (Hd : ∀ r, r ∈ regions →
     display (view (showOnly id w)) !! r
     = Some (if bool_decide (r = id)
             then (if bool_decide (r = "resultState") then d_block else d_flex)
             else d_none)).
  { intros r Hr. rewrite display_showOnly. unfold regions in Hr.
    rewrite !elem_of_cons, elem_of_nil in Hr.
    destruct Hr as [->|[->|[->|[->|[]]]]];
      repeat (rewrite lookup_insert_ne by done); rewrite lookup_insert_eq;
      match goal with
      | |- context [String.eqb ?a id] =>
          destruct (String.eqb_spec a id) as [Heq|Hne];
          [rewrite (bool_decide_eq_true_2 (a = id)) by done
          |rewrite (bool_decide_eq_false_2 (a = id)) by done]
      end; done. }
  split; [exact Hd|]. split.
  - intros r Hr. unfold shown. rewrite (Hd r Hr).
    destruct (bool_decide (r = id)); [|done].
    by destruct (bool_decide (r = "resultState")).
  - intros k Hk. rewrite display_showOnly. unfold regions in Hk.
    rewrite !not_elem_of_cons in Hk. destruct Hk as (? & ? & ? & ? & _).
    by rewrite !lookup_insert_ne by done.
Qed.

(* ------------------------------------------------------------------ *)
(** ** The loading animation *)

(** The classes of the four steps when stage [k] (counted from 1) is the
    active one: earlier steps done, later steps pending. *)
Definition stage_class (k i : nat) : StepClass :=
  if i <? k - 1 then lstep_done
  else if i =? k - 1 then lstep_active
  else lstep.

Definition at_stage (k : nat) (w : World) : Prop :=
  ∀ i m, loadingMessages !! i = Some m →
         step_class (view w) !! m_id m = Some (stage_class k i).

Lemma advance_fresh (w0 : World) :
  advance (length (cells w0)) (set_cells (cells w0 ++ [0]) w0)
  = set_cells (cells w0 ++ [1])
      (map_view (V.set_step_class "ls1" lstep_active) w0).
Proof.
  unfold advance. simpl cells.
  rewrite (list_lookup_middle (cells w0) [] 0 (length (cells w0)) eq_refl).
  simpl default. cbn [Nat.ltb Nat.leb length loadingMessages].
  rewrite (insert_app_r_alt (cells w0) [0] (length (cells w0))) by lia.
  rewrite Nat.sub_diag. reflexivity.
Qed.

Lemma startLoadingAnimation_split (w : World) :
  startLoadingAnimation w = start_sequence (reset_steps w).
Proof. reflexivity. Qed.

Lemma start_sequence_unfold (w : World) :
  start_sequence w
  = set_loadingTimer (Some (next_id w))
      (set_next_id (S (next_id w))
         (set_timers (timers w ++ [{| t_id := next_id w;
                                      t_due := (now w + 2500)%N;
                                      t_period := Some 2500%N;
                                      t_cb := CbInterval (length (cells w)) |}])
            (set_cells (cells w ++ [1])
               (map_view (V.set_step_class "ls1" lstep_active) w)))).
Proof. unfold start_sequence. cbv zeta. rewrite advance_fresh. reflexivity. Qed.

Lemma reset_steps_view (w : World) :
  step_class (view (reset_steps w))
  = <["ls4" := lstep]> (<["ls3" := lstep]> (<["ls2" := lstep]>
      (<["ls1" := lstep]> (step_class (view w)))))
  ∧ step_text (view (reset_steps w))
    = <["ls4" := js "Generating report" ++ [Ch.ellipsis]]>
      (<["ls3" := js "Running 7-step AI analysis" ++ [Ch.ellipsis]]>
      (<["ls2" := js "Fetching RCSB PDB data" ++ [Ch.ellipsis]]>
      (<["ls1" := js "Fetching PubChem data" ++ [Ch.ellipsis]]>
       (step_text (view w)))))
  ∧ cells (reset_steps w) = cells w ∧ timers (reset_steps w) = timers w
  ∧ next_id (reset_steps w) = next_id w ∧ now (reset_steps w) = now w.
Proof. repeat split. Qed.

(** X10.  Whatever the steps looked like before, [startLoadingAnimation]
    leaves the first step active and the other three pending, sets the
    four labels, gives the new animation its own counter (at 1), and
    registers one interval of 2500 ms whose handle it stores. *)
Theorem startLoadingAnimation_resets (w : World) :
  at_stage 1 (startLoadingAnimation w)
  ∧ (∀ m, m ∈ loadingMessages →
       step_text (view (startLoadingAnimation w)) !! m_id m = Some (m_label m))
  ∧ cells (startLoadingAnimation w) = cells w ++ [1]
  ∧ loadingTimer (startLoadingAnimation w) = Some (next_id w)
  ∧ timers (startLoadingAnimation w)
    = timers w ++ [{| t_id := next_id w; t_due := (now w + 2500)%N;
                      t_period := Some 2500%N;
                      t_cb := CbInterval (length (cells w)) |}].
Proof.
  rewrite startLoadingAnimation_split, start_sequence_unfold.
  destruct (reset_steps_view w) as (Hc & Ht & Hcells & Htimers & Hid & Hnow).
  revert Hc Ht Hcells Htimers Hid Hnow. generalize (reset_steps w).
  intros w0 Hc Ht Hcells Htimers Hid Hnow. unfold at_stage. simpl.
  rewrite Hc, Ht, Hcells, Htimers, Hid, Hnow. repeat split.
  - intros i m Hm.
    destruct i as [|[|[|[|i]]]]; simpl in Hm; try discriminate;
      injection Hm as <-; simpl; by simplify_map_eq.
  - intros m Hm. unfold loadingMessages in Hm.
    rewrite !elem_of_cons, elem_of_nil in Hm.
    destruct Hm as [->|[->|[->|[->|[]]]]]; simpl; by simplify_map_eq.
Qed.

(** X11.  With the counter of an animation at [k] (1 to 3) and the steps
    at stage [k], [advance] marks step [k] done, activates step [k+1],
    leaves the other steps as they are and moves the counter to [k+1]; at
    [k = 4] it marks the last step done and the counter stays. *)
Theorem advance_moves_one_stage (cell k : nat) (w : World) :
  cells w !! cell = Some k → 1 ≤ k ≤ 4 → at_stage k w →
  at_stage (S k) (advance cell w)
  ∧ cells (advance cell w) !! cell = Some (if k <? 4 then S k else k).
Proof.
  intros Hcell Hk Hstage. unfold advance. rewrite Hcell. simpl default.
  assert (Hcases : k = 1 ∨ k = 2 ∨ k = 3 ∨ k = 4) by lia.
  assert (Hlen : cell < length (cells w)) by (by eapply lookup_lt_Some).
  destruct Hcases as [-> | [-> | [-> | ->]]]; simpl; (split;
    [ intros i m Hm; pose proof (Hstage i m Hm) as Hi;
      destruct i as [|[|[|[|i]]]]; simpl in Hm; try discriminate;
      injection Hm as <-; simpl in *; by simplify_map_eq
    | rewrite ?list_lookup_insert_eq by done; done ]).
Qed.

Lemma advance_moves_one_stage_witness :
  let w := startLoadingAnimation (page both_form) in
  cells w !! 0 = Some 1
  ∧ step_class (view (advance 0 w)) !! "ls1" = Some lstep_done
  ∧ step_class (view (advance 0 w)) !! "ls2" = Some lstep_active
  ∧ cells (advance 0 w) !! 0 = Some 2.
Proof.
  cbv zeta.
  assert (Hs : at_stage 1 (startLoadingAnimation (page both_form))).
  { intros i m Hm. destruct i as [|[|[|[|i]]]]; simpl in Hm; try discriminate;
      injection Hm as <-; vm_compute; reflexivity. }
  assert (Hcell : cells (startLoadingAnimation (page both_form)) !! 0 = Some 1)
    by (vm_compute; reflexivity).
  destruct (advance_moves_one_stage 0 1 _ Hcell ltac:(lia) Hs) as [Hstage Hcnt].
  split; [exact Hcell|].
  split; [exact (Hstage 0 _ eq_refl)|].
  split; [exact (Hstage 1 _ eq_refl)|exact Hcnt].
Defined.

(** X12.  [stopLoadingAnimation] forgets the handle and removes the timer
    registered under it, and nothing else: every other pending timer, in
    particular a timeout already scheduled by the interval, stays pending.
    Stopping twice is the same as stopping once. *)
Theorem stop_clears_interval_only (w : World) :
  loadingTimer (stopLoadingAnimation w) = None
  ∧ (∀ h, loadingTimer w = Some h →
       ∀ t, t ∈ timers (stopLoadingAnimation w) ↔ t ∈ timers w ∧ t_id t ≠ h)
  ∧ (loadingTimer w = None → timers (stopLoadingAnimation w) = timers w)
  ∧ stopLoadingAnimation (stopLoadingAnimation w) = stopLoadingAnimation w.
Proof.
  unfold stopLoadingAnimation, clearInterval.
  destruct (loadingTimer w) as [h|] eqn:Hh; simpl.
  - split; [done|]. split; [|done].
    intros h' [= <-] t. rewrite list_elem_of_filter. tauto.
  - done.
Qed.

(* ------------------------------------------------------------------ *)
(** ** The renderer on ordinary text *)

(** Characters no rule of the renderer reacts to. *)
Definition ordinary (c : N) : bool :=
  differs Ch.amp c && differs Ch.lt c && differs Ch.gt c
  && differs Ch.backtick c && differs Ch.star c && differs Ch.hash c
  && differs Ch.dash c.

Lemma ordinary_differs (s : jsstring) :
  forallb ordinary s = true →
  forallb (differs Ch.amp) s = true ∧ forallb (differs Ch.lt) s = true
  ∧ forallb (differs Ch.gt) s = true ∧ forallb (differs Ch.backtick) s = true
  ∧ forallb (differs Ch.star) s = true ∧ forallb (differs Ch.hash) s = true
  ∧ forallb (differs Ch.dash) s = true.
Proof.
  induction s as [|c s IH]; simpl; [done|].
  rewrite andb_true_iff. unfold ordinary at 1. rewrite !andb_true_iff.
  intros [[[[[[[-> ->] ->] ->] ->] ->] ->] Hs].
  destruct (IH Hs) as (-> & -> & -> & -> & -> & -> & ->). done.
Qed.

Lemma esc1_id (c : N) (rep s : jsstring) :
  forallb (differs c) s = true → flat_map (esc1 c rep) s = s.
Proof.
  induction s as [|x s IH]; simpl; [done|].
  rewrite andb_true_iff. unfold differs at 1, esc1 at 1.
  intros [Hx Hs]. apply negb_true_iff in Hx as ->. simpl. by rewrite IH.
Qed.

Lemma esc1_keeps (P : N → bool) (c : N) (rep s : jsstring) :
  forallb P rep = true → forallb P s = true →
  forallb P (flat_map (esc1 c rep) s) = true.
Proof.
  intros Hrep Hs. rewrite forallb_flat_map.
  induction s as [|x s IH]; simpl in *; [done|].
  apply andb_true_iff in Hs as [Hx Hs]. rewrite IH by done.
  unfold esc1. destruct (x =? c)%N; simpl; [by rewrite Hrep|].
  by rewrite Hx.
Qed.

Lemma esc1_removes (c : N) (rep s : jsstring) :
  forallb (differs c) rep = true →
  forallb (differs c) (flat_map (esc1 c rep) s) = true.
Proof.
  intros Hrep. rewrite forallb_flat_map.
  induction s as [|x s IH]; simpl; [done|]. rewrite IH.
  unfold esc1. destruct (x =? c)%N eqn:Hx; simpl; [by rewrite Hrep|].
  unfold differs. by rewrite Hx.
Qed.

Lemma escape_no_angles (s : jsstring) :
  forallb (differs Ch.lt) (escape s) = true
  ∧ forallb (differs Ch.gt) (escape s) = true.
Proof.
  rewrite escape_flat_map. split.
  - apply esc1_keeps; [done|]. by apply esc1_removes.
  - by apply esc1_removes.
Qed.

Lemma escape_id (s : jsstring) :
  forallb (differs Ch.amp) s = true → forallb (differs Ch.lt) s = true →
  forallb (differs Ch.gt) s = true → escape s = s.
Proof.
  intros Ha Hl Hg. rewrite escape_flat_map.
  by rewrite (esc1_id Ch.amp), (esc1_id Ch.lt), (esc1_id Ch.gt).
Qed.

(** X13.  The escape shared by [renderMarkdown] and [escHtml] leaves no
    [<] and no [>] in its result, whatever the input; text without [&],
    [<] and [>] is returned unchanged. *)
Theorem escape_removes_angles (s : jsstring) :
  forallb (differs Ch.lt) (escape s) = true
  ∧ forallb (differs Ch.gt) (escape s) = true
  ∧ (forallb (differs Ch.amp) s = true → forallb (differs Ch.lt) s = true →
     forallb (differs Ch.gt) s = true → escape s = s).
Proof.
  destruct (escape_no_angles s) as [Hl Hg].
  split; [exact Hl|]. split; [exact Hg|]. apply escape_id.
Qed.

(** Text without the character a pass looks for is left alone by it. *)
Lemma passes_without (s : jsstring) :
  (forallb (differs Ch.backtick) s = true →
   pass_code_block s = s ∧ pass_inline_code s = s)
  ∧ (forallb (differs Ch.hash) s = true → pass_headers s = s)
  ∧ (forallb (differs Ch.star) s = true → pass_bold s = s ∧ pass_italic s = s)
  ∧ (forallb (differs Ch.dash) s = true → pass_rule s = s).
Proof.
  repeat split.
  - by apply (gsub_without _ Ch.backtick); [apply code_block_needs_backtick|].
  - by apply (gsub_without _ Ch.backtick); [apply inline_code_needs_backtick|].
  - intros Hh.
    assert (Hone : ∀ marks open close,
              replace_all (header (Ch.hash :: marks) open close) s = s)
      by (intros; apply (gsub_without _ Ch.hash);
          [apply header_needs_hash|done]).
    unfold pass_headers.
    change (js "### ") with (Ch.hash :: js "## ").
    change (js "## ") with (Ch.hash :: js "# ").
    change (js "# ") with (Ch.hash :: js " ").
    by rewrite !Hone.
  - by apply (gsub_without _ Ch.star); [apply emphasis_needs_star|].
  - by apply (gsub_without _ Ch.star); [apply emphasis_needs_star|].
  - intros Hd. by apply (gsub_without _ Ch.dash); [apply rule_needs_dash|].
Qed.

(** X14.  Text that contains none of the characters [& < > ` * # -] is
    rendered unchanged, line breaks included. *)
Theorem renderMarkdown_ordinary (text : jsstring) :
  forallb ordinary text = true → renderMarkdown text = text.
Proof.
  intros (Ha & Hl & Hg & Hb & Hs & Hh & Hd)%ordinary_differs.
  unfold renderMarkdown.
  rewrite escape_id by done.
  destruct (passes_without text) as (Hcode & Hhead & Hemph & Hrule).
  destruct (Hcode Hb) as [-> ->]. rewrite (Hhead Hh).
  destruct (Hemph Hs) as [-> ->]. by rewrite (Hrule Hd).
Qed.

Lemma renderMarkdown_ordinary_witness :
  forallb ordinary (js "Binding energy" ++ [Ch.LF] ++ js "is 8.4 kcal/mol") = true
  ∧ renderMarkdown (js "Binding energy" ++ [Ch.LF] ++ js "is 8.4 kcal/mol")
    = js "Binding energy" ++ [Ch.LF] ++ js "is 8.4 kcal/mol".
Proof.
  split; [reflexivity|].
  apply renderMarkdown_ordinary. reflexivity.
Defined.

(* ------------------------------------------------------------------ *)
(** ** The renderer on single constructs *)

Lemma starts_with_app (p t : jsstring) : starts_with p (p ++ t) = true.
Proof. induction p as [|c p IH]; simpl; [done|]. by rewrite N.eqb_refl. Qed.

Lemma forallb_rev (P : N → bool) (s : jsstring) :
  forallb P (rev s) = forallb P s.
Proof.
  induction s as [|c s IH]; simpl; [done|].
  rewrite forallb_app, IH. simpl. by rewrite andb_true_r, andb_comm.
Qed.

Lemma forallb_trimEnd (P : N → bool) (s : jsstring) :
  forallb P s = true → forallb P (trimEnd s) = true.
Proof.
  intros Hs. unfold trimEnd. rewrite forallb_rev.
  destruct (drop_while_split isWhiteSpace (rev s)) as (pre & Hrev & _).
  rewrite <- forallb_rev, Hrev, forallb_app in Hs.
  by apply andb_true_iff in Hs as [_ ?].
Qed.

(** Text inside a line that the rules for inline code, bold and italic do
    not react to, and that needs no escape. *)
Definition inline_text (c : N) : bool :=
  dot c && differs Ch.amp c && differs Ch.lt c && differs Ch.gt c
  && differs Ch.backtick c && differs Ch.star c.

Lemma inline_text_parts (s : jsstring) :
  forallb inline_text s = true →
  forallb dot s = true ∧ forallb (differs Ch.amp) s = true
  ∧ forallb (differs Ch.lt) s = true ∧ forallb (differs Ch.gt) s = true
  ∧ forallb (differs Ch.backtick) s = true
  ∧ forallb (differs Ch.star) s = true.
Proof.
  induction s as [|c s IH]; simpl; [done|].
  rewrite andb_true_iff. unfold inline_text at 1. rewrite !andb_true_iff.
  intros [[[[[[-> ->] ->] ->] ->] ->] Hs].
  destruct (IH Hs) as (-> & -> & -> & -> & -> & ->). done.
Qed.

(** A header pattern on a line that carries its marks. *)
Lemma header_match (c : N) (ms open close t : jsstring) :
  nonempty t = true → forallb dot t = true →
  replace_all (header (c :: ms) open close) ((c :: ms) ++ t)
  = open ++ t ++ close.
Proof.
  intros Hne Hdots. unfold replace_all.
  change ((c :: ms) ++ t) with (c :: (ms ++ t)). cbn [gsub].
  unfold header at 1.
  change (c :: ms ++ t) with ((c :: ms) ++ t).
  rewrite starts_with_app, drop_app_length, (take_while_all dot t Hdots), Hne.
  cbn [andb]. cbn [length Init.Nat.add Init.Nat.pred].
  rewrite gsub_skip_all by (rewrite length_app; lia).
  by rewrite app_nil_r.
Qed.

(** Text that starts with [<], has no line terminator and no asterisk is
    left alone by the header, bold, italic and rule passes. *)
Lemma tag_stable (s : jsstring) :
  forallb dot (Ch.lt :: s) = true →
  forallb (differs Ch.star) (Ch.lt :: s) = true →
  pass_headers (Ch.lt :: s) = Ch.lt :: s
  ∧ pass_rule (pass_italic (pass_bold (Ch.lt :: s))) = Ch.lt :: s.
Proof.
  intros Hdots Hstars.
  assert (Hh : ∀ marks open close,
             replace_all (header (Ch.hash :: marks) open close) (Ch.lt :: s)
             = Ch.lt :: s).
  { intros marks open close.
    apply gsub_unmatched, unmatched_anchored;
      [done | done | by apply header_needs_hash]. }
  split.
  - unfold pass_headers.
    change (js "### ") with (Ch.hash :: js "## ").
    change (js "## ") with (Ch.hash :: js "# ").
    change (js "# ") with (Ch.hash :: js " ").
    by rewrite !Hh.
  - destruct (passes_without (Ch.lt :: s)) as (_ & _ & Hemph & _).
    destruct (Hemph Hstars) as [-> ->].
    apply gsub_unmatched, unmatched_anchored;
      [done | done | by apply rule_needs_dash].
Qed.


(** The passes before the headers leave a text without [& < > `] alone. *)
Lemma before_headers_id (s : jsstring) :
  forallb (differs Ch.amp) s = true → forallb (differs Ch.lt) s = true →
  forallb (differs Ch.gt) s = true → forallb (differs Ch.backtick) s = true →
  pass_inline_code (pass_code_block (escape s)) = s.
Proof.
  intros Ha Hl Hg Hb. rewrite escape_id by done.
  destruct (passes_without s) as (Hcode & _).
  by destruct (Hcode Hb) as [-> ->].
Qed.

Lemma header_unmatched (marks open close s : jsstring) :
  forallb dot s = true → header marks open close true s = None →
  replace_all (header marks open close) s = s.
Proof.
  intros Hs Hnone. by apply gsub_unmatched, unmatched_anchored.
Qed.

Section Heading.
Variable t : jsstring.
Hypothesis t_inline : forallb inline_text t = true.

Lemma heading_level (marks tag_open tag_close : jsstring) :
  forallb (λ c, (c =? Ch.hash)%N || (c =? 32)%N) (Ch.hash :: marks) = true →
  pass_headers ((Ch.hash :: marks) ++ t) = Ch.lt :: tag_open ++ t ++ tag_close →
  forallb dot tag_open = true → forallb (differs Ch.star) tag_open = true →
  forallb dot tag_close = true → forallb (differs Ch.star) tag_close = true →
  renderMarkdown ((Ch.hash :: marks) ++ t)
  = Ch.lt :: tag_open ++ t ++ tag_close.
Proof using t_inline.
  intros Hmarks Hhead Ho1 Ho2 Hc1 Hc2.
  destruct (inline_text_parts t t_inline) as (Hd & Ha & Hl & Hg & Hb & Hs).
  assert (Hm : ∀ x, (x =? Ch.hash)%N = false → (x =? 32)%N = false →
             forallb (differs x) (Ch.hash :: marks) = true).
  { intros x Hx1 Hx2. revert Hmarks. generalize (Ch.hash :: marks).
    induction l as [|c l IH]; simpl; [done|].
    rewrite !andb_true_iff, orb_true_iff, !N.eqb_eq.
    intros [[-> | ->] Hl']; (split; [|by apply IH]); unfold differs.
    - by rewrite N.eqb_sym, Hx1.
    - by rewrite N.eqb_sym, Hx2. }
  change (renderMarkdown ((Ch.hash :: marks) ++ t))
    with (pass_rule (pass_italic (pass_bold (pass_headers
            (pass_inline_code (pass_code_block
               (escape ((Ch.hash :: marks) ++ t)))))))).
  rewrite before_headers_id by (rewrite forallb_app, Hm by done; done).
  rewrite Hhead.
  apply (tag_stable (tag_open ++ t ++ tag_close)).
  - simpl. by rewrite !forallb_app, Ho1, Hd, Hc1.
  - simpl. by rewrite !forallb_app, Ho2, Hs, Hc2.
Qed.

End Heading.

(** X15.  A line made of one, two or three [#], a space and a non-empty
    text without [& < > ` *] and line terminators is rendered as the
    heading element of that level holding the text. *)
Theorem heading_lines (t : jsstring) :
  nonempty t = true → forallb inline_text t = true →
  renderMarkdown (js "# " ++ t) = js "<h1>" ++ t ++ js "</h1>"
  ∧ renderMarkdown (js "## " ++ t) = js "<h2>" ++ t ++ js "</h2>"
  ∧ renderMarkdown (js "### " ++ t) = js "<h3>" ++ t ++ js "</h3>".
Proof.
  intros Hne Ht.
  destruct (inline_text_parts t Ht) as (Hd & _).
  assert (Hskip : ∀ marks open close pre post,
            forallb dot pre = true → forallb dot post = true →
            header marks open close true (pre ++ t ++ post) = None →
            replace_all (header marks open close) (pre ++ t ++ post)
            = pre ++ t ++ post).
  { intros marks open close pre post Hpre Hpost Hnone.
    apply header_unmatched; [|done].
    by rewrite !forallb_app, Hpre, Hd, Hpost. }
  repeat split.
  - apply (heading_level t Ht (js " ") (js "h1>") (js "</h1>")); try done.
    unfold pass_headers.
    rewrite <- (app_nil_r t) at 1.
    rewrite (Hskip (js "### ") _ _ (js "# ") []) by done.
    rewrite (Hskip (js "## ") _ _ (js "# ") []) by done.
    rewrite app_nil_r. by apply (header_match Ch.hash (js " ")).
  - apply (heading_level t Ht (js "# ") (js "h2>") (js "</h2>")); try done.
    unfold pass_headers.
    rewrite <- (app_nil_r t) at 1.
    rewrite (Hskip (js "### ") _ _ (js "## ") []) by done.
    rewrite app_nil_r.
    rewrite (header_match Ch.hash (js "# ")) by done.
    by apply (Hskip (js "# ") _ _ (js "<h2>") (js "</h2>")).
  - apply (heading_level t Ht (js "## ") (js "h3>") (js "</h3>")); try done.
    unfold pass_headers.
    rewrite (header_match Ch.hash (js "## ")) by done.
    rewrite (Hskip (js "## ") _ _ (js "<h3>") (js "</h3>")) by done.
    by apply (Hskip (js "# ") _ _ (js "<h3>") (js "</h3>")).
Qed.

Lemma heading_lines_witness :
  nonempty (js "STEP 1 - COMPOUND PROFILING") = true
  ∧ forallb inline_text (js "STEP 1 - COMPOUND PROFILING") = true
  ∧ renderMarkdown (js "## STEP 1 - COMPOUND PROFILING")
    = js "<h2>STEP 1 - COMPOUND PROFILING</h2>".
Proof.
  split; [reflexivity|]. split; [reflexivity|].
  apply (heading_lines (js "STEP 1 - COMPOUND PROFILING") eq_refl eq_refl).
Defined.

Lemma starts_with_refl (p : jsstring) : starts_with p p = true.
Proof. induction p as [|c p IH]; simpl; [done|]. by rewrite N.eqb_refl. Qed.

Lemma lazy_dots_found (d r : jsstring) :
  forallb dot r = true → forallb (differs Ch.star) r = true →
  lazy_dots (Ch.star :: d) (r ++ Ch.star :: d) = Some r.
Proof.
  intros Hd Hs. induction r as [|c r IH].
  - change ([] ++ Ch.star :: d) with (Ch.star :: d).
    unfold lazy_dots. by rewrite starts_with_refl.
  - simpl in Hd, Hs. apply andb_true_iff in Hd as [Hc Hd].
    apply andb_true_iff in Hs as [Hx Hs].
    unfold differs in Hx. apply negb_true_iff in Hx.
    change ((c :: r) ++ Ch.star :: d) with (c :: (r ++ Ch.star :: d)).
    cbn [lazy_dots starts_with].
    rewrite (N.eqb_sym Ch.star c), Hx, Hc. cbn [andb].
    by rewrite (IH Hd Hs).
Qed.

(** An emphasis pattern on a text wrapped in its delimiter. *)
Lemma emphasis_match (d open close t : jsstring) :
  nonempty t = true → forallb dot t = true →
  forallb (differs Ch.star) t = true →
  replace_all (emphasis (Ch.star :: d) open close)
    ((Ch.star :: d) ++ t ++ Ch.star :: d)
  = open ++ t ++ close.
Proof.
  intros Hne Hd Hs. destruct t as [|c r]; [done|].
  simpl in Hd, Hs. apply andb_true_iff in Hd as [Hc Hd].
  apply andb_true_iff in Hs as [_ Hs].
  unfold replace_all.
  change ((Ch.star :: d) ++ (c :: r) ++ Ch.star :: d)
    with (Ch.star :: (d ++ (c :: r) ++ Ch.star :: d)).
  cbn [gsub]. unfold emphasis at 1.
  change (Ch.star :: d ++ (c :: r) ++ Ch.star :: d)
    with ((Ch.star :: d) ++ c :: (r ++ Ch.star :: d)).
  rewrite starts_with_app, drop_app_length, Hc, (lazy_dots_found d r Hd Hs).
  cbn [length Init.Nat.add Init.Nat.pred].
  rewrite gsub_skip_all
    by (repeat (rewrite length_app || rewrite length_cons); lia).
  by rewrite app_nil_r.
Qed.

(** No position matches in a text wrapped in one character [x] that has
    no [x] inside, for a pattern that needs [x] and then more than the
    wrapping offers. *)
Lemma unmatched_wrapped (m : Matcher) (x : N) (t : jsstring) (bol : bool) :
  (∀ b c r, (c =? x)%N = false → m b (c :: r) = None) →
  (∀ b c r, (c =? x)%N = false → m b (x :: c :: r) = None) →
  (∀ b, m b [x] = None) →
  nonempty t = true → forallb (differs x) t = true →
  unmatched m bol (x :: t ++ [x]).
Proof.
  intros Hother Hfirst Hlast Hne Ht.
  destruct t as [|c r]; [done|]. pose proof Ht as Hall.
  simpl in Ht. apply andb_true_iff in Ht as [Hc _].
  unfold differs in Hc. apply negb_true_iff in Hc.
  split; [by apply Hfirst|].
  generalize (isLineTerminator x). revert Hall. clear Hc Hne.
  generalize (c :: r). intros l Hall.
  induction l as [|y l IH]; intros b; cbn [app unmatched].
  - split; [apply Hlast|done].
  - simpl in Hall. apply andb_true_iff in Hall as [Hy Hl].
    unfold differs in Hy. apply negb_true_iff in Hy.
    split; [by apply Hother|by apply IH].
Qed.

Lemma bold_skips_single_stars (t : jsstring) :
  nonempty t = true → forallb (differs Ch.star) t = true →
  pass_bold ([Ch.star] ++ t ++ [Ch.star]) = [Ch.star] ++ t ++ [Ch.star].
Proof.
  intros Hne Ht. apply gsub_unmatched.
  apply (unmatched_wrapped _ Ch.star t true); try done.
  - intros b c r Hc. apply emphasis_needs_star. done.
  - intros b c r Hc. unfold emphasis.
    change (js "**") with [Ch.star; Ch.star]. cbn [starts_with].
    by rewrite N.eqb_refl, (N.eqb_sym Ch.star c), Hc.
Qed.

(** A line without line terminator whose first character is neither [#]
    nor [-] is left alone by the header and rule passes. *)
Lemma line_stable (c : N) (s : jsstring) :
  (c =? Ch.hash)%N = false → (c =? Ch.dash)%N = false →
  forallb dot (c :: s) = true →
  pass_headers (c :: s) = c :: s ∧ pass_rule (c :: s) = c :: s.
Proof.
  intros Hh Hd Hdots. split.
  - assert (Hone : ∀ marks open close,
              replace_all (header (Ch.hash :: marks) open close) (c :: s)
              = c :: s).
    { intros marks open close.
      apply header_unmatched; [done|by apply header_needs_hash]. }
    unfold pass_headers.
    change (js "### ") with (Ch.hash :: js "## ").
    change (js "## ") with (Ch.hash :: js "# ").
    change (js "# ") with (Ch.hash :: js " ").
    by rewrite !Hone.
  - apply gsub_unmatched, unmatched_anchored;
      [done | done | by apply rule_needs_dash].
Qed.

(** X16.  A non-empty text without [& < > ` *] and line terminators,
    wrapped in [**], is rendered as a [strong] element holding the text;
    wrapped in single [*], as an [em] element. *)
Theorem emphasis_rendering (t : jsstring) :
  nonempty t = true → forallb inline_text t = true →
  renderMarkdown (js "**" ++ t ++ js "**") = js "<strong>" ++ t ++ js "</strong>"
  ∧ renderMarkdown (js "*" ++ t ++ js "*") = js "<em>" ++ t ++ js "</em>".
Proof.
  intros Hne Ht.
  destruct (inline_text_parts t Ht) as (Hd & Ha & Hl & Hg & Hb & Hs).
  assert (Hstart : ∀ w : jsstring,
            forallb (λ c, (c =? Ch.star)%N) w = true →
            pass_headers (pass_inline_code (pass_code_block
              (escape ((Ch.star :: w) ++ t ++ Ch.star :: w))))
            = (Ch.star :: w) ++ t ++ Ch.star :: w).
  { intros w Hw.
    assert (Hfront : ∀ P : N → bool, P Ch.star = true →
              forallb P (Ch.star :: w) = true).
    { intros P HP. simpl. rewrite HP. simpl. clear -Hw HP.
      induction w as [|c w IH]; simpl in *; [done|].
      apply andb_true_iff in Hw as [Hc Hw]. apply N.eqb_eq in Hc as ->.
      by rewrite HP, IH. }
    rewrite before_headers_id
      by (rewrite !forallb_app, !Hfront, ?Ha, ?Hl, ?Hg, ?Hb by done; done).
    apply (line_stable Ch.star (w ++ t ++ Ch.star :: w)); [done|done|].
    change (Ch.star :: w ++ t ++ Ch.star :: w)
      with ((Ch.star :: w) ++ t ++ Ch.star :: w).
    by rewrite !forallb_app, Hd, !Hfront. }
  assert (Hend : ∀ tag_open tag_close : jsstring,
            forallb dot tag_open = true → forallb dot tag_close = true →
            forallb (differs Ch.star) tag_open = true →
            forallb (differs Ch.star) tag_close = true →
            pass_italic (Ch.lt :: tag_open ++ t ++ tag_close)
            = Ch.lt :: tag_open ++ t ++ tag_close
            ∧ pass_rule (Ch.lt :: tag_open ++ t ++ tag_close)
              = Ch.lt :: tag_open ++ t ++ tag_close).
  { intros tag_open tag_close Ho Hc Hos Hcs. split.
    - destruct (passes_without (Ch.lt :: tag_open ++ t ++ tag_close))
        as (_ & _ & Hemph & _).
      apply Hemph. simpl. by rewrite !forallb_app, Hos, Hs, Hcs.
    - apply line_stable; [done|done|].
      simpl. by rewrite !forallb_app, Ho, Hd, Hc. }
  split.
  - change (renderMarkdown (js "**" ++ t ++ js "**"))
      with (pass_rule (pass_italic (pass_bold
              (pass_headers (pass_inline_code (pass_code_block
                 (escape ((Ch.star :: [Ch.star]) ++ t
                          ++ Ch.star :: [Ch.star])))))))).
    rewrite (Hstart [Ch.star]) by done. unfold pass_bold.
    change (js "**") with (Ch.star :: [Ch.star]).
    rewrite emphasis_match by done.
    destruct (Hend (js "strong>") (js "</strong>")) as [Hi Hr]; try done.
    change (js "<strong>" ++ t ++ js "</strong>")
      with (Ch.lt :: js "strong>" ++ t ++ js "</strong>").
    by rewrite Hi, Hr.
  - change (renderMarkdown (js "*" ++ t ++ js "*"))
      with (pass_rule (pass_italic (pass_bold
              (pass_headers (pass_inline_code (pass_code_block
                 (escape ((Ch.star :: []) ++ t ++ Ch.star :: [])))))))).
    rewrite (Hstart []) by done.
    change ((Ch.star :: []) ++ t ++ Ch.star :: [])
      with ([Ch.star] ++ t ++ [Ch.star]) at 1.
    rewrite bold_skips_single_stars by done. unfold pass_italic.
    change (js "*") with (Ch.star :: []).
    change ([Ch.star] ++ t ++ [Ch.star])
      with ((Ch.star :: []) ++ t ++ Ch.star :: []).
    rewrite emphasis_match by done.
    destruct (Hend (js "em>") (js "</em>")) as [_ Hr]; try done.
Qed.

Lemma emphasis_rendering_witness :
  nonempty (js "bold") = true ∧ forallb inline_text (js "bold") = true
  ∧ renderMarkdown (js "**bold**") = js "<strong>bold</strong>"
  ∧ renderMarkdown (js "*bold*") = js "<em>bold</em>".
Proof.
  split; [reflexivity|]. split; [reflexivity|].
  apply (emphasis_rendering (js "bold") eq_refl eq_refl).
Defined.

Lemma find_fence_found (code : jsstring) :
  forallb (differs Ch.backtick) code = true →
  find_fence (code ++ fence) = Some code.
Proof.
  intros Hc. induction code as [|c code IH].
  - reflexivity.
  - simpl in Hc. apply andb_true_iff in Hc as [Hx Hc].
    unfold differs in Hx. apply negb_true_iff in Hx.
    change ((c :: code) ++ fence) with (c :: (code ++ fence)).
    cbn [find_fence]. rewrite (fence_needs_backtick c _ Hx).
    by rewrite (IH Hc).
Qed.

Lemma word_char_ordinary (c : N) : isWordChar c = true → ordinary c = true.
Proof.
  unfold isWordChar, isDigit, isUpper, isLower, Ch.underscore.
  rewrite !orb_true_iff, !andb_true_iff, !N.leb_le, N.eqb_eq. intros Hc.
  unfold ordinary, differs, Ch.amp, Ch.lt, Ch.gt, Ch.backtick, Ch.star,
    Ch.hash, Ch.dash.
  rewrite !andb_true_iff, !negb_true_iff, !N.eqb_neq. lia.
Qed.

Lemma forallb_impl (P Q : N → bool) (s : jsstring) :
  (∀ c, P c = true → Q c = true) → forallb P s = true → forallb Q s = true.
Proof.
  intros HPQ. induction s as [|c s IH]; simpl; [done|].
  rewrite !andb_true_iff. intros [Hc Hs]. auto.
Qed.

(** X17.  A fenced block - three backticks, a language tag of word
    characters, a line feed, a body without [& < > ` * # -], three
    backticks - is rendered as [<pre><code>] body [</code></pre>] with the
    white space at the end of the body removed and the tag dropped. *)
Theorem fenced_block_rendering (lang code : jsstring) :
  forallb isWordChar lang = true → forallb ordinary code = true →
  renderMarkdown (fence ++ lang ++ [Ch.LF] ++ code ++ fence)
  = js "<pre><code>" ++ trimEnd code ++ js "</code></pre>".
Proof.
  intros Hlang Hcode.
  pose proof (forallb_impl _ _ _ word_char_ordinary Hlang) as Hlang'.
  assert (Hall : ∀ x, (x =? Ch.backtick)%N = false → (x =? Ch.LF)%N = false →
            forallb (differs x) lang = true → forallb (differs x) code = true →
            forallb (differs x) (fence ++ lang ++ [Ch.LF] ++ code ++ fence)
            = true).
  { intros x Hx1 Hx2 Hl Hc. rewrite !forallb_app, Hl, Hc. simpl.
    unfold differs. by rewrite !(N.eqb_sym Ch.backtick x), !Hx1,
      (N.eqb_sym Ch.LF x), Hx2. }
  destruct (ordinary_differs _ Hlang') as (La & Ll & Lg & Lb & Ls & Lh & Ld).
  destruct (ordinary_differs _ Hcode) as (Ca & Cl & Cg & Cb & Cs & Chh & Cd).
  unfold renderMarkdown. rewrite escape_id by (by apply Hall).
  assert (Hblock : pass_code_block (fence ++ lang ++ [Ch.LF] ++ code ++ fence)
                   = js "<pre><code>" ++ trimEnd code ++ js "</code></pre>").
  { unfold pass_code_block, replace_all.
    change (fence ++ lang ++ [Ch.LF] ++ code ++ fence)
      with (Ch.backtick :: Ch.backtick :: Ch.backtick
            :: (lang ++ Ch.LF :: (code ++ fence))).
    cbn [gsub]. unfold code_block at 1.
    change (starts_with fence
              (Ch.backtick :: Ch.backtick :: Ch.backtick
               :: lang ++ Ch.LF :: code ++ fence)) with true.
    cbn [drop]. rewrite !drop_0.
    rewrite (take_while_stop isWordChar lang Ch.LF (code ++ fence) Hlang eq_refl).
    rewrite drop_app_length. cbn [starts_with]. rewrite N.eqb_refl.
    cbn [andb drop]. rewrite ?drop_0. rewrite (find_fence_found code Cb).
    cbn [Init.Nat.add Init.Nat.pred].
    rewrite gsub_skip_all
      by (repeat (rewrite length_app || rewrite length_cons);
          unfold fence; simpl; lia).
    by rewrite app_nil_r. }
  rewrite Hblock.
  assert (Hout : ∀ x, forallb (differs x) (js "<pre><code>") = true →
            forallb (differs x) (js "</code></pre>") = true →
            forallb (differs x) code = true →
            forallb (differs x)
              (js "<pre><code>" ++ trimEnd code ++ js "</code></pre>") = true).
  { intros x Ho Hc Hx. by rewrite !forallb_app, Ho, Hc, forallb_trimEnd. }
  destruct (passes_without
              (js "<pre><code>" ++ trimEnd code ++ js "</code></pre>"))
    as (Hinline & Hhead & Hemph & Hrule).
  destruct Hinline as [_ ->]; [by apply Hout|].
  rewrite Hhead by (by apply Hout).
  destruct Hemph as [-> ->]; [by apply Hout|].
  apply Hrule. by apply Hout.
Qed.

Lemma fenced_block_rendering_witness :
  forallb isWordChar (js "python") = true
  ∧ forallb ordinary (js "x = 1" ++ [Ch.LF] ++ js "y = 2  " ++ [Ch.LF]) = true
  ∧ renderMarkdown (js "```python" ++ [Ch.LF] ++ js "x = 1" ++ [Ch.LF]
                    ++ js "y = 2  " ++ [Ch.LF] ++ js "```")
    = js "<pre><code>x = 1" ++ [Ch.LF] ++ js "y = 2</code></pre>".
Proof.
  split; [reflexivity|]. split; [reflexivity|].
  apply (fenced_block_rendering (js "python")
           (js "x = 1" ++ [Ch.LF] ++ js "y = 2  " ++ [Ch.LF])
           eq_refl eq_refl).
Defined.

(** X18.  A single backtick that is never closed is left as it is: a text
    with one backtick and otherwise none of [& < > ` * # -] is rendered
    unchanged. *)
Theorem lone_backtick_kept (a b : jsstring) :
  forallb ordinary a = true → forallb ordinary b = true →
  renderMarkdown (a ++ [Ch.backtick] ++ b) = a ++ [Ch.backtick] ++ b.
Proof.
  intros Ha Hb.
  destruct (ordinary_differs _ Ha) as (Aa & Al & Ag & Ab & As & Ah & Ad).
  destruct (ordinary_differs _ Hb) as (Ba & Bl & Bg & Bb & Bs & Bh & Bd).
  assert (Hall : ∀ x, (x =? Ch.backtick)%N = false →
            forallb (differs x) a = true → forallb (differs x) b = true →
            forallb (differs x) (a ++ [Ch.backtick] ++ b) = true).
  { intros x Hx Hxa Hxb. rewrite !forallb_app, Hxa, Hxb. simpl.
    unfold differs. by rewrite (N.eqb_sym Ch.backtick x), Hx. }
  unfold renderMarkdown. rewrite escape_id by (by apply Hall).
  assert (Hcode : pass_code_block (a ++ [Ch.backtick] ++ b)
                  = a ++ [Ch.backtick] ++ b).
  { apply gsub_unmatched.
    apply (unmatched_app_without _ Ch.backtick);
      [apply code_block_needs_backtick | done |].
    intros bol. change ([Ch.backtick] ++ b) with (Ch.backtick :: b).
    cbn [unmatched]. split.
    - unfold code_block. destruct b as [|c r]; [reflexivity|].
      simpl in Bb. apply andb_true_iff in Bb as [Hc _].
      unfold differs in Hc. apply negb_true_iff in Hc.
      by rewrite (fence_needs_two c r Hc).
    - apply (unmatched_without _ Ch.backtick);
        [apply code_block_needs_backtick | done]. }
  assert (Hinline : pass_inline_code (a ++ [Ch.backtick] ++ b)
                    = a ++ [Ch.backtick] ++ b).
  { apply gsub_unmatched.
    apply (unmatched_app_without _ Ch.backtick);
      [apply inline_code_needs_backtick | done |].
    intros bol. change ([Ch.backtick] ++ b) with (Ch.backtick :: b).
    cbn [unmatched]. split.
    - unfold inline_code. rewrite N.eqb_refl.
      rewrite (take_while_all not_backtick b Bb), drop_all.
      by rewrite andb_false_r.
    - apply (unmatched_without _ Ch.backtick);
        [apply inline_code_needs_backtick | done]. }
  rewrite Hcode, Hinline.
  destruct (passes_without (a ++ [Ch.backtick] ++ b))
    as (_ & Hhead & Hemph & Hrule).
  rewrite Hhead by (by apply Hall).
  destruct Hemph as [-> ->]; [by apply Hall|].
  apply Hrule. by apply Hall.
Qed.

Lemma lone_backtick_kept_witness :
  forallb ordinary (js "use ") = true ∧ forallb ordinary (js "pip") = true
  ∧ renderMarkdown (js "use `pip") = js "use `pip".
Proof.
  split; [reflexivity|]. split; [reflexivity|].
  apply (lone_backtick_kept (js "use ") (js "pip") eq_refl eq_refl).
Defined.

(* ------------------------------------------------------------------ *)
(** ** The run after the response *)

(** The timer side of the world: the stored handle and the timer queue. *)
Definition clockwork (w : World) : option nat * list Timer :=
  (loadingTimer w, timers w).

Lemma form_stop (w : World) : form (stopLoadingAnimation w) = form w.
Proof. apply (core_eq _ _ (core_stopLoadingAnimation w)). Qed.

Lemma form_suspend (ps : list Payload) (e : Effect) (w : World) :
  form (set_suspended ps (emit e w)) = form w.
Proof. reflexivity. Qed.

Lemma form_locked (w : World) : form (locked w) = form w.
Proof.
  unfold locked.
  by destruct (core_eq _ _ (core_startLoadingAnimation
    (setStatus (js "Running" ++ [Ch.ellipsis]) (js "loading")
       (showOnly "loadingState"
          (map_view (V.set_display "outputActions" d_none)
             (map_view (V.set_disabled true) w)))))) as (-> & _).
Qed.

Lemma clockwork_stop (a b : World) :
  clockwork a = clockwork b →
  clockwork (stopLoadingAnimation a) = clockwork (stopLoadingAnimation b).
Proof.
  unfold clockwork, stopLoadingAnimation, clearInterval.
  intros [= Hl Ht]. rewrite Hl. destruct (loadingTimer b); simpl; by rewrite Ht.
Qed.

Lemma clockwork_stop_twice (w : World) :
  clockwork (stopLoadingAnimation (stopLoadingAnimation w))
  = clockwork (stopLoadingAnimation w).
Proof.
  unfold clockwork, stopLoadingAnimation, clearInterval.
  destruct (loadingTimer w); reflexivity.
Qed.

Section Settled.
Context {E : Engine}.

Lemma keeps_renderResult {B} (π : World → B) (data : JsVal)
    (payload : Payload) :
  (∀ g w, π (map_view g w) = π w) → keeps π (renderResult data payload).
Proof.
  intros Hview. unfold renderResult.
  repeat first [apply keeps_member | keeps_step]; apply Hview.
Qed.

Lemma keeps_form_try_block (payload : Payload) (o : Outcome) :
  keeps form (try_block payload o).
Proof.
  unfold try_block, failure_value, or_else.
  repeat first [apply keeps_member | apply (keeps_renderResult form); done
               | keeps_step];
    first [apply form_stop | reflexivity].
Qed.

Lemma keeps_form_catch_block (e : JsError) : keeps form (catch_block e).
Proof.
  unfold catch_block. repeat keeps_step; first [apply form_stop | reflexivity].
Qed.

(** The [try] block after [stopLoadingAnimation()]. *)
Definition after_stop (payload : Payload) (status : N) (data : JsVal) : M unit :=
  failed ← (if negb (res_ok status) then mret true
            else st ← member data "status"; mret (is_error_status st));
  if (failed : bool) then
    v ← failure_value status data;
    throw (mkError (ToString v))
  else
    report ← member data "report";
    act (set_lastReport (report ||| JStr (JSON_stringify data)));;
    renderResult data payload;;
    act (showOnly "resultState");;
    act (map_view (V.set_display "outputActions" d_flex));;
    act (setStatus (js "Complete") []).

Lemma try_block_responded (payload : Payload) (status : N) (data : JsVal)
    (w : World) :
  try_block payload (Responded status data) w
  = after_stop payload status data (stopLoadingAnimation w).
Proof. reflexivity. Qed.

Lemma keeps_clockwork_after_stop (payload : Payload) (status : N)
    (data : JsVal) :
  keeps clockwork (after_stop payload status data).
Proof.
  unfold after_stop, failure_value, or_else.
  repeat first [apply keeps_member | apply (keeps_renderResult clockwork); done
               | keeps_step];
    reflexivity.
Qed.

Lemma clockwork_caught (e : JsError) (w : World) :
  clockwork (finally_block (snd (catch_block e w)))
  = clockwork (stopLoadingAnimation w).
Proof. rewrite catch_block_world. reflexivity. Qed.

(** Settling a run does to the timers what one [stopLoadingAnimation()]
    does, and nothing more. *)
Lemma clockwork_resume (payload : Payload) (o : Outcome) (w : World) :
  clockwork (runAnalysis_resume payload o w)
  = clockwork (stopLoadingAnimation w).
Proof.
  rewrite resume_unfold. destruct o as [e|status e|status data].
  - apply clockwork_caught.
  - apply clockwork_caught.
  - rewrite try_block_responded.
    pose proof (clockwork_stop_twice w) as Htwice.
    pose proof (keeps_clockwork_after_stop payload status data
                  (stopLoadingAnimation w)) as Hk.
    revert Htwice Hk. generalize (stopLoadingAnimation w). intros w0 Htwice Hk.
    destruct (after_stop payload status data w0) as [[[]|e] w1].
    + exact Hk.
    + rewrite clockwork_caught, <- Htwice. by apply clockwork_stop.
Qed.

(** X19.  Neither starting a run nor settling it changes the form: after
    a failure the fields are still there to be corrected and sent again. *)
Theorem run_keeps_form (payload : Payload) (o : Outcome) (w : World) :
  form (runAnalysis w) = form w
  ∧ form (runAnalysis_resume payload o w) = form w.
Proof.
  split.
  - destruct (validate (form w)) as [|e es] eqn:Hv.
    + destruct (runAnalysis_started w Hv) as (p & _ & ->).
      assert (Hk : form (snd (lock_ui w)) = form w).
      { apply (keeps_lock_ui form); [done|].
        intros w0. apply (core_eq _ _ (core_start_sequence w0)). }
      by destruct (lock_ui w) as [[u|e] w'].
    + unfold runAnalysis. rewrite Hv.
      by rewrite bool_decide_eq_true_2 by done.
  - apply (keeps_try_catch_finally form);
      [apply keeps_form_try_block | apply keeps_form_catch_block
      | reflexivity].
Qed.

(** X20.  However the request settles, the handle of the loading interval
    is forgotten afterwards, no timer registered under it is left, and no
    other timer is removed or added. *)
Theorem settle_stops_interval (payload : Payload) (o : Outcome) (w : World) :
  loadingTimer (runAnalysis_resume payload o w) = None
  ∧ timers (runAnalysis_resume payload o w)
    = match loadingTimer w with
      | Some h => filter (λ t, t_id t ≠ h) (timers w)
      | None => timers w
      end.
Proof.
  pose proof (clockwork_resume payload o w) as Hc. revert Hc.
  generalize (runAnalysis_resume payload o w). intros w' [= -> ->].
  unfold stopLoadingAnimation, clearInterval.
  destruct (loadingTimer w); done.
Qed.

End Settled.

(* ------------------------------------------------------------------ *)
(** ** Export and clear *)

(** What a download name is made of. *)
Definition stem_char (c : N) : bool :=
  isLower c || isDigit c || (c =? Ch.underscore)%N.

Lemma file_stem_chars (name : jsstring) :
  forallb stem_char (file_stem name) = true.
Proof.
  unfold file_stem. induction name as [|c name IH]; [done|].
  cbn [map forallb]. rewrite IH, andb_true_r.
  unfold stem_char, toLowerAscii, isDigit, isUpper, isLower, Ch.underscore.
  destruct (N.leb_spec 48 c), (N.leb_spec c 57), (N.leb_spec 65 c),
    (N.leb_spec c 90), (N.leb_spec 97 c), (N.leb_spec c 122);
    cbn [andb orb]; try (exfalso; lia);
    repeat match goal with
           | |- context [(?a <=? ?b)%N] =>
               destruct (N.leb_spec a b); cbn [andb orb] in *
           | |- context [(?a =? ?b)%N] =>
               destruct (N.eqb_spec a b); cbn [andb orb] in *
           end; first [done | exfalso; lia].
Qed.

Lemma file_stem_length (name : jsstring) :
  length (file_stem name) = length name.
Proof. unfold file_stem. by rewrite !length_map. Qed.


(** X22.  Clearing empties the eight form fields but not the webhook URL,
    shows the empty region alone, hides the export actions, sets the status
    to Ready and resets the cached report to the empty string, so that Copy
    and Download do nothing afterwards.  It does not cancel a pending
    request: the run stays suspended, the control stays as it was, and the
    loading timers stay registered. *)
Theorem clear_forgets_report `{Engine} (w : World) :
  (∀ r, r ∈ regions →
     display (view (clearForm w)) !! r
     = Some (if bool_decide (r = "emptyState") then d_flex else d_none))
  ∧ display (view (clearForm w)) !! "outputActions" = Some d_none
  ∧ statusLabel (view (clearForm w)) = js "Ready"
  ∧ statusDot (view (clearForm w)) = js "status-dot"
  ∧ runState (clearForm w) = Idle
  ∧ lastReport (clearForm w) = JStr []
  ∧ form (clearForm w)
    = {| projectName := []; projectDesc := []; compoundName := []; cid := [];
         pdbId := []; dockingJson := []; swissdockJson := []; pymolJson := [];
         webhookUrl := webhookUrl (form w) |}
  ∧ copyReport (clearForm w) = clearForm w
  ∧ downloadReport (clearForm w) = clearForm w
  ∧ suspended (clearForm w) = suspended w
  ∧ btnRun_disabled (view (clearForm w)) = btnRun_disabled (view w)
  ∧ loadingTimer (clearForm w) = loadingTimer w
  ∧ timers (clearForm w) = timers w.
Proof.
  split; [|split; [|split; [|split; [|split; [|repeat split]]]]].
  - intros r Hr. unfold regions in Hr.
    rewrite !elem_of_cons, elem_of_nil in Hr.
    destruct Hr as [-> | [-> | [-> | [-> | []]]]];
      unfold clearForm; cbn; by simplify_map_eq.
  - unfold clearForm. cbn. by simplify_map_eq.
  - reflexivity.
  - reflexivity.
  - unfold runState, shown, clearForm. cbn. by simplify_map_eq.
Qed.

(* ------------------------------------------------------------------ *)
(** ** What a response leads to *)

Section Responses.
Context {E : Engine}.

(** The page after the two resets at the head of [renderResult]. *)
Definition meta_shown (rows : list (jsstring * jsstring)) (w : World) : World :=
  map_view (V.set_resultBody BodyEmpty) (map_view (V.set_resultMeta rows) w).

(** Free of angle brackets. *)
Definition no_angles (s : jsstring) : bool :=
  forallb (differs Ch.lt) s && forallb (differs Ch.gt) s.

(** The [meta] object [renderResult] reads. *)
Definition meta_of (data : JsVal) : JsVal :=
  get_prop data (js "meta") ||| JObj [].

(** The four values the meta bar passes to [escHtml], in order. *)
Definition meta_cells (meta : JsVal) (payload : Payload) : list JsVal :=
  let pay k := default JUndefined (payload !! k) in
  [ pay "analysis_name";
    get_prop meta (js "compound_queried") ||| pay "compound_name"
    ||| pay "cid" ||| dash_text;
    get_prop meta (js "pdb_id_queried") ||| pay "pdb_id";
    get_prop meta (js "model_used") ||| dash_text ].

(** The value whose [toLocaleString] is called, when there is a token row. *)
Definition token_count (meta : JsVal) : option JsVal :=
  if truthy (get_prop meta (js "tokens_used"))
  then Some (get_prop (get_prop meta (js "tokens_used")) (js "total_tokens")
             ||| JInt 0)
  else None.

(** Every conversion of the meta bar returns. *)
Definition meta_converts (meta : JsVal) (payload : Payload) : bool :=
  negb (existsb string_throws (meta_cells meta payload))
  && match token_count meta with
     | Some n => negb (locale_throws n)
     | None => true
     end.

(** The TypeError of the first conversion that throws: the four [escHtml]
    calls come first and share a message. *)
Definition meta_error (meta : JsVal) (payload : Payload) : JsError :=
  if existsb string_throws (meta_cells meta payload)
  then mkError msg_not_primitive
  else mkError (msg_locale (default JUndefined (token_count meta))).

(** The rows written when every conversion returns. *)
Definition meta_table (meta : JsVal) (payload : Payload)
    : list (jsstring * jsstring) :=
  zip [js "Analysis"; js "Compound"; js "Target (PDB)"; js "Model"]
      (map (λ v, escape (ToString v)) (meta_cells meta payload))
  ++ match token_count meta with
     | Some n => [(js "Tokens", toLocaleString n)]
     | None => []
     end.

Lemma escHtml_Ok (v : JsVal) :
  string_throws v = false → escHtml v = Ok (escape (ToString v)).
Proof. intros Hv. unfold escHtml, String_. by rewrite Hv. Qed.

Lemma escHtml_Throw (v : JsVal) :
  string_throws v = true → escHtml v = Throw (mkError msg_not_primitive).
Proof. intros Hv. unfold escHtml, String_. by rewrite Hv. Qed.

(** The template literal gives the table when every conversion returns
    and throws otherwise. *)
Lemma meta_rows_cases (meta : JsVal) (payload : Payload) :
  if meta_converts meta payload
  then meta_rows meta payload = Ok (meta_table meta payload)
  else meta_rows meta payload = Throw (meta_error meta payload).
Proof.
  unfold meta_converts, meta_error, meta_table, meta_rows, meta_cells,
    token_count.
  cbn [existsb map zip zip_with].
  destruct (string_throws (default JUndefined (payload !! "analysis_name")))
    eqn:H1; [by rewrite (escHtml_Throw _ H1)|].
  rewrite (escHtml_Ok _ H1). cbn [rbind orb].
  match goal with
  | |- context [string_throws ?v || _] => destruct (string_throws v) eqn:H2
  end; [by rewrite (escHtml_Throw _ H2)|].
  rewrite (escHtml_Ok _ H2). cbn [rbind orb].
  match goal with
  | |- context [string_throws ?v || _] => destruct (string_throws v) eqn:H3
  end; [by rewrite (escHtml_Throw _ H3)|].
  rewrite (escHtml_Ok _ H3). cbn [rbind orb].
  match goal with
  | |- context [string_throws ?v || _] => destruct (string_throws v) eqn:H4
  end; [by rewrite (escHtml_Throw _ H4)|].
  rewrite (escHtml_Ok _ H4). cbn [rbind orb negb andb].
  destruct (truthy (get_prop meta (js "tokens_used"))); [|reflexivity].
  unfold toLocaleString_. cbn [default].
  by destruct (locale_throws _).
Qed.

Lemma meta_table_escaped (meta : JsVal) (payload : Payload) :
  4 ≤ length (meta_table meta payload) ≤ 5
  ∧ ∀ i row, i < 4 → meta_table meta payload !! i = Some row →
             no_angles row.2 = true.
Proof.
  unfold meta_table, meta_cells. cbn [map zip zip_with]. split.
  - rewrite length_app. destruct (token_count meta); simpl; lia.
  - intros i row Hi Hrow.
    rewrite lookup_app_l in Hrow by (simpl; lia).
    destruct i as [|[|[|[|i]]]]; try lia; injection Hrow as <-;
      unfold no_angles; cbn [snd];
      match goal with
      | |- context [escape ?t] =>
          by destruct (escape_no_angles t) as [-> ->]
      end.
Qed.

Lemma renderResult_run (data : JsVal) (payload : Payload) (w : World) :
  has_members data = true →
  renderResult data payload w
  = match meta_rows (meta_of data) payload with
    | Throw e => (Throw e, w)
    | Ok rows =>
        match get_prop data (js "report") with
        | JStr [] =>
            (Ok tt, map_view (V.set_resultBody (BodyText (JSON_stringify data)))
                      (meta_shown rows w))
        | JStr text =>
            (Ok tt, map_view (V.set_resultBody (BodyHtml (renderMarkdown text)))
                      (meta_shown rows w))
        | report =>
            if truthy report
            then (Throw (mkError msg_not_a_function), meta_shown rows w)
            else (Ok tt,
                  map_view (V.set_resultBody (BodyText (JSON_stringify data)))
                    (meta_shown rows w))
        end
    end.
Proof.
  intros Hdata. unfold renderResult, mbind, M_bind, meta_of.
  rewrite (member_value data "meta" w Hdata). unfold lift.
  destruct (meta_rows _ payload) as [rows|e]; [|reflexivity].
  unfold act, meta_shown.
  rewrite (member_value data "report" _ Hdata).
  destruct (get_prop data (js "report")) as [| |b|n|[|c text]|fields|items];
    try reflexivity; destruct (truthy _); reflexivity.
Qed.

Lemma renderResult_falsy (data : JsVal) (payload : Payload) (w : World)
    (rows : list (jsstring * jsstring)) :
  has_members data = true → meta_rows (meta_of data) payload = Ok rows →
  truthy (get_prop data (js "report")) = false →
  renderResult data payload w
  = (Ok tt, map_view (V.set_resultBody (BodyText (JSON_stringify data)))
              (meta_shown rows w)).
Proof.
  intros Hdata Hrows Hrep.
  rewrite (renderResult_run data payload w Hdata), Hrows.
  destruct (get_prop data (js "report")) as [| |b|n|[|c text]|items|fields];
    try rewrite Hrep; done.
Qed.

Lemma renderResult_throws (data : JsVal) (payload : Payload) (w : World)
    (rows : list (jsstring * jsstring)) :
  has_members data = true → meta_rows (meta_of data) payload = Ok rows →
  truthy (get_prop data (js "report")) = true →
  (∀ text, get_prop data (js "report") ≠ JStr text) →
  renderResult data payload w
  = (Throw (mkError msg_not_a_function), meta_shown rows w).
Proof.
  intros Hdata Hrows Hrep Hstr.
  rewrite (renderResult_run data payload w Hdata), Hrows.
  destruct (get_prop data (js "report")) as [| |b|n|s|items|fields];
    try rewrite Hrep; try done.
  by destruct (Hstr s).
Qed.

(** The page once the [try] block and the [finally] block are through. *)
Definition completed (w : World) : World :=
  finally_block
    (setStatus (js "Complete") []
       (map_view (V.set_display "outputActions" d_flex)
          (showOnly "resultState" w))).

Lemma completed_world (w : World) :
  runState (completed w) = Succeeded (lastReport w)
  ∧ resultBody (view (completed w)) = resultBody (view w)
  ∧ resultMeta (view (completed w)) = resultMeta (view w)
  ∧ display (view (completed w)) !! "outputActions" = Some d_flex
  ∧ btnRun_disabled (view (completed w)) = false
  ∧ statusLabel (view (completed w)) = js "Complete"
  ∧ effects (completed w) = effects w.
Proof.
  unfold completed, runState, shown. simpl.
  repeat split; by simplify_map_eq.
Qed.

Lemma after_stop_run (payload : Payload) (status : N) (data : JsVal)
    (w : World) :
  has_members data = true → signals_failure status data = false →
  after_stop payload status data w
  = match renderResult data payload
            (set_lastReport (get_prop data (js "report")
                             ||| JStr (JSON_stringify data)) w) with
    | (Ok _, w2) =>
        (Ok tt, setStatus (js "Complete") []
                  (map_view (V.set_display "outputActions" d_flex)
                     (showOnly "resultState" w2)))
    | (Throw e, w2) => (Throw e, w2)
    end.
Proof.
  intros Hdata Hfail. unfold signals_failure in Hfail.
  apply orb_false_elim in Hfail as [Hok Hst].
  unfold after_stop, mbind, M_bind. rewrite Hok.
  rewrite (member_value data "status" w Hdata).
  unfold mret, M_ret. rewrite Hst.
  rewrite (member_value data "report" w Hdata). unfold act.
  destruct (renderResult _ _ _) as [[[]|e] w2]; reflexivity.
Qed.

Lemma resume_rendered (payload : Payload) (status : N) (data : JsVal)
    (w : World) :
  has_members data = true → signals_failure status data = false →
  runAnalysis_resume payload (Responded status data) w
  = match renderResult data payload
            (set_lastReport (get_prop data (js "report")
                             ||| JStr (JSON_stringify data))
               (stopLoadingAnimation w)) with
    | (Ok _, w2) => completed w2
    | (Throw e, w2) => finally_block (snd (catch_block e w2))
    end.
Proof.
  intros Hdata Hfail.
  rewrite resume_unfold, try_block_responded.
  rewrite (after_stop_run _ _ _ _ Hdata Hfail).
  destruct (renderResult _ _ _) as [[[]|e] w2]; reflexivity.
Qed.

(** X23.  A successful response with a non-empty string report, whose
    meta values all convert to text, ends the run in [Succeeded]: the
    report is cached, the meta bar holds the rows of the template, the
    rendering of the report is the result body, the export actions are
    shown, the control is enabled again and the status reads Complete;
    nothing is sent or alerted. *)
Theorem successful_run (payload : Payload) (status : N) (data : JsVal)
    (text : jsstring) (w : World) :
  has_members data = true → signals_failure status data = false →
  meta_converts (meta_of data) payload = true →
  get_prop data (js "report") = JStr text → text ≠ [] →
  let w' := runAnalysis_resume payload (Responded status data) w in
  runState w' = Succeeded (JStr text)
  ∧ resultMeta (view w') = meta_table (meta_of data) payload
  ∧ resultBody (view w') = BodyHtml (renderMarkdown text)
  ∧ display (view w') !! "outputActions" = Some d_flex
  ∧ btnRun_disabled (view w') = false
  ∧ statusLabel (view w') = js "Complete"
  ∧ effects w' = effects w.
Proof.
  intros Hdata Hfail Hconv Hrep Htext w'.
  pose proof (meta_rows_cases (meta_of data) payload) as Hrows.
  rewrite Hconv in Hrows.
  destruct text as [|c text]; [done|].
  assert (Hw : w' = completed
            (map_view (V.set_resultBody
                         (BodyHtml (renderMarkdown (c :: text))))
               (meta_shown (meta_table (meta_of data) payload)
                  (set_lastReport (JStr (c :: text) ||| JStr (JSON_stringify data))
                     (stopLoadingAnimation w))))).
  { subst w'. rewrite (resume_rendered _ _ _ _ Hdata Hfail).
    rewrite (renderResult_run data payload _ Hdata), Hrows.
    by rewrite Hrep. }
  rewrite Hw. clear Hw w'.
  destruct (completed_world
              (map_view (V.set_resultBody
                           (BodyHtml (renderMarkdown (c :: text))))
                 (meta_shown (meta_table (meta_of data) payload)
                    (set_lastReport (JStr (c :: text) ||| JStr (JSON_stringify data))
                       (stopLoadingAnimation w)))))
    as (-> & -> & -> & -> & -> & -> & ->).
  repeat split.
  apply (core_eq _ _ (core_stopLoadingAnimation w)).
Qed.

(** X24.  A successful response without a report (absent, empty, or any
    other falsy value), whose meta values all convert to text, also ends
    in [Succeeded]: the serialized body is shown as plain text and is what
    Copy and Download then give. *)
Theorem missing_report_shows_body (payload : Payload) (status : N)
    (data : JsVal) (w : World) :
  has_members data = true → signals_failure status data = false →
  meta_converts (meta_of data) payload = true →
  truthy (get_prop data (js "report")) = false →
  let w' := runAnalysis_resume payload (Responded status data) w in
  runState w' = Succeeded (JStr (JSON_stringify data))
  ∧ resultMeta (view w') = meta_table (meta_of data) payload
  ∧ resultBody (view w') = BodyText (JSON_stringify data).
Proof.
  intros Hdata Hfail Hconv Hrep w'.
  pose proof (meta_rows_cases (meta_of data) payload) as Hrows.
  rewrite Hconv in Hrows.
  assert (Hw : w' = completed
            (map_view (V.set_resultBody (BodyText (JSON_stringify data)))
               (meta_shown (meta_table (meta_of data) payload)
                  (set_lastReport (JStr (JSON_stringify data))
                     (stopLoadingAnimation w))))).
  { subst w'. rewrite (resume_rendered _ _ _ _ Hdata Hfail).
    unfold js_or at 1. rewrite Hrep. cbv iota.
    by rewrite (renderResult_falsy data payload _ _ Hdata Hrows Hrep). }
  rewrite Hw. clear Hw w'.
  destruct (completed_world
              (map_view (V.set_resultBody (BodyText (JSON_stringify data)))
                 (meta_shown (meta_table (meta_of data) payload)
                    (set_lastReport (JStr (JSON_stringify data))
                       (stopLoadingAnimation w)))))
    as (-> & -> & -> & _).
  done.
Qed.

(** X25.  A successful response whose meta values all convert to text and
    whose report is truthy but not a string ends in [Failed] with the
    message of the TypeError of [text.replace], after the cache has been
    overwritten with that report, the meta bar written and the result body
    emptied. *)
Theorem unrenderable_report (payload : Payload) (status : N) (data : JsVal)
    (w : World) :
  has_members data = true → signals_failure status data = false →
  meta_converts (meta_of data) payload = true →
  truthy (get_prop data (js "report")) = true →
  (∀ text, get_prop data (js "report") ≠ JStr text) →
  let w' := runAnalysis_resume payload (Responded status data) w in
  runState w' = Failed (shown_message msg_not_a_function)
  ∧ lastReport w' = get_prop data (js "report")
  ∧ resultMeta (view w') = meta_table (meta_of data) payload
  ∧ resultBody (view w') = BodyEmpty.
Proof.
  intros Hdata Hfail Hconv Hrep Hstr w'.
  pose proof (meta_rows_cases (meta_of data) payload) as Hrows.
  rewrite Hconv in Hrows.
  assert (Hw : w' = finally_block (snd (catch_block
            (mkError msg_not_a_function)
            (meta_shown (meta_table (meta_of data) payload)
               (set_lastReport (get_prop data (js "report"))
                  (stopLoadingAnimation w)))))).
  { subst w'. rewrite (resume_rendered _ _ _ _ Hdata Hfail).
    unfold js_or at 1. rewrite Hrep. cbv iota.
    by rewrite (renderResult_throws data payload _ _ Hdata Hrows Hrep Hstr). }
  rewrite Hw. clear Hw w'.
  rewrite runState_caught, lastReport_caught.
  split; [done|]. split; [done|].
  rewrite catch_block_world. split; reflexivity.
Qed.

(** X26.  A response whose body is [null] ends in [Failed] with the
    TypeError of the first property read from it: [status] when the HTTP
    status is a success, [message] otherwise.  The cache is untouched. *)
Theorem null_body_fails (payload : Payload) (status : N) (data : JsVal)
    (w : World) :
  has_members data = false →
  let w' := runAnalysis_resume payload (Responded status data) w in
  runState w'
  = Failed (shown_message
              (msg_null_property
                 (if res_ok status then js "status" else js "message")))
  ∧ lastReport w' = lastReport w.
Proof.
  intros Hdata w'. subst w'.
  rewrite resume_unfold, try_block_responded.
  assert (Htry : ∀ w0, after_stop payload status data w0
            = (Throw (mkError (msg_null_property
                 (if res_ok status then js "status" else js "message"))), w0)).
  { intros w0. unfold after_stop, failure_value, or_else, mbind, M_bind.
    destruct data; try discriminate; destruct (res_ok status); reflexivity. }
  rewrite Htry, runState_caught, lastReport_caught. split; [done|].
  apply (core_eq _ _ (core_stopLoadingAnimation w)).
Qed.

(** X27.  The meta bar is written only when every value it shows converts
    to text: [String()] refuses an object that has its own [toString]
    property (and an array holding one), [toLocaleString()] one that has
    its own [toLocaleString] or [toString].  When all convert, the rows are
    the four escaped values (analysis, compound, target, model), free of
    angle brackets whatever the response and the payload hold, followed by
    the token count when the response gives one.  When one does not,
    [renderResult] throws the TypeError of the first refusal before it
    writes anything, and a response that was a success ends in [Failed]
    with that message, the cache already overwritten. *)
Theorem meta_rows_escaped (data : JsVal) (payload : Payload) (w : World) :
  has_members data = true →
  (meta_converts (meta_of data) payload = true →
     resultMeta (view (snd (renderResult data payload w)))
     = meta_table (meta_of data) payload
     ∧ 4 ≤ length (meta_table (meta_of data) payload) ≤ 5
     ∧ (∀ i row, i < 4 →
          meta_table (meta_of data) payload !! i = Some row →
          no_angles row.2 = true)
     ∧ (∀ row, meta_table (meta_of data) payload !! 4 = Some row →
          ∃ n, token_count (meta_of data) = Some n
               ∧ row = (js "Tokens", toLocaleString n)))
  ∧ (meta_converts (meta_of data) payload = false →
     renderResult data payload w
     = (Throw (meta_error (meta_of data) payload), w)
     ∧ ∀ status, signals_failure status data = false →
         let w' := runAnalysis_resume payload (Responded status data) w in
         runState w'
         = Failed (shown_message
                     (err_message (meta_error (meta_of data) payload)))
         ∧ lastReport w'
           = get_prop data (js "report") ||| JStr (JSON_stringify data)
         ∧ resultMeta (view w') = resultMeta (view w)
         ∧ resultBody (view w') = resultBody (view w)).
Proof.
  intros Hdata.
  pose proof (meta_rows_cases (meta_of data) payload) as Hrows.
  pose proof (renderResult_run data payload) as Hrun.
  split; intros Hconv; rewrite Hconv in Hrows.
  - split; [|split; [apply meta_table_escaped|split;
                                                [apply meta_table_escaped|]]].
    + rewrite (Hrun w Hdata), Hrows.
      destruct (get_prop data (js "report")) as [| |b|n|[|c text]|items|fields];
        try reflexivity; destruct (truthy _); reflexivity.
    + intros row. unfold meta_table, meta_cells. cbn [map zip zip_with].
      rewrite lookup_app_r by (simpl; lia).
      destruct (token_count (meta_of data)) as [n|]; [|done].
      intros [= <-]. eauto.
  - split; [by rewrite (Hrun w Hdata), Hrows|].
    intros status Hfail w'.
    assert (Hw : w' = finally_block (snd (catch_block
                        (meta_error (meta_of data) payload)
              (set_lastReport (get_prop data (js "report")
                               ||| JStr (JSON_stringify data))
                 (stopLoadingAnimation w))))).
    { subst w'. rewrite (resume_rendered _ _ _ _ Hdata Hfail).
      by rewrite (Hrun _ Hdata), Hrows. }
    rewrite Hw. clear Hw w'.
    rewrite runState_caught, lastReport_caught.
    split; [done|]. split; [done|].
    rewrite catch_block_world.
    unfold stopLoadingAnimation, clearInterval.
    destruct (loadingTimer w); split; reflexivity.
Qed.

End Responses.

(** Sample bodies of a response. *)
Definition titled_body : JsVal := JObj [(js "report", JStr (js "# Title"))].
Definition reportless_body : JsVal := JObj [(js "answer", JInt 1)].
Definition numbered_body : JsVal := JObj [(js "report", JInt 5)].

(** A body whose [meta.model_used] is an object with a [toString]
    property of its own. *)
Definition odd_meta_body : JsVal :=
  JObj [(js "report", JStr (js "ok"));
        (js "meta", JObj [(js "model_used",
                           JObj [(js "toString", JInt 1)])])].


Lemma successful_run_witness :
  has_members titled_body = true ∧ signals_failure 200 titled_body = false
  ∧ meta_converts (meta_of titled_body) ∅ = true
  ∧ get_prop titled_body (js "report") = JStr (js "# Title")
  ∧ js "# Title" ≠ []
  ∧ let w' := runAnalysis_resume ∅ (Responded 200 titled_body)
                (page both_form) in
    runState w' = Succeeded (JStr (js "# Title"))
    ∧ resultMeta (view w') = meta_table (meta_of titled_body) ∅
    ∧ resultBody (view w') = BodyHtml (renderMarkdown (js "# Title"))
    ∧ display (view w') !! "outputActions" = Some d_flex
    ∧ btnRun_disabled (view w') = false
    ∧ statusLabel (view w') = js "Complete"
    ∧ effects w' = effects (page both_form).
Proof.
  split; [reflexivity|]. split; [reflexivity|]. split; [reflexivity|].
  split; [reflexivity|]. split; [discriminate|].
  apply (successful_run ∅ 200 titled_body (js "# Title") (page both_form));
    first [reflexivity | discriminate].
Defined.

Lemma missing_report_shows_body_witness :
  has_members reportless_body = true
  ∧ signals_failure 200 reportless_body = false
  ∧ meta_converts (meta_of reportless_body) ∅ = true
  ∧ truthy (get_prop reportless_body (js "report")) = false
  ∧ let w' := runAnalysis_resume ∅ (Responded 200 reportless_body)
                (page both_form) in
    runState w' = Succeeded (JStr (JSON_stringify reportless_body))
    ∧ resultMeta (view w') = meta_table (meta_of reportless_body) ∅
    ∧ resultBody (view w') = BodyText (JSON_stringify reportless_body).
Proof.
  split; [reflexivity|]. split; [reflexivity|]. split; [reflexivity|].
  split; [reflexivity|].
  apply (missing_report_shows_body ∅ 200 reportless_body (page both_form));
    reflexivity.
Defined.

Lemma unrenderable_report_witness :
  has_members numbered_body = true
  ∧ signals_failure 200 numbered_body = false
  ∧ meta_converts (meta_of numbered_body) ∅ = true
  ∧ truthy (get_prop numbered_body (js "report")) = true
  ∧ (∀ text, get_prop numbered_body (js "report") ≠ JStr text)
  ∧ let w' := runAnalysis_resume ∅ (Responded 200 numbered_body)
                (page both_form) in
    runState w' = Failed (shown_message msg_not_a_function)
    ∧ lastReport w' = get_prop numbered_body (js "report")
    ∧ resultMeta (view w') = meta_table (meta_of numbered_body) ∅
    ∧ resultBody (view w') = BodyEmpty.
Proof.
  split; [reflexivity|]. split; [reflexivity|]. split; [reflexivity|].
  split; [reflexivity|]. split; [discriminate|].
  apply (unrenderable_report ∅ 200 numbered_body (page both_form));
    first [reflexivity | discriminate].
Defined.

Lemma null_body_fails_witness :
  has_members JNull = false
  ∧ let w' := runAnalysis_resume ∅ (Responded 200 JNull) (page both_form) in
    runState w'
    = Failed (shown_message
                (msg_null_property
                   (if res_ok 200 then js "status" else js "message")))
    ∧ lastReport w' = lastReport (page both_form).
Proof.
  split; [reflexivity|].
  apply (null_body_fails ∅ 200 JNull (page both_form) eq_refl).
Defined.

(** The body [{"report":"ok","meta":{"model_used":{"toString":1}}}] with
    status 200: the meta bar cannot be written, and the run fails with the
    report cached. *)
Lemma meta_rows_escaped_witness :
  has_members odd_meta_body = true
  ∧ meta_converts (meta_of odd_meta_body) ∅ = false
  ∧ signals_failure 200 odd_meta_body = false
  ∧ let w' := runAnalysis_resume ∅ (Responded 200 odd_meta_body)
                (page both_form) in
    runState w' = Failed (js "Cannot convert object to primitive value")
    ∧ lastReport w' = JStr (js "ok")
    ∧ resultMeta (view w') = []
    ∧ resultBody (view w') = BodyEmpty.
Proof.
  split; [reflexivity|]. split; [reflexivity|]. split; [reflexivity|].
  destruct (meta_rows_escaped odd_meta_body ∅ (page both_form) eq_refl)
    as [_ Hthrow].
  destruct (Hthrow eq_refl) as [_ Hrun].
  exact (Hrun 200%N eq_refl).
Defined.

(* ------------------------------------------------------------------ *)
(** ** The label of the copy button *)

Lemma run_timers_none (fuel : nat) (until : N) (w : World) :
  next_due until (timers w) = None → run_timers fuel until w = w.
Proof. intros Hn. destruct fuel; simpl; by rewrite ?Hn. Qed.

(** The timeout registered by the [then] callback of [copyReport]. *)
Definition revert_timer (w : World) : Timer :=
  {| t_id := next_id w; t_due := (now w + 1500)%N; t_period := None;
     t_cb := CbCopyRevert (copy_text (view w)) |}.

Lemma copyReport_then_unfold (w : World) :
  copyReport_then w
  = set_next_id (S (next_id w))
      (set_timers (timers w ++ [revert_timer w])
         (map_view (V.set_copy (js "Copied!") (js "var(--green)")) w)).
Proof. reflexivity. Qed.

(** X28.  Once the clipboard has taken the report the copy button reads
    [Copied!]; 1.5 s later it reads what it read before, in the default
    colour, and the timeout is gone. *)
Theorem copy_label_reverts (fuel : nat) (w : World) :
  timers w = [] →
  let w' := elapse (S fuel) 1500 (copyReport_then w) in
  copy_text (view (copyReport_then w)) = js "Copied!"
  ∧ copy_text (view w') = copy_text (view w)
  ∧ copy_color (view w') = []
  ∧ timers w' = [].
Proof.
  intros Ht. split; [reflexivity|].
  destruct w as [f v r lt nw ts nid cs sus eff]. simpl in Ht. subst ts.
  unfold elapse. rewrite copyReport_then_unfold.
  cbn [run_timers timers set_next_id set_timers map_view now app next_due
       revert_timer t_due next_id].
  rewrite N.leb_refl. unfold fire.
  cbn [timers set_next_id set_timers map_view now t_id t_cb t_period t_due
       run_callback].
  rewrite filter_cons_False by (cbn; intros Hne; by apply Hne).
  rewrite filter_nil, run_timers_none by reflexivity.
  done.
Qed.

Lemma copy_label_reverts_witness :
  timers (page both_form) = []
  ∧ let w' := elapse 1 1500 (copyReport_then (page both_form)) in
    copy_text (view (copyReport_then (page both_form))) = js "Copied!"
    ∧ copy_text (view w') = copy_text (view (page both_form))
    ∧ copy_color (view w') = []
    ∧ timers w' = [].
Proof.
  split; [reflexivity|].
  apply (copy_label_reverts 0 (page both_form) eq_refl).
Defined.

(** X29.  A second copy less than 1.5 s after the first takes [Copied!]
    for the label to restore: when both timeouts have run the button
    still reads [Copied!], and the label it had is lost. *)
Theorem second_copy_keeps_label (fuel fuel' : nat) (d : N) (w : World) :
  timers w = [] → (d < 1500)%N →
  let w1 := elapse fuel d (copyReport_then w) in
  let w2 := elapse (S (S fuel')) 1500 (copyReport_then w1) in
  copy_text (view w1) = js "Copied!"
  ∧ copy_text (view w2) = js "Copied!"
  ∧ timers w2 = [].
Proof.
  intros Ht Hd.
  destruct w as [f v r lt nw ts nid cs sus eff]. simpl in Ht. subst ts.
  assert (H1 : elapse fuel d
                 (copyReport_then
                    {| form := f; view := v; lastReport := r;
                       loadingTimer := lt; now := nw; timers := [];
                       next_id := nid; cells := cs; suspended := sus;
                       effects := eff |})
               = {| form := f;
                    view := V.set_copy (js "Copied!") (js "var(--green)") v;
                    lastReport := r; loadingTimer := lt; now := (nw + d)%N;
                    timers := [{| t_id := nid; t_due := (nw + 1500)%N;
                                  t_period := None;
                                  t_cb := CbCopyRevert (copy_text v) |}];
                    next_id := S nid; cells := cs; suspended := sus;
                    effects := eff |}).
  { unfold elapse. rewrite copyReport_then_unfold.
    rewrite run_timers_none.
    - unfold set_now, set_next_id, set_timers, map_view, revert_timer.
      cbn [timers now app next_id view form lastReport loadingTimer cells
           suspended effects copy_text].
      f_equal. lia.
    - cbn [timers set_next_id set_timers map_view now app revert_timer
           next_due t_due].
      by rewrite (proj2 (N.leb_gt _ _)) by lia. }
  cbn zeta. rewrite H1. split; [reflexivity|].
  unfold elapse. rewrite copyReport_then_unfold. unfold revert_timer, fire.
  repeat first
    [ rewrite N.leb_refl
    | rewrite (proj2 (N.leb_le (nw + 1500) (nw + d + 1500))) by lia
    | rewrite filter_cons_False by (cbn; intros Hne; by apply Hne)
    | rewrite filter_cons_True by (cbn; lia)
    | rewrite filter_nil
    | rewrite run_timers_none by reflexivity
    | progress cbn -[N.add N.leb N.max filter js run_timers]
    | progress cbn [run_timers] ].
  done.
Qed.

Lemma second_copy_keeps_label_witness :
  timers (page both_form) = [] ∧ (500 < 1500)%N
  ∧ let w1 := elapse 1 500 (copyReport_then (page both_form)) in
    let w2 := elapse 2 1500 (copyReport_then w1) in
    copy_text (view w1) = js "Copied!"
    ∧ copy_text (view w2) = js "Copied!"
    ∧ timers w2 = [].
Proof.
  split; [reflexivity|]. split; [reflexivity|].
  apply (second_copy_keeps_label 1 0 500 (page both_form) eq_refl eq_refl).
Defined.

(* ------------------------------------------------------------------ *)
(** ** The saved webhook URL *)

Definition STORAGE_KEY_WEBHOOK : string := "biocore_webhook_url".

(** [localStorage]: item name to value; [getItem] of a missing name is null. *)
Abbreviation Storage := (gmap string jsstring).

Definition set_webhookUrl (url : jsstring) (f : Form) : Form :=
  {| projectName := projectName f; projectDesc := projectDesc f;
     compoundName := compoundName f; cid := cid f; pdbId := pdbId f;
     dockingJson := dockingJson f; swissdockJson := swissdockJson f;
     pymolJson := pymolJson f; webhookUrl := url |}.

(** The first statement of [init]: restore the saved webhook URL. *)
Definition init_restore (store : Storage) (f : Form) : Form :=
  match store !! STORAGE_KEY_WEBHOOK with
  | Some saved => if nonempty saved then set_webhookUrl saved f else f
  | None => f
  end.

(** The [input] listener that [init] puts on the webhook field. *)
Definition on_webhook_input (f : Form) (store : Storage) : Storage :=
  <[STORAGE_KEY_WEBHOOK := trim (webhookUrl f)]> store.

Section Saved.
Context {E : Engine}.

Lemma webhook_required_elem (f : Form) :
  Msg.webhook_required ∈ validate f ↔ trim (webhookUrl f) = [].
Proof.
  rewrite validate_elem, <- nonempty_false. split.
  - intros [[? Heq]|[(_ & _ & Heq)|[[_ Heq]|[[? Heq]|(key & Hkey & Hin)]]]];
      try done; try (vm_compute in Heq; discriminate).
    exfalso. apply validate_json_elem in Hin.
    unfold json_keys in Hkey. rewrite !elem_of_cons, elem_of_nil in Hkey.
    destruct Hkey as [->|[->|[->|[]]]]; vm_compute in Hin; discriminate.
  - intros Hblank. auto 10.
Qed.

(** X30.  Editing the webhook field stores its trimmed text under one key
    of the storage and touches no other key.  When the page is next
    loaded a non-blank stored URL is put in the field, where it passes
    the webhook rule and would be stored unchanged; a blank stored URL
    is not restored. *)
Theorem saved_webhook_round_trip (f f0 : Form) (store : Storage) :
  let store' := on_webhook_input f store in
  let f' := init_restore store' f0 in
  (∀ k, k ≠ STORAGE_KEY_WEBHOOK → store' !! k = store !! k)
  ∧ (trim (webhookUrl f) = [] → f' = f0)
  ∧ (trim (webhookUrl f) ≠ [] →
       f' = set_webhookUrl (trim (webhookUrl f)) f0
       ∧ (Msg.webhook_required ∉ validate f')
       ∧ on_webhook_input f' store' = store').
Proof.
  intros store' f'. subst store' f'. unfold init_restore, on_webhook_input.
  rewrite lookup_insert_eq. split; [|split].
  - intros k Hk. by rewrite lookup_insert_ne.
  - by intros ->.
  - intros Hurl. apply nonempty_true in Hurl as Hne. rewrite Hne.
    split; [done|]. split.
    + rewrite webhook_required_elem. cbn [webhookUrl set_webhookUrl].
      by rewrite trim_idempotent.
    + cbn [webhookUrl set_webhookUrl].
      by rewrite trim_idempotent, insert_insert_eq.
Qed.

End Saved.
